(** * Swagger generation of plangrid.flask_toolbox: a shallow embedding

    The development follows
    [plangrid/flask_toolbox/framing/swagger_generator.py]:

    - JSON-Schema fragments and Python dictionaries (insertion ordered);
    - the flattener [_flatten], [_flatten_object], [_flatten_array], once on
      fragments as values and once on an object store with aliasing and
      in-place mutation;
    - the path translator [_format_path_for_swagger] with the regular
      expression [_PATH_REGEX];
    - the generator [SwaggerV2Generator]: [_get_security], [_get_paths],
      [_get_definitions], [generate]. *)

From stdpp Require Import base list strings gmap.
From Stdlib Require Import ZArith Lia Ascii.

(** ** Swagger words *)

(** Modelled from the spec: the module [swagger_words] is imported as [sw] by
    the generator but is not part of the sources at hand.  Its constants are
    the literal JSON keys of the output contract (spec section 6) and of the
    expected documents in [tests/framing/test_swagger_generator.py]. *)
Module sw.
Definition type_ : String.string := "type".
Definition title : String.string := "title".
Definition properties : String.string := "properties".
Definition items : String.string := "items".
Definition ref : String.string := "$ref".
Definition definitions : String.string := "definitions".
Definition object_ : String.string := "object".
Definition array : String.string := "array".
Definition string : String.string := "string".
Definition integer : String.string := "integer".
Definition number : String.string := "number".
Definition name : String.string := "name".
Definition in_ : String.string := "in".
Definition required : String.string := "required".
Definition path : String.string := "path".
Definition query : String.string := "query".
Definition header : String.string := "header".
Definition body : String.string := "body".
Definition schema : String.string := "schema".
Definition api_key : String.string := "apiKey".
Definition default : String.string := "default".
Definition parameters : String.string := "parameters".
Definition responses : String.string := "responses".
Definition operation_id : String.string := "operationId".
Definition description : String.string := "description".
Definition security : String.string := "security".
Definition security_definitions : String.string := "securityDefinitions".
Definition swagger : String.string := "swagger".
Definition info : String.string := "info".
Definition host : String.string := "host".
Definition schemes : String.string := "schemes".
Definition consumes : String.string := "consumes".
Definition produces : String.string := "produces".
Definition paths : String.string := "paths".
End sw.

(** ** Exceptions and results *)

(** The Python exceptions the generator can raise.  [RecursionError] is
    raised when the budget of nested calls, the fuel of the recursive
    functions below, is used up; the fuel counts one unit per nested call of
    such a function, not the frames of the interpreter, so it does not say at
    which depth the interpreter's own limit is reached.  [ExternalError]
    stands for whatever a converter of the registries raises. *)
Inductive exn : Type :=
| KeyError (key : string)
| TypeError
| AttributeError
| AssertionError
| RuntimeError
| RecursionError
| ExternalError (msg : string).

Inductive result (A : Type) : Type :=
| Ok (a : A)
| Raise (e : exn).
Arguments Ok {A} a.
Arguments Raise {A} e.

Definition bind {A B : Type} (m : result A) (k : A -> result B) : result B :=
  match m with
  | Ok a => k a
  | Raise e => Raise e
  end.

Declare Scope result_scope.
Delimit Scope result_scope with result.
Notation "x <- c ;; k" := (bind c (fun x => k))
  (at level 100, c at next level, right associativity) : result_scope.
Open Scope result_scope.

Definition is_ok {A : Type} (r : result A) : bool :=
  match r with Ok _ => true | Raise _ => false end.

(** ** JSON values and Python dictionaries *)

(** A JSON-Schema fragment is a JSON value.  A Python [dict] is kept as the
    list of its items in insertion order. *)
#[local] Unset Elimination Schemes.
Inductive json : Type :=
| JNull
| JBool (b : bool)
| JInt (n : Z)
| JStr (s : string)
| JList (xs : list json)
| JDict (kvs : list (string * json)).
#[local] Set Elimination Schemes.

Abbreviation dict := (list (string * json)).

Section Dict.
Context {V : Type}.

(** [d[k]] as an option: the first item under the key. *)
Fixpoint dict_get (k : string) (d : list (string * V)) : option V :=
  match d with
  | [] => None
  | (k', v) :: d' => if decide (k' = k) then Some v else dict_get k d'
  end.

(** [d[k] = v]: an existing key keeps its position, a new key goes last. *)
Fixpoint dict_set (k : string) (v : V) (d : list (string * V))
  : list (string * V) :=
  match d with
  | [] => [(k, v)]
  | (k', v') :: d' =>
      if decide (k' = k) then (k', v) :: d' else (k', v') :: dict_set k v d'
  end.

(** [d1.update(d2)] *)
Definition dict_update (d1 d2 : list (string * V)) : list (string * V) :=
  fold_left (fun acc kv => dict_set kv.1 kv.2 acc) d2 d1.

Definition dict_keys (d : list (string * V)) : list string := d.*1.
End Dict.

(** [x == s] for a string constant [s]: only a [str] can be equal to it. *)
Definition py_eq_str (x : json) (s : string) : bool :=
  match x with
  | JStr s' => bool_decide (s' = s)
  | _ => false
  end.

(** [x[k]] with a string key: [KeyError] from a dict without the key,
    [TypeError] from anything that is not a dict. *)
Definition getitem (x : json) (k : string) : result json :=
  match x with
  | JDict kvs =>
      match dict_get k kvs with
      | Some v => Ok v
      | None => Raise (KeyError k)
      end
  | _ => Raise TypeError
  end.

(** [x[k] = v] on a dict. *)
Definition setitem (x : json) (k : string) (v : json) : result json :=
  match x with
  | JDict kvs => Ok (JDict (dict_set k v kvs))
  | _ => Raise TypeError
  end.

(** [x.items()]: only a dict has the method. *)
Definition dict_items (x : json) : result dict :=
  match x with
  | JDict kvs => Ok kvs
  | _ => Raise AttributeError
  end.

(** Nesting depth of a value, the number of nested calls a recursive walk
    needs. *)
Fixpoint depth (x : json) : nat :=
  match x with
  | JList xs => S (foldr (fun y n => Nat.max (depth y) n) 0 xs)
  | JDict kvs => S (foldr (fun kv n => Nat.max (depth kv.2) n) 0 kvs)
  | _ => 1
  end.

(** ** The flattener on values *)

(** [copy.deepcopy] on a value without sharing: the copy is an equal value,
    built by one recursive call per level of nesting. *)
Fixpoint deepcopy (fuel : nat) (x : json) : result json :=
  match fuel with
  | 0 => Raise RecursionError
  | S fuel' =>
      match x with
      | JList xs =>
          ys <- (fix copy_all (l : list json) : result (list json) :=
                   match l with
                   | [] => Ok []
                   | a :: l' =>
                       a' <- deepcopy fuel' a ;;
                       l'' <- copy_all l' ;;
                       Ok (a' :: l'')
                   end) xs ;;
          Ok (JList ys)
      | JDict kvs =>
          kvs' <- (fix copy_all (l : dict) : result dict :=
                     match l with
                     | [] => Ok []
                     | (k, v) :: l' =>
                         v' <- deepcopy fuel' v ;;
                         l'' <- copy_all l' ;;
                         Ok ((k, v') :: l'')
                     end) kvs ;;
          Ok (JDict kvs')
      | _ => Ok x
      end
  end.

Definition _get_key (obj : json) : result json :=
  getitem obj sw.title.

(** ['/'.join(list(path) + [key])] with the default [path]; joining raises
    [TypeError] on a key that is not a string. *)
Definition _get_ref (key : json) : result string :=
  match key with
  | JStr k => Ok ("#" +:+ "/" +:+ sw.definitions +:+ "/" +:+ k)
  | _ => Raise TypeError
  end.

(** [{sw.ref: _get_ref(key)}] *)
Definition ref_to (key : json) : result json :=
  r <- _get_ref key ;;
  Ok (JDict [(sw.ref, JStr r)]).

(** [definitions[key] = schema].  The table is keyed by strings here.  A
    title that is not a string never survives: it is unhashable, or else the
    caller's [_get_ref] raises [TypeError] right after [_flatten_object]
    returns it; the raise is taken here. *)
Definition register (key : json) (schema : json) (definitions : dict)
  : result dict :=
  match key with
  | JStr k => Ok (dict_set k schema definitions)
  | _ => Raise TypeError
  end.

(** [_flatten_object] and [_flatten_array] work in place on the copy.  On
    values, each returns what the mutated [schema] has become, next to the
    definitions table; [_flatten_object] returns its key first, as in the
    source.  The loop runs over the items of [schema[sw.properties]] and
    rewrites the field it is at. *)
Fixpoint _flatten_object (fuel : nat) (schema : json) (definitions : dict)
  : result (json * json * dict) :=
  match fuel with
  | 0 => Raise RecursionError
  | S fuel' =>
      props <- getitem schema sw.properties ;;
      its <- dict_items props ;;
      st <-
        (fix loop (its : dict) (props : dict) (definitions : dict)
           : result (dict * dict) :=
           match its with
           | [] => Ok (props, definitions)
           | (field, obj) :: rest =>
               ty <- getitem obj sw.type_ ;;
               if py_eq_str ty sw.object_ then
                 r <- _flatten_object fuel' obj definitions ;;
                 let '(obj_key, _, definitions) := r in
                 r <- ref_to obj_key ;;
                 loop rest (dict_set field r props) definitions
               else if py_eq_str ty sw.array then
                 r <- _flatten_array fuel' obj definitions ;;
                 let '(obj', definitions) := r in
                 loop rest (dict_set field obj' props) definitions
               else loop rest props definitions
           end) its its definitions ;;
      let '(props', definitions) := st in
      schema <- setitem schema sw.properties (JDict props') ;;
      key <- _get_key schema ;;
      definitions <- register key schema definitions ;;
      Ok (key, schema, definitions)
  end
with _flatten_array (fuel : nat) (schema : json) (definitions : dict)
  : result (json * dict) :=
  match fuel with
  | 0 => Raise RecursionError
  | S fuel' =>
      its <- getitem schema sw.items ;;
      ty <- getitem its sw.type_ ;;
      if py_eq_str ty sw.object_ then
        r <- _flatten_object fuel' its definitions ;;
        let '(obj_key, _, definitions) := r in
        r <- ref_to obj_key ;;
        schema <- setitem schema sw.items r ;;
        Ok (schema, definitions)
      else if py_eq_str ty sw.array then
        r <- _flatten_array fuel' its definitions ;;
        let '(its', definitions) := r in
        schema <- setitem schema sw.items its' ;;
        Ok (schema, definitions)
      else Ok (schema, definitions)
  end.

Definition _flatten (fuel : nat) (schema : json) : result (json * dict) :=
  schema <- deepcopy fuel schema ;;
  let definitions : dict := [] in
  ty <- getitem schema sw.type_ ;;
  if py_eq_str ty sw.object_ then
    r <- _flatten_object fuel schema definitions ;;
    let '(key, _, definitions) := r in
    r <- ref_to key ;;
    Ok (r, definitions)
  else if py_eq_str ty sw.array then
    _flatten_array fuel schema definitions
  else Ok (schema, definitions).

(** The fixtures of [TestFlatten]. *)
Definition test_flatten_input : json :=
  JDict [("type", JStr "object"); ("title", JStr "x");
         ("properties", JDict [
            ("a", JDict [("type", JStr "object"); ("title", JStr "y");
                         ("properties", JDict [
                            ("b", JDict [("type", JStr "integer")])])]);
            ("b", JDict [("type", JStr "string")])])].

Definition test_flatten_array_input : json :=
  JDict [("type", JStr "array"); ("title", JStr "x");
         ("items", JDict [
            ("type", JStr "array"); ("title", JStr "y");
            ("items", JDict [
               ("type", JStr "object"); ("title", JStr "z");
               ("properties", JDict [
                  ("a", JDict [("type", JStr "integer")])])])])].

(** ** The flattener on the object store

    Python dicts and lists are objects with an identity: two names can refer
    to one object, and [d[k] = v] changes it under every name.  Here the
    store is explicit.  A value is an atom or a reference; the store maps a
    reference to a dict or a list; allocation adds an object at the end. *)
Module Store.

Abbreviation loc := nat.

Inductive val : Type :=
| VNone
| VBool (b : bool)
| VInt (n : Z)
| VStr (s : string)
| VRef (l : loc).

Inductive obj : Type :=
| ODict (kvs : list (string * val))
| OList (xs : list val).

Abbreviation heap := (list obj).

(** A computation reads and writes the store, and returns or raises; the
    store survives a raise. *)
Definition M (A : Type) : Type := heap -> result A * heap.

Definition ret {A : Type} (a : A) : M A := fun h => (Ok a, h).

Definition raise {A : Type} (e : exn) : M A := fun h => (Raise e, h).

Definition mbind {A B : Type} (m : M A) (k : A -> M B) : M B :=
  fun h =>
    match m h with
    | (Ok a, h') => k a h'
    | (Raise e, h') => (Raise e, h')
    end.

Notation "x <~ c ;; k" := (mbind c (fun x => k))
  (at level 100, c at next level, right associativity).

Definition alloc (o : obj) : M val :=
  fun h => (Ok (VRef (length h)), h ++ [o]).

(** Python has no reference to an object that is not there; for one that
    the store does not hold, the read raises. *)
Definition load (l : loc) : M obj :=
  fun h =>
    match h !! l with
    | Some o => (Ok o, h)
    | None => (Raise RuntimeError, h)
    end.

Definition store (l : loc) (o : obj) : M unit :=
  fun h => (Ok tt, <[l := o]> h).

(** [x[k]] *)
Definition getitem (x : val) (k : string) : M val :=
  match x with
  | VRef l =>
      o <~ load l ;;
      match o with
      | ODict kvs =>
          match dict_get k kvs with
          | Some v => ret v
          | None => raise (KeyError k)
          end
      | OList _ => raise TypeError
      end
  | _ => raise TypeError
  end.

(** [x[k] = v] *)
Definition setitem (x : val) (k : string) (v : val) : M unit :=
  match x with
  | VRef l =>
      o <~ load l ;;
      match o with
      | ODict kvs => store l (ODict (dict_set k v kvs))
      | OList _ => raise TypeError
      end
  | _ => raise TypeError
  end.

(** [x.append(v)] *)
Definition append (x : val) (v : val) : M unit :=
  match x with
  | VRef l =>
      o <~ load l ;;
      match o with
      | OList xs => store l (OList (xs ++ [v]))
      | ODict _ => raise AttributeError
      end
  | _ => raise AttributeError
  end.

(** [len(x.items())]: the size the dict iterator remembers. *)
Definition items_len (x : val) : M nat :=
  match x with
  | VRef l =>
      o <~ load l ;;
      match o with
      | ODict kvs => ret (length kvs)
      | OList _ => raise AttributeError
      end
  | _ => raise AttributeError
  end.

(** One step of the dict iterator: [RuntimeError] when the dict changed
    size since the iterator was made, [None] at the end, else the item at
    the position. *)
Definition items_next (x : val) (size : nat) (i : nat)
  : M (option (string * val)) :=
  match x with
  | VRef l =>
      o <~ load l ;;
      match o with
      | ODict kvs =>
          if decide (length kvs = size) then ret (kvs !! i)
          else raise RuntimeError
      | OList _ => raise AttributeError
      end
  | _ => raise AttributeError
  end.

Definition py_eq_str (x : val) (s : string) : bool :=
  match x with
  | VStr s' => bool_decide (s' = s)
  | _ => false
  end.

(** [copy.deepcopy(x, memo)] of the standard library: an atom is its own
    copy; a dict or a list is copied once, the copy is entered in [memo]
    before its members are copied, and a second visit returns the copy
    from [memo].  The members are read from the original, which the copy
    never writes to. *)
Fixpoint deepcopy (fuel : nat) (x : val) (memo : gmap loc loc)
  : M (val * gmap loc loc) :=
  match fuel with
  | 0 => raise RecursionError
  | S fuel' =>
      match x with
      | VRef l =>
          match memo !! l with
          | Some l' => ret (VRef l', memo)
          | None =>
              o <~ load l ;;
              match o with
              | OList xs =>
                  y <~ alloc (OList []) ;;
                  let memo := match y with
                              | VRef l' => <[l := l']> memo
                              | _ => memo
                              end in
                  memo <~ (fix each (xs : list val) (memo : gmap loc loc)
                             : M (gmap loc loc) :=
                             match xs with
                             | [] => ret memo
                             | a :: xs' =>
                                 r <~ deepcopy fuel' a memo ;;
                                 _ <~ append y r.1 ;;
                                 each xs' r.2
                             end) xs memo ;;
                  ret (y, memo)
              | ODict kvs =>
                  y <~ alloc (ODict []) ;;
                  let memo := match y with
                              | VRef l' => <[l := l']> memo
                              | _ => memo
                              end in
                  memo <~ (fix each (kvs : list (string * val))
                             (memo : gmap loc loc) : M (gmap loc loc) :=
                             match kvs with
                             | [] => ret memo
                             | (k, v) :: kvs' =>
                                 r <~ deepcopy fuel' v memo ;;
                                 _ <~ setitem y k r.1 ;;
                                 each kvs' r.2
                             end) kvs memo ;;
                  ret (y, memo)
              end
          end
      | _ => ret (x, memo)
      end
  end.

Definition _get_key (obj : val) : M val :=
  getitem obj sw.title.

Definition _get_ref (key : val) : M string :=
  match key with
  | VStr k => ret ("#" +:+ "/" +:+ sw.definitions +:+ "/" +:+ k)
  | _ => raise TypeError
  end.

(** [{sw.ref: _get_ref(key)}], a new dict. *)
Definition ref_to (key : val) : M val :=
  r <~ _get_ref key ;;
  alloc (ODict [(sw.ref, VStr r)]).

(** [definitions[key] = schema], string keys only (see [register] above). *)
Definition register (definitions : val) (key : val) (schema : val)
  : M unit :=
  match key with
  | VStr k => setitem definitions k schema
  | _ => raise TypeError
  end.

Fixpoint _flatten_object (fuel : nat) (schema : val) (definitions : val)
  : M val :=
  match fuel with
  | 0 => raise RecursionError
  | S fuel' =>
      props <~ getitem schema sw.properties ;;
      size <~ items_len props ;;
      _ <~ (fix loop (todo : nat) (i : nat) : M unit :=
              nxt <~ items_next props size i ;;
              match todo, nxt with
              | S todo', Some (field, obj) =>
                  ty <~ getitem obj sw.type_ ;;
                  _ <~ (if py_eq_str ty sw.object_ then
                          obj_key <~ _flatten_object fuel' obj definitions ;;
                          r <~ ref_to obj_key ;;
                          props' <~ getitem schema sw.properties ;;
                          setitem props' field r
                        else if py_eq_str ty sw.array then
                          _flatten_array fuel' obj definitions
                        else ret tt) ;;
                  loop todo' (S i)
              | _, _ => ret tt
              end) size 0 ;;
      key <~ _get_key schema ;;
      _ <~ register definitions key schema ;;
      ret key
  end
with _flatten_array (fuel : nat) (schema : val) (definitions : val)
  : M unit :=
  match fuel with
  | 0 => raise RecursionError
  | S fuel' =>
      its <~ getitem schema sw.items ;;
      ty <~ getitem its sw.type_ ;;
      if py_eq_str ty sw.object_ then
        its <~ getitem schema sw.items ;;
        obj_key <~ _flatten_object fuel' its definitions ;;
        r <~ ref_to obj_key ;;
        setitem schema sw.items r
      else
        its <~ getitem schema sw.items ;;
        ty <~ getitem its sw.type_ ;;
        if py_eq_str ty sw.array then
          its <~ getitem schema sw.items ;;
          _flatten_array fuel' its definitions
        else ret tt
  end.

Definition _flatten (fuel : nat) (schema : val) : M (val * val) :=
  r <~ deepcopy fuel schema ∅ ;;
  let schema := r.1 in
  definitions <~ alloc (ODict []) ;;
  ty <~ getitem schema sw.type_ ;;
  if py_eq_str ty sw.object_ then
    key <~ _flatten_object fuel schema definitions ;;
    r <~ ref_to key ;;
    ret (r, definitions)
  else
    ty <~ getitem schema sw.type_ ;;
    if py_eq_str ty sw.array then
      _ <~ _flatten_array fuel schema definitions ;;
      ret (schema, definitions)
    else ret (schema, definitions).

(** The value a reference stands for, read off the store down to a depth. *)
Fixpoint value_of (fuel : nat) (h : heap) (v : val) : option json :=
  match fuel with
  | 0 => None
  | S fuel' =>
      match v with
      | VNone => Some JNull
      | VBool b => Some (JBool b)
      | VInt n => Some (JInt n)
      | VStr s => Some (JStr s)
      | VRef l =>
          match h !! l with
          | Some (OList xs) =>
              option_map JList
                ((fix all (xs : list val) : option (list json) :=
                    match xs with
                    | [] => Some []
                    | a :: xs' =>
                        match value_of fuel' h a, all xs' with
                        | Some j, Some js => Some (j :: js)
                        | _, _ => None
                        end
                    end) xs)
          | Some (ODict kvs) =>
              option_map JDict
                ((fix all (kvs : list (string * val)) : option dict :=
                    match kvs with
                    | [] => Some []
                    | (k, a) :: kvs' =>
                        match value_of fuel' h a, all kvs' with
                        | Some j, Some js => Some ((k, j) :: js)
                        | _, _ => None
                        end
                    end) kvs)
          | None => None
          end
      end
  end.

(** Building a value in the store, every dict and list a new object. *)
Fixpoint build (x : json) : M val :=
  match x with
  | JNull => ret VNone
  | JBool b => ret (VBool b)
  | JInt n => ret (VInt n)
  | JStr s => ret (VStr s)
  | JList xs =>
      vs <~ (fix all (xs : list json) : M (list val) :=
               match xs with
               | [] => ret []
               | a :: xs' =>
                   v <~ build a ;; vs <~ all xs' ;; ret (v :: vs)
               end) xs ;;
      alloc (OList vs)
  | JDict kvs =>
      vs <~ (fix all (kvs : dict) : M (list (string * val)) :=
               match kvs with
               | [] => ret []
               | (k, a) :: kvs' =>
                   v <~ build a ;; vs <~ all kvs' ;; ret ((k, v) :: vs)
               end) kvs ;;
      alloc (ODict vs)
  end.

(** [_flatten] run on a value built in an empty store; the results and the
    caller's fragment are read back from the final store. *)
Definition run_flatten (fuel : nat) (x : json)
  : result (option json * option json) * option json :=
  match build x [] with
  | (Ok v, h) =>
      match _flatten fuel v h with
      | (Ok (s, d), h') =>
          (Ok (value_of fuel h' s, value_of fuel h' d), value_of fuel h' v)
      | (Raise e, h') => (Raise e, value_of fuel h' v)
      end
  | (Raise e, h) => (Raise e, None)
  end.

End Store.

(** ** Regular expressions, as far as [_PATH_REGEX] needs them

    A backtracking matcher in the order Python's [re] tries alternatives:
    [.+?] takes one character (any but a newline) and then as few more as it
    can; [r?] tries [r] first and the empty match second; a group records
    the text it matched, and a group on an abandoned path records nothing. *)
Inductive regex : Type :=
| Lit (c : ascii)
| DotPlusLazy
| Cat (r1 r2 : regex)
| Opt (r : regex)
| Group (name : option string) (r : regex).

(** The named groups of a match and their texts. *)
Abbreviation groups := (list (string * string)).

Definition set_group (name : option string) (text : string) (gs : groups)
  : groups :=
  match name with
  | Some n => dict_set n text gs
  | None => gs
  end.

(** The part of [s] in front of its suffix [rest]. *)
Definition consumed (s rest : string) : string :=
  String.substring 0 (String.length s - String.length rest) s.

Fixpoint rmatch {R : Type} (r : regex) (s : string) (gs : groups)
  (k : string -> groups -> option R) : option R :=
  match r with
  | Lit c =>
      match s with
      | String c' s' => if decide (c' = c) then k s' gs else None
      | EmptyString => None
      end
  | DotPlusLazy =>
      (fix more (s : string) : option R :=
         match s with
         | String c s' =>
             if decide (c = "010"%char) then None
             else match k s' gs with
                  | Some x => Some x
                  | None => more s'
                  end
         | EmptyString => None
         end) s
  | Cat r1 r2 => rmatch r1 s gs (fun s' gs' => rmatch r2 s' gs' k)
  | Opt r1 =>
      match rmatch r1 s gs k with
      | Some x => Some x
      | None => k s gs
      end
  | Group name r1 =>
      rmatch r1 s gs (fun s' gs' => k s' (set_group name (consumed s s') gs'))
  end.

(** A match anchored at the start of [s]: the groups and the rest of [s]. *)
Definition match_here (r : regex) (s : string) : option (groups * string) :=
  rmatch r s [] (fun rest gs => Some (gs, rest)).

(** The input cut into its non-overlapping matches, leftmost first, and the
    characters between them.  A match that took no character is followed by
    a step of one character. *)
Inductive piece : Type :=
| Skipped (c : ascii)
| Matched (gs : groups).

Fixpoint pieces (fuel : nat) (r : regex) (s : string) : list piece :=
  match fuel with
  | 0 => []
  | S fuel' =>
      match match_here r s, s with
      | Some (gs, rest), String c s' =>
          if decide (String.length rest = String.length s)
          then Matched gs :: Skipped c :: pieces fuel' r s'
          else Matched gs :: pieces fuel' r rest
      | Some (gs, rest), EmptyString => [Matched gs]
      | None, String c s' => Skipped c :: pieces fuel' r s'
      | None, EmptyString => []
      end
  end.

(** [list(r.finditer(s))], each match by its groups. *)
Definition finditer (r : regex) (s : string) : list groups :=
  omap (fun p => match p with Matched gs => Some gs | Skipped _ => None end)
       (pieces (S (String.length s)) r s).

(** [r.sub(repl, s)] with a function [repl]. *)
Definition sub (r : regex) (repl : groups -> string) (s : string) : string :=
  foldr (fun p out =>
           match p with
           | Matched gs => repl gs +:+ out
           | Skipped c => String c out
           end) "" (pieces (S (String.length s)) r s).

(** [match.group(name)]: [None] for a group that took no part. *)
Definition group (m : groups) (name : string) : option string :=
  dict_get name m.

(** ** The path translator *)

(** [re.compile('<((?P<type>.+?):)?(?P<name>.+?)>')] *)
Definition _PATH_REGEX : regex :=
  Cat (Lit "<")
      (Cat (Opt (Group None (Cat (Group (Some "type") DotPlusLazy) (Lit ":"))))
           (Cat (Group (Some "name") DotPlusLazy) (Lit ">"))).

Record _PathArgument : Type := PathArgument {
  name : option string;
  type : string
}.

(** [x or 'string'] for an optional string [x] *)
Definition or_string (x : option string) : string :=
  match x with
  | Some "" | None => "string"
  | Some t => t
  end.

(** ['{{{}}}'.format(x)] *)
Definition format_braces (x : option string) : string :=
  "{" +:+ default "None" x +:+ "}".

Definition _format_path_for_swagger (path : string)
  : string * list _PathArgument :=
  let matches := finditer _PATH_REGEX path in
  let args :=
    map (fun m => {| name := group m "name";
                     type := or_string (group m "type") |}) matches in
  let subbed_path :=
    sub _PATH_REGEX (fun m => format_braces (group m "name")) path in
  (subbed_path, args).

(** ** Schemas, authenticators and routes

    Modelled from the spec: the classes of [framer] (route definitions, the
    [USE_DEFAULT] sentinel, [HeaderApiKeyAuthenticator]), the marshmallow
    schemas and [get_swagger_title] are imported by the generator but are not
    part of the sources at hand.  They are kept to what the generator reads
    of them (spec section 3): an object has an identity, a class and a
    title; a route has its schemas, its handler and its authenticator. *)

(** A schema instance.  Python's [set] tells instances apart by identity. *)
Record Schema : Type := {
  schema_id : nat;
  schema_class : string;       (* [schema.__class__.__name__] *)
  schema_title : string        (* [get_swagger_title(schema)] *)
}.

Record Authenticator : Type := {
  authenticator_id : nat;
  authenticator_class : string; (* [authenticator.__class__] *)
  authenticator_name : string;  (* [authenticator.name] *)
  authenticator_header : string (* [authenticator.header] *)
}.

(** The three states of a route's [authenticator]. *)
Inductive authenticate : Type :=
| USE_DEFAULT
| NoAuthenticator                     (* [None] *)
| Own (a : Authenticator).

Record Handler : Type := {
  handler_title : string;             (* [get_swagger_title(d.func)] *)
  handler_doc : option string         (* [d.func.__doc__] *)
}.

Record PathDefinition : Type := {
  func : Handler;
  marshal_schemas : list (Z * Schema);
  query_string_schema : option Schema;
  request_body_schema : option Schema;
  headers_schema : option Schema;
  authenticator : authenticate
}.

(** [framer.paths]: path, then method, then definition. *)
Abbreviation route_table := (list (string * list (string * PathDefinition))).

Record Framer : Type := {
  paths : route_table;
  default_authenticator : option Authenticator
}.

Definition get_swagger_title (schema : Schema) : string :=
  schema_title schema.

(** The two registries [_get_definitions] converts with. *)
Inductive converter_kind : Type :=
| ResponseConverter
| RequestBodyConverter.

(** ** Small pieces of Python *)

Fixpoint mapM {A B : Type} (f : A -> result B) (l : list A)
  : result (list B) :=
  match l with
  | [] => Ok []
  | a :: l' => b <- f a ;; bs <- mapM f l' ;; Ok (b :: bs)
  end.

(** [str.lower] on ASCII letters. *)
Definition lower_char (c : ascii) : ascii :=
  let n := nat_of_ascii c in
  if (65 <=? n)%nat && (n <=? 90)%nat then ascii_of_nat (n + 32) else c.

Fixpoint lower (s : string) : string :=
  match s with
  | EmptyString => EmptyString
  | String c s' => String (lower_char c) (lower s')
  end.

(** [str(n)] for an integer. *)
Definition str_of_int (n : Z) : string := pretty.pretty n.

(** A Python value that is a string or [None]. *)
Definition py_opt_str (x : option string) : json :=
  match x with
  | Some s => JStr s
  | None => JNull
  end.

(** [name in required] *)
Definition py_in (name : string) (required : json) : result bool :=
  match required with
  | JList xs => Ok (existsb (fun x => py_eq_str x name) xs)
  | JDict kvs => Ok (bool_decide (name ∈ dict_keys kvs))
  | JStr s => Ok (bool_decide (is_Some (String.index 0 name s)))
  | _ => Raise TypeError
  end.

Section Generator.

(** The budget of nested calls that the recursive functions get; it stands
    for the interpreter's recursion limit, without counting its frames. *)
Variable recursion_limit : nat.

(** The order in which the interpreter walks a set of authenticators,
    given in the order they were added. *)
Variable set_order : list Authenticator -> list Authenticator.

Definition _convert_jsonschema_to_list_of_parameters
  (obj : json) (in_ : string) : result (list json) :=
  ty <- getitem obj "type" ;;
  if negb (py_eq_str ty "object") then Raise AssertionError
  else
    let required :=
      match obj with
      | JDict kvs => default (JList []) (dict_get "required" kvs)
      | _ => JList []
      end in
    props <- getitem obj "properties" ;;
    its <- dict_items props ;;
    mapM (fun kv =>
            let '(name, prop) := kv in
            parameter <- deepcopy recursion_limit prop ;;
            is_required <- py_in name required ;;
            parameter <- setitem parameter "required" (JBool is_required) ;;
            parameter <- setitem parameter "in" (JStr in_) ;;
            setitem parameter "name" (JStr name)) its.

Definition _convert_header_api_key_authenticator (a : Authenticator)
  : string * json :=
  let key := authenticator_name a in
  let definition :=
    JDict [(sw.name, JStr (authenticator_header a));
           (sw.in_, JStr sw.header);
           (sw.type_, JStr sw.api_key)] in
  (key, definition).

Record SwaggerV2Generator : Type := {
  host : string;
  schemes : list string;
  consumes : list string;
  produces : list string;
  _query_string_converter : Schema -> result json;
  _request_body_converter : Schema -> result json;
  _headers_converter : Schema -> result json;
  _response_converter : Schema -> result json;
  flask_converters_to_swagger_types : gmap string string;
  authenticator_converters : gmap string (Authenticator -> string * json);
  default_response_schema : Schema
}.

(** [SwaggerV2Generator.__init__], the registries given by their [convert]. *)
Definition __init__ (host : string) (schemes consumes produces : list string)
  (query_string_converter request_body_converter headers_converter
     response_converter : Schema -> result json)
  (default_response_schema : Schema) : SwaggerV2Generator :=
  {| host := host;
     schemes := schemes;
     consumes := consumes;
     produces := produces;
     _query_string_converter := query_string_converter;
     _request_body_converter := request_body_converter;
     _headers_converter := headers_converter;
     _response_converter := response_converter;
     flask_converters_to_swagger_types :=
       <["float" := sw.number]>
         (<["int" := sw.integer]>
            (<["string" := sw.string]>
               (<["uuid" := sw.string]> ∅)));
     authenticator_converters :=
       <["HeaderApiKeyAuthenticator" :=
           _convert_header_api_key_authenticator]> ∅;
     default_response_schema := default_response_schema |}.

Definition register_flask_converter_to_swagger_type
  (self : SwaggerV2Generator) (flask_converter swagger_type : string)
  : SwaggerV2Generator :=
  {| host := host self;
     schemes := schemes self;
     consumes := consumes self;
     produces := produces self;
     _query_string_converter := _query_string_converter self;
     _request_body_converter := _request_body_converter self;
     _headers_converter := _headers_converter self;
     _response_converter := _response_converter self;
     flask_converters_to_swagger_types :=
       <[flask_converter := swagger_type]>
         (flask_converters_to_swagger_types self);
     authenticator_converters := authenticator_converters self;
     default_response_schema := default_response_schema self |}.

Definition register_authenticator_converter
  (self : SwaggerV2Generator) (authenticator_class : string)
  (converter : Authenticator -> string * json) : SwaggerV2Generator :=
  {| host := host self;
     schemes := schemes self;
     consumes := consumes self;
     produces := produces self;
     _query_string_converter := _query_string_converter self;
     _request_body_converter := _request_body_converter self;
     _headers_converter := _headers_converter self;
     _response_converter := _response_converter self;
     flask_converters_to_swagger_types :=
       flask_converters_to_swagger_types self;
     authenticator_converters :=
       <[authenticator_class := converter]> (authenticator_converters self);
     default_response_schema := default_response_schema self |}.

Variable self : SwaggerV2Generator.

(** [{sw.ref: _get_ref(get_swagger_title(schema))}] *)
Definition ref_to_schema (schema : Schema) : result json :=
  ref_to (JStr (get_swagger_title schema)).

Definition _get_security (a : Authenticator) : result json :=
  let klass := authenticator_class a in
  match authenticator_converters self !! klass with
  | None => Raise (KeyError klass)
  | Some converter =>
      let '(name, _) := converter a in
      Ok (JDict [(name, JList [])])
  end.

Definition _iterate_path_definitions (paths : route_table)
  : list PathDefinition :=
  concat (map (fun methods => map snd methods.2) paths).

(** The walk over a set built from [xs]: one element per identity. *)
Fixpoint distinct (seen : gset nat) (xs : list Authenticator)
  : list Authenticator :=
  match xs with
  | [] => []
  | a :: xs' =>
      if decide (authenticator_id a ∈ seen) then distinct seen xs'
      else a :: distinct ({[authenticator_id a]} ∪ seen) xs'
  end.

Definition _get_security_definitions (paths : route_table)
  (default_authenticator : option Authenticator) : result dict :=
  let authenticators :=
    omap (fun d => match authenticator d with
                   | Own a => Some a
                   | _ => None
                   end) (_iterate_path_definitions paths) in
  let authenticators :=
    match default_authenticator with
    | Some a => authenticators ++ [a]
    | None => authenticators
    end in
  (fix each (todo : list Authenticator) (security_definitions : dict)
     : result dict :=
     match todo with
     | [] => Ok security_definitions
     | a :: todo' =>
         let klass := authenticator_class a in
         match authenticator_converters self !! klass with
         | None => Raise (KeyError klass)
         | Some converter =>
             let '(key, definition) := converter a in
             each todo' (dict_set key definition security_definitions)
         end
     end) (set_order (distinct ∅ authenticators)) [].

(** The list comprehension over [path_args] in [_get_paths]. *)
Definition path_parameters (path_args : list _PathArgument)
  : result (list json) :=
  mapM (fun path_arg =>
          match flask_converters_to_swagger_types self !! type path_arg with
          | None => Raise (KeyError (type path_arg))
          | Some swagger_type =>
              Ok (JDict [(sw.name, py_opt_str (name path_arg));
                         (sw.required, JBool true);
                         (sw.in_, JStr sw.path);
                         (sw.type_, JStr swagger_type)])
          end) path_args.

(** [responses_definition] of one route. *)
Definition responses_definition (d : PathDefinition) : result dict :=
  r <- ref_to_schema (default_response_schema self) ;;
  let responses_definition := [(sw.default, JDict [(sw.schema, r)])] in
  (fix each (its : list (Z * Schema)) (responses_definition : dict)
     : result dict :=
     match its with
     | [] => Ok responses_definition
     | (status_code, schema) :: its' =>
         r <- ref_to_schema schema ;;
         let response_definition := JDict [(sw.schema, r)] in
         each its' (dict_set (str_of_int status_code) response_definition
                             responses_definition)
     end) (marshal_schemas d) responses_definition.

(** [parameters_definition] of one route. *)
Definition parameters_definition (d : PathDefinition) : result (list json) :=
  let parameters_definition := [] in
  parameters_definition <-
    match query_string_schema d with
    | Some schema =>
        obj <- _query_string_converter self schema ;;
        ps <- _convert_jsonschema_to_list_of_parameters obj sw.query ;;
        Ok (parameters_definition ++ ps)
    | None => Ok parameters_definition
    end ;;
  parameters_definition <-
    match request_body_schema d with
    | Some schema =>
        r <- ref_to_schema schema ;;
        Ok (parameters_definition ++
              [JDict [(sw.name, JStr (schema_class schema));
                      (sw.in_, JStr sw.body);
                      (sw.required, JBool true);
                      (sw.schema, r)]])
    | None => Ok parameters_definition
    end ;;
  match headers_schema d with
  | Some schema =>
      obj <- _headers_converter self schema ;;
      ps <- _convert_jsonschema_to_list_of_parameters obj sw.header ;;
      Ok (parameters_definition ++ ps)
  | None => Ok parameters_definition
  end.

(** [path_definition[method_lower]] of one route, as it stands at the end
    of the loop body. *)
Definition operation (d : PathDefinition) : result dict :=
  responses_definition <- responses_definition d ;;
  parameters_definition <- parameters_definition d ;;
  let op := [(sw.operation_id, JStr (handler_title (func d)));
             (sw.responses, JDict responses_definition)] in
  let op :=
    match handler_doc (func d) with
    | Some "" | None => op
    | Some doc => dict_set sw.description (JStr doc) op
    end in
  let op :=
    match parameters_definition with
    | [] => op
    | _ => dict_set sw.parameters (JList parameters_definition) op
    end in
  match authenticator d with
  | NoAuthenticator => Ok (dict_set sw.security (JDict []) op)
  | Own a =>
      security <- _get_security a ;;
      Ok (dict_set sw.security security op)
  | USE_DEFAULT => Ok op
  end.

(** [path_definition] of one path: the path parameters, then one operation
    per method under the lowered method name. *)
Definition path_definition (path_args : list _PathArgument)
  (methods : list (string * PathDefinition)) : result dict :=
  path_definition <-
    match path_args with
    | [] => Ok []
    | _ =>
        ps <- path_parameters path_args ;;
        Ok [(sw.parameters, JList ps)]
    end ;;
  (fix each (methods : list (string * PathDefinition))
     (path_definition : dict) : result dict :=
     match methods with
     | [] => Ok path_definition
     | (method, d) :: methods' =>
         op <- operation d ;;
         each methods' (dict_set (lower method) (JDict op) path_definition)
     end) methods path_definition.

(** [path_definitions[swagger_path] = path_definition] comes first in the
    source and the dict is filled afterwards, through the same object; on
    values the entry is made once the dict is complete, at the place the
    early assignment gives it. *)
Fixpoint _get_paths_from (paths : route_table) (path_definitions : dict)
  : result dict :=
  match paths with
  | [] => Ok path_definitions
  | (path, methods) :: paths' =>
      let '(swagger_path, path_args) := _format_path_for_swagger path in
      pd <- path_definition path_args methods ;;
      _get_paths_from paths'
        (dict_set swagger_path (JDict pd) path_definitions)
  end.

Definition _get_paths (paths : route_table) : result dict :=
  _get_paths_from paths [].

(** The first loop of [_get_definitions].  [calls] is not in the source:
    it records each invocation of a converter, in order, next to the
    [converted] list the invocation appends to. *)
Record pass : Type := {
  all_schemas : gset nat;
  converted : list json;
  calls : list (converter_kind * Schema)
}.

Definition convert (kind : converter_kind) (schema : Schema) : result json :=
  match kind with
  | ResponseConverter => _response_converter self schema
  | RequestBodyConverter => _request_body_converter self schema
  end.

(** [if schema not in all_schemas: converted.append(converter(schema))],
    then [all_schemas.add(schema)]. *)
Definition convert_once (kind : converter_kind) (schema : Schema)
  (st : pass) : result pass :=
  if decide (schema_id schema ∈ all_schemas st) then Ok st
  else
    obj <- convert kind schema ;;
    Ok {| all_schemas := {[schema_id schema]} ∪ all_schemas st;
          converted := converted st ++ [obj];
          calls := calls st ++ [(kind, schema)] |}.

(** The schemas of one route in the order the loop body meets them. *)
Definition schemas_of (d : PathDefinition)
  : list (converter_kind * Schema) :=
  map (fun kv => (ResponseConverter, kv.2)) (marshal_schemas d) ++
  match request_body_schema d with
  | Some schema => [(RequestBodyConverter, schema)]
  | None => []
  end.

Fixpoint convert_all (todo : list (converter_kind * Schema)) (st : pass)
  : result pass :=
  match todo with
  | [] => Ok st
  | (kind, schema) :: todo' =>
      st <- convert_once kind schema st ;;
      convert_all todo' st
  end.

Definition _get_definitions_pass (paths : route_table) : result pass :=
  obj <- _response_converter self (default_response_schema self) ;;
  let st :=
    {| all_schemas := {[schema_id (default_response_schema self)]};
       converted := [obj];
       calls := [(ResponseConverter, default_response_schema self)] |} in
  convert_all
    (concat (map schemas_of (_iterate_path_definitions paths))) st.

(** The second loop: [flattened.update(flattened_definitions)]. *)
Fixpoint flatten_all (converted : list json) (flattened : dict)
  : result dict :=
  match converted with
  | [] => Ok flattened
  | obj :: converted' =>
      r <- _flatten recursion_limit obj ;;
      flatten_all converted' (dict_update flattened r.2)
  end.

Definition _get_definitions (paths : route_table) : result dict :=
  st <- _get_definitions_pass paths ;;
  flatten_all (converted st) [].

Definition generate (framer : Framer) : result dict :=
  let default_authenticator := default_authenticator framer in
  security_definitions <-
    _get_security_definitions (paths framer) default_authenticator ;;
  definitions <- _get_definitions (paths framer) ;;
  paths <- _get_paths (paths framer) ;;
  let swagger :=
    [(sw.swagger, JStr "2.0");
     (sw.info, JDict []);
     (sw.host, JStr (host self));
     (sw.schemes, JList (map JStr (schemes self)));
     (sw.consumes, JList (map JStr (consumes self)));
     (sw.produces, JList (map JStr (produces self)));
     (sw.security_definitions, JDict security_definitions);
     (sw.paths, JDict paths);
     (sw.definitions, JDict definitions)] in
  match default_authenticator with
  | Some a =>
      security <- _get_security a ;;
      Ok (dict_set sw.security security swagger)
  | None => Ok swagger
  end.

End Generator.

(** ** The scenario of [TestSwaggerV2Generator]

    Three routes, as [create_app] registers them.  Each [FooSchema()] is an
    instance of its own.  The converters are those of the global registries,
    which are not part of the sources at hand; [test_convert] gives for each
    schema class the fragment that the expected document of the test shows. *)
Definition test_authenticator : Authenticator :=
  {| authenticator_id := 0;
     authenticator_class := "HeaderApiKeyAuthenticator";
     authenticator_name := "sharedSecret";
     authenticator_header := "x-auth" |}.

Definition test_schema (id : nat) (class title : string) : Schema :=
  {| schema_id := id; schema_class := class; schema_title := title |}.

Definition test_string : json := JDict [("type", JStr "string")].

Definition test_object (title : string) (properties : dict) : json :=
  JDict [("type", JStr "object"); ("title", JStr title);
         ("properties", JDict properties)].

Definition test_convert (schema : Schema) : result json :=
  let class := schema_class schema in
  if decide (class = "FooSchema") then
    Ok (test_object "Foo" [("uid", test_string); ("name", test_string)])
  else if decide (class = "FooUpdateSchema") then
    Ok (test_object "FooUpdateSchema" [("name", test_string)])
  else if decide (class = "ListOfFoo") then
    Ok (test_object "ListOfFoo"
          [("data", JDict [("type", JStr "array");
                           ("items", test_object "Foo"
                                       [("uid", test_string);
                                        ("name", test_string)])])])
  else if decide (class = "FooListSchema") then
    Ok (test_object "FooListSchema" [("name", test_string)])
  else if decide (class = "HeaderSchema") then
    Ok (JDict [("type", JStr "object"); ("title", JStr "HeaderSchema");
               ("properties", JDict [("x-userid", test_string)]);
               ("required", JList [JStr "x-userid"])])
  else if decide (class = "Error") then
    Ok (test_object "Error" [("message", test_string)])
  else Raise (ExternalError "no converter").

Definition test_generator : SwaggerV2Generator :=
  __init__ "http://SWAG.planfront.net" ["http"] ["application/json"]
    ["application/vnd.plangrid+json"]
    test_convert test_convert test_convert test_convert
    (test_schema 7 "Error" "Error").

Definition test_get_foo : PathDefinition :=
  {| func := {| handler_title := "get_foo";
                handler_doc := Some "helpful description" |};
     marshal_schemas := [(200%Z, test_schema 2 "FooSchema" "Foo")];
     query_string_schema := None;
     request_body_schema := None;
     headers_schema := Some (test_schema 1 "HeaderSchema" "HeaderSchema");
     authenticator := USE_DEFAULT |}.

Definition test_update_foo : PathDefinition :=
  {| func := {| handler_title := "update_foo"; handler_doc := None |};
     marshal_schemas := [(200%Z, test_schema 3 "FooSchema" "Foo")];
     query_string_schema := None;
     request_body_schema :=
       Some (test_schema 4 "FooUpdateSchema" "FooUpdateSchema");
     headers_schema := None;
     authenticator := Own test_authenticator |}.

Definition test_list_foos : PathDefinition :=
  {| func := {| handler_title := "list_foos"; handler_doc := None |};
     marshal_schemas := [(200%Z, test_schema 5 "ListOfFoo" "ListOfFoo")];
     query_string_schema :=
       Some (test_schema 6 "FooListSchema" "FooListSchema");
     request_body_schema := None;
     headers_schema := None;
     authenticator := USE_DEFAULT |}.

Definition test_framer : Framer :=
  {| paths := [("/foos/<foo_uid>", [("GET", test_get_foo);
                                    ("PATCH", test_update_foo)]);
               ("/foos", [("GET", test_list_foos)])];
     default_authenticator := None |}.

Definition expected_swagger : dict :=
  [("swagger", JStr "2.0");
   ("info", JDict []);
   ("host", JStr "http://SWAG.planfront.net");
   ("schemes", JList [JStr "http"]);
   ("consumes", JList [JStr "application/json"]);
   ("produces", JList [JStr "application/vnd.plangrid+json"]);
   ("securityDefinitions",
    JDict [("sharedSecret",
            JDict [("name", JStr "x-auth"); ("in", JStr "header");
                   ("type", JStr "apiKey")])]);
   ("paths",
    JDict [
      ("/foos/{foo_uid}",
       JDict [
         ("parameters",
          JList [JDict [("name", JStr "foo_uid"); ("required", JBool true);
                        ("in", JStr "path"); ("type", JStr "string")]]);
         ("get",
          JDict [
            ("operationId", JStr "get_foo");
            ("responses",
             JDict [
               ("default",
                JDict [("schema",
                        JDict [("$ref", JStr "#/definitions/Error")])]);
               ("200",
                JDict [("schema",
                        JDict [("$ref", JStr "#/definitions/Foo")])])]);
            ("description", JStr "helpful description");
            ("parameters",
             JList [JDict [("type", JStr "string"); ("required", JBool true);
                           ("in", JStr "header");
                           ("name", JStr "x-userid")]])]);
         ("patch",
          JDict [
            ("operationId", JStr "update_foo");
            ("responses",
             JDict [
               ("default",
                JDict [("schema",
                        JDict [("$ref", JStr "#/definitions/Error")])]);
               ("200",
                JDict [("schema",
                        JDict [("$ref", JStr "#/definitions/Foo")])])]);
            ("parameters",
             JList [JDict [("name", JStr "FooUpdateSchema");
                           ("in", JStr "body"); ("required", JBool true);
                           ("schema",
                            JDict [("$ref",
                                    JStr "#/definitions/FooUpdateSchema")])]]);
            ("security", JDict [("sharedSecret", JList [])])])]);
      ("/foos",
       JDict [
         ("get",
          JDict [
            ("operationId", JStr "list_foos");
            ("responses",
             JDict [
               ("default",
                JDict [("schema",
                        JDict [("$ref", JStr "#/definitions/Error")])]);
               ("200",
                JDict [("schema",
                        JDict [("$ref",
                                JStr "#/definitions/ListOfFoo")])])]);
            ("parameters",
             JList [JDict [("type", JStr "string"); ("required", JBool false);
                           ("in", JStr "query");
                           ("name", JStr "name")]])])])]);
   ("definitions",
    JDict [
      ("Error", test_object "Error" [("message", test_string)]);
      ("Foo", test_object "Foo" [("uid", test_string);
                                 ("name", test_string)]);
      ("FooUpdateSchema",
       test_object "FooUpdateSchema" [("name", test_string)]);
      ("ListOfFoo",
       test_object "ListOfFoo"
         [("data", JDict [("type", JStr "array");
                          ("items",
                           JDict [("$ref", JStr "#/definitions/Foo")])])])])].

(** ** Notions used in the statements *)

(** A fragment with a type tag that is neither [object] nor [array]. *)
Definition is_primitive (x : json) : bool :=
  match getitem x sw.type_ with
  | Ok ty => negb (py_eq_str ty sw.object_) && negb (py_eq_str ty sw.array)
  | Raise _ => false
  end.

(** The loop of [_flatten_object], given the two recursive calls. *)
Definition fields_loop
  (flatten_object : json -> dict -> result (json * json * dict))
  (flatten_array : json -> dict -> result (json * dict))
  : dict -> dict -> dict -> result (dict * dict) :=
  fix loop (its : dict) (props : dict) (definitions : dict)
    : result (dict * dict) :=
    match its with
    | [] => Ok (props, definitions)
    | (field, obj) :: rest =>
        ty <- getitem obj sw.type_ ;;
        if py_eq_str ty sw.object_ then
          r <- flatten_object obj definitions ;;
          let '(obj_key, _, definitions) := r in
          r <- ref_to obj_key ;;
          loop rest (dict_set field r props) definitions
        else if py_eq_str ty sw.array then
          r <- flatten_array obj definitions ;;
          let '(obj', definitions) := r in
          loop rest (dict_set field obj' props) definitions
        else loop rest props definitions
    end.

(** The entries of a table under one key. *)
Definition entries_under {V : Type} (k : string) (d : list (string * V))
  : list (string * V) :=
  filter (fun kv => kv.1 = k) d.

(** Two runs that end alike: the same error, or the same value next to
    tables that may differ. *)
Definition agree {A : Type} (r1 r2 : result (A * dict)) : Prop :=
  match r1, r2 with
  | Ok (a1, _), Ok (a2, _) => a1 = a2
  | Raise e1, Raise e2 => e1 = e2
  | _, _ => False
  end.

(** The store at and above a mark [n] refers only to the store at and above
    [n]: what was allocated since [n] does not lead back below it. *)
Definition young_val (n : nat) (v : Store.val) : Prop :=
  match v with
  | Store.VRef l => n <= l
  | _ => True
  end.

Definition young_obj (n : nat) (o : Store.obj) : Prop :=
  match o with
  | Store.ODict kvs => Forall (fun kv => young_val n kv.2) kvs
  | Store.OList xs => Forall (young_val n) xs
  end.

Definition young (n : nat) (h : list Store.obj) : Prop :=
  forall l o, n <= l -> h !! l = Some o -> young_obj n o.

(** [h'] has every object of [h] below the mark [n] as it is in [h]. *)
Definition keeps (n : nat) (h h' : list Store.obj) : Prop :=
  length h <= length h' /\ forall l, l < n -> h' !! l = h !! l.

(** A computation that writes only at and above the mark, and whose result
    satisfies [post] when it returns. *)
Definition local {A : Type} (n : nat) (m : Store.M A) (post : A -> Prop)
  : Prop :=
  forall h, n <= length h -> young n h ->
    keeps n h (m h).2 /\ young n (m h).2 /\
    forall a, (m h).1 = Ok a -> post a.

(** The copies entered in [memo] are above the mark. *)
Definition young_memo (n : nat) (memo : gmap nat nat) : Prop :=
  forall l l', memo !! l = Some l' -> n <= l'.

(** A store without dangling references, and a value that lives in it. *)
Definition val_in (h : list Store.obj) (v : Store.val) : Prop :=
  match v with
  | Store.VRef l => l < length h
  | _ => True
  end.

Definition closed (h : list Store.obj) : Prop :=
  forall l o, h !! l = Some o ->
    match o with
    | Store.ODict kvs => Forall (fun kv => val_in h kv.2) kvs
    | Store.OList xs => Forall (val_in h) xs
    end.

(** The characters of a string, and its suffixes, itself first. *)
Fixpoint chars (s : string) : list ascii :=
  match s with
  | EmptyString => []
  | String c s' => c :: chars s'
  end.

Fixpoint suffixes (s : string) : list string :=
  s :: match s with
       | EmptyString => []
       | String _ s' => suffixes s'
       end.

(** The suffixes of [s] that start on the first line of [s]. *)
Fixpoint run_suffixes (s : string) : list string :=
  s :: match s with
       | EmptyString => []
       | String c s' =>
           if decide (c = "010"%char) then [] else run_suffixes s'
       end.

(** A regular expression without a newline among its literals. *)
Fixpoint newline_free (r : regex) : Prop :=
  match r with
  | Lit c => c <> "010"%char
  | DotPlusLazy => True
  | Cat r1 r2 => newline_free r1 /\ newline_free r2
  | Opt r1 => newline_free r1
  | Group _ r1 => newline_free r1
  end.

(** Placeholders as the spec writes them, [<type:name>] or [<name>]: a [<],
    one character at least, and a [>], all on one line. *)
Fixpoint closes (s : string) : bool :=
  match s with
  | EmptyString => false
  | String c s' =>
      if decide (c = "010"%char) then false
      else if decide (c = ">"%char) then true
      else closes s'
  end.

Definition placeholder_here (s : string) : bool :=
  match s with
  | String c0 (String c s') =>
      if decide (c0 = "<"%char) then
        if decide (c = "010"%char) then false else closes s'
      else false
  | _ => false
  end.

Fixpoint has_placeholder (s : string) : bool :=
  placeholder_here s ||
  match s with
  | EmptyString => false
  | String _ s' => has_placeholder s'
  end.

(** What the operation object of a route says about security, by the state
    of the route's [authenticator]. *)
Definition security_of (self : SwaggerV2Generator) (d : PathDefinition)
  (op : dict) : Prop :=
  match authenticator d with
  | USE_DEFAULT => dict_get sw.security op = None
  | NoAuthenticator => dict_get sw.security op = Some (JDict [])
  | Own a =>
      exists converter,
        authenticator_converters self !! authenticator_class a =
          Some converter /\
        dict_get sw.security op = Some (JDict [((converter a).1, JList [])])
  end.

(** The loop over the methods in [path_definition], given the body. *)
Definition methods_loop (operation : PathDefinition -> result dict)
  : list (string * PathDefinition) -> dict -> result dict :=
  fix each (methods : list (string * PathDefinition))
    (path_definition : dict) : result dict :=
    match methods with
    | [] => Ok path_definition
    | (method, d) :: methods' =>
        op <- operation d ;;
        each methods' (dict_set (lower method) (JDict op) path_definition)
    end.

(** The parameter that [_get_paths] emits for a path argument whose type
    tag maps to [swagger_type]. *)
Definition path_parameter (path_arg : _PathArgument) (swagger_type : string)
  : json :=
  JDict [(sw.name, py_opt_str (name path_arg));
         (sw.required, JBool true);
         (sw.in_, JStr sw.path);
         (sw.type_, JStr swagger_type)].

(** The schemas [_get_definitions] meets, in order, each with the converter
    of the role it is met in: the default response schema first. *)
Definition scheduled (self : SwaggerV2Generator) (paths : route_table)
  : list (converter_kind * Schema) :=
  (ResponseConverter, default_response_schema self) ::
  concat (map schemas_of (_iterate_path_definitions paths)).

(** The invocations of a converter on the instance [schema]. *)
Definition calls_on (schema : Schema) (calls : list (converter_kind * Schema))
  : list (converter_kind * Schema) :=
  filter (fun c => schema_id c.2 = schema_id schema) calls.

(** What the first loop of [_get_definitions] keeps true of its state: no
    instance was converted twice, the set holds the converted instances, and
    [converted] has the fragment of each call. *)
Definition pass_ok (self : SwaggerV2Generator) (st : pass) : Prop :=
  NoDup (map (fun c => schema_id c.2) (calls st)) /\
  (forall id, id ∈ all_schemas st <->
              id ∈ map (fun c => schema_id c.2) (calls st)) /\
  Forall2 (fun c obj => convert self c.1 c.2 = Ok obj)
          (calls st) (converted st).

(** A route table with schema instances on two routes each: the response
    schemas of [test_get_foo] and [test_update_foo], and the request body
    schema of the latter. *)
Definition test_shared_routes : route_table :=
  [("/foos/<foo_uid>", [("GET", test_get_foo); ("PATCH", test_update_foo)]);
   ("/bars/<bar_uid>", [("GET", test_get_foo); ("PUT", test_update_foo)])].

(** A route with [authenticator=None], and the routes of the test with it
    next to them: one route for each state of [authenticator]. *)
Definition test_delete_foo : PathDefinition :=
  {| func := {| handler_title := "delete_foo"; handler_doc := None |};
     marshal_schemas := [];
     query_string_schema := None;
     request_body_schema := None;
     headers_schema := None;
     authenticator := NoAuthenticator |}.

Definition test_security_paths : route_table :=
  [("/foos/<foo_uid>", [("GET", test_get_foo);
                        ("PATCH", test_update_foo);
                        ("DELETE", test_delete_foo)]);
   ("/foos", [("GET", test_list_foos)])].

(** Every dict of a value has its keys once, as a Python dict has. *)
Fixpoint unique_keys (x : json) : bool :=
  match x with
  | JList xs => forallb unique_keys xs
  | JDict kvs =>
      bool_decide (NoDup (dict_keys kvs)) &&
      forallb (fun kv => unique_keys kv.2) kvs
  | _ => true
  end.

(** [{sw.ref: _get_ref(k)}] for a string [k]. *)
Definition ref_json (k : string) : json :=
  JDict [(sw.ref, JStr ("#/definitions/" +:+ k))].

(** What the flattener leaves in place of a field or of the items of an
    array: a reference into the table, a primitive fragment, or an array of
    such. *)
Inductive inline (keys : list string) : json -> Prop :=
| inline_ref (k : string) :
    k ∈ keys -> inline keys (ref_json k)
| inline_primitive (x : json) :
    is_primitive x = true -> inline keys x
| inline_array (x its : json) :
    getitem x sw.type_ = Ok (JStr sw.array) ->
    getitem x sw.items = Ok its ->
    inline keys its ->
    inline keys x.

(** An entry of the table: an object whose fields are all [inline]. *)
Definition flat_object (keys : list string) (x : json) : Prop :=
  getitem x sw.type_ = Ok (JStr sw.object_) /\
  exists props, getitem x sw.properties = Ok (JDict props) /\
                Forall (fun kv => inline keys kv.2) props.

(** Every entry of a table is stored under the title it carries. *)
Definition filed_by_title (definitions : dict) : Prop :=
  Forall (fun kv => getitem kv.2 sw.title = Ok (JStr kv.1)) definitions.

(** The fragments the flattener walks without raising: a primitive fragment;
    an object with a string title whose [properties] is a dict of such
    fragments; an array whose [items] is such a fragment. *)
#[local] Unset Elimination Schemes.
Inductive well_formed : json -> Prop :=
| wf_primitive (x : json) :
    is_primitive x = true -> well_formed x
| wf_object (x : json) (props : dict) (t : string) :
    getitem x sw.type_ = Ok (JStr sw.object_) ->
    getitem x sw.properties = Ok (JDict props) ->
    getitem x sw.title = Ok (JStr t) ->
    Forall (fun kv => well_formed kv.2) props ->
    well_formed x
| wf_array (x its : json) :
    getitem x sw.type_ = Ok (JStr sw.array) ->
    getitem x sw.items = Ok its ->
    well_formed its ->
    well_formed x.
#[local] Set Elimination Schemes.

(** The parameter made of a property [kv]: the property's own keys, with
    [name], [in] and [required] set on top of them. *)
Definition parameter_of (in_ : string) (required : list json)
  (kv : string * json) (p : json) : Prop :=
  exists (prop d : dict) (b : bool),
    kv.2 = JDict prop /\ p = JDict d /\
    dict_get "name" d = Some (JStr kv.1) /\
    dict_get "in" d = Some (JStr in_) /\
    dict_get "required" d = Some (JBool b) /\
    (b = true <-> JStr kv.1 ∈ required) /\
    forall k, k <> "name" -> k <> "in" -> k <> "required" ->
              dict_get k d = dict_get k prop.

(** The authenticators that [_get_security_definitions] puts in its set, in
    the order it meets them: those of the routes, then the default one. *)
Definition authenticators_in_use (paths : route_table)
  (default_authenticator : option Authenticator) : list Authenticator :=
  let authenticators :=
    omap (fun d => match authenticator d with
                   | Own a => Some a
                   | _ => None
                   end) (_iterate_path_definitions paths) in
  match default_authenticator with
  | Some a => authenticators ++ [a]
  | None => authenticators
  end.

(** The loop of [_get_security_definitions]. *)
Definition security_loop (self : SwaggerV2Generator)
  : list Authenticator -> dict -> result dict :=
  fix each (todo : list Authenticator) (security_definitions : dict)
    : result dict :=
    match todo with
    | [] => Ok security_definitions
    | a :: todo' =>
        let klass := authenticator_class a in
        match authenticator_converters self !! klass with
        | None => Raise (KeyError klass)
        | Some converter =>
            let '(key, definition) := converter a in
            each todo' (dict_set key definition security_definitions)
        end
    end.

(** The name and the definition that the converter registered for the class
    of an authenticator gives for it. *)
Definition security_definition_of (self : SwaggerV2Generator)
  (a : Authenticator) (k : string) (definition : json) : Prop :=
  exists converter,
    authenticator_converters self !! authenticator_class a = Some converter /\
    converter a = (k, definition).

(** Authenticators stand for objects: one identity, one authenticator. *)
Definition identified (l : list Authenticator) : Prop :=
  forall a b, a ∈ l -> b ∈ l -> authenticator_id a = authenticator_id b ->
              a = b.

(** The loop over [d.marshal_schemas.items()] in [_get_paths]. *)
Definition responses_loop
  : list (Z * Schema) -> dict -> result dict :=
  fix each (its : list (Z * Schema)) (responses_definition : dict)
    : result dict :=
    match its with
    | [] => Ok responses_definition
    | (status_code, schema) :: its' =>
        r <- ref_to_schema schema ;;
        let response_definition := JDict [(sw.schema, r)] in
        each its' (dict_set (str_of_int status_code) response_definition
                            responses_definition)
    end.

(** A fragment that [_convert_jsonschema_to_list_of_parameters] takes: an
    object whose properties are dicts, with a [required] list or none. *)
Definition parameters_source (limit : nat) (obj : json) : Prop :=
  exists (kvs props : dict) (required : list json),
    obj = JDict kvs /\
    dict_get "type" kvs = Some (JStr "object") /\
    dict_get "properties" kvs = Some (JDict props) /\
    default (JList []) (dict_get "required" kvs) = JList required /\
    Forall (fun kv => depth kv.2 <= limit /\ exists prop, kv.2 = JDict prop)
           props.

(** A route whose query string and headers schemas, if it has them, are
    converted to fragments that make parameters. *)
Definition route_ready (limit : nat) (self : SwaggerV2Generator)
  (d : PathDefinition) : Prop :=
  (forall schema, query_string_schema d = Some schema ->
     exists obj, _query_string_converter self schema = Ok obj /\
                 parameters_source limit obj) /\
  (forall schema, headers_schema d = Some schema ->
     exists obj, _headers_converter self schema = Ok obj /\
                 parameters_source limit obj).

(** An authenticator of a class of its own, and a framer that has it as its
    default authenticator. *)
Definition test_token_authenticator : Authenticator :=
  {| authenticator_id := 1;
     authenticator_class := "TokenAuthenticator";
     authenticator_name := "token";
     authenticator_header := "x-token" |}.

Definition test_token_framer : Framer :=
  {| paths := paths test_framer;
     default_authenticator := Some test_token_authenticator |}.

(** The responses object of a route whose status codes are distinct: the
    default response, then one response per status code. *)
Definition responses_of (self : SwaggerV2Generator) (d : PathDefinition)
  : dict :=
  (sw.default,
   JDict [(sw.schema,
           ref_json (get_swagger_title (default_response_schema self)))]) ::
  map (fun kv => (str_of_int kv.1,
                  JDict [(sw.schema, ref_json (get_swagger_title kv.2))]))
      (marshal_schemas d).

(** What the flattener leaves in the place of a fragment: a primitive
    fragment stays, an object gives way to a reference to its title, and an
    array stays with its [items] treated in the same way. *)
Inductive flattened : json -> json -> Prop :=
| flattened_primitive (x : json) :
    is_primitive x = true -> flattened x x
| flattened_object (x : json) (t : string) :
    getitem x sw.type_ = Ok (JStr sw.object_) ->
    getitem x sw.title = Ok (JStr t) ->
    flattened x (ref_json t)
| flattened_array (kvs : dict) (its its' : json) :
    dict_get sw.type_ kvs = Some (JStr sw.array) ->
    dict_get sw.items kvs = Some its ->
    flattened its its' ->
    flattened (JDict kvs) (JDict (dict_set sw.items its' kvs)).

(** The fields of an object, one by one, under the same names. *)
Definition fields_flattened (props props' : dict) : Prop :=
  Forall2 (fun kv kv' => kv'.1 = kv.1 /\ flattened kv.2 kv'.2) props props'.

(** A fragment with no object in it: a primitive fragment, or an array whose
    [items] is such a fragment.  The flattener finds nothing to take out of
    it. *)
Inductive object_free : json -> Prop :=
| object_free_primitive (x : json) :
    is_primitive x = true -> object_free x
| object_free_array (x its : json) :
    getitem x sw.type_ = Ok (JStr sw.array) ->
    getitem x sw.items = Ok its ->
    object_free its ->
    object_free x.

(** The objects the flattener registers while it walks a fragment, each
    with the title it is registered under: an object itself under its
    title, and what its fields register; for an array, what its [items]
    registers. *)
Inductive registers : json -> string -> json -> Prop :=
| registers_self (x : json) (t : string) :
    getitem x sw.type_ = Ok (JStr sw.object_) ->
    getitem x sw.title = Ok (JStr t) ->
    registers x t x
| registers_field (x : json) (props : dict) (kv : string * json)
    (t : string) (o : json) :
    getitem x sw.type_ = Ok (JStr sw.object_) ->
    getitem x sw.properties = Ok (JDict props) ->
    kv ∈ props ->
    registers kv.2 t o ->
    registers x t o
| registers_items (x its : json) (t : string) (o : json) :
    getitem x sw.type_ = Ok (JStr sw.array) ->
    getitem x sw.items = Ok its ->
    registers its t o ->
    registers x t o.

(** Two more inputs for the flattener, next to those of [TestFlatten]: an
    object that holds the same nested object in two fields, beside a field
    that is an array of strings; and two arrays around an object that has an
    object of its own. *)
Definition test_flatten_shared : json :=
  JDict [("type", JStr "object"); ("title", JStr "x");
         ("properties", JDict [
            ("tags", JDict [("type", JStr "array");
                            ("items", JDict [("type", JStr "string")])]);
            ("a", JDict [("type", JStr "object"); ("title", JStr "y");
                         ("properties", JDict [
                            ("b", JDict [("type", JStr "integer")])])]);
            ("b", JDict [("type", JStr "string")]);
            ("c", JDict [("type", JStr "object"); ("title", JStr "y");
                         ("properties", JDict [
                            ("b", JDict [("type", JStr "integer")])])])])].

Definition test_flatten_array_nested : json :=
  JDict [("type", JStr "array");
         ("items", JDict [
            ("type", JStr "array");
            ("items", JDict [
               ("type", JStr "object"); ("title", JStr "z");
               ("properties", JDict [
                  ("tags", JDict [("type", JStr "array");
                                  ("items", JDict [("type", JStr "string")])]);
                  ("w", JDict [("type", JStr "object"); ("title", JStr "w");
                               ("properties", JDict [
                                  ("a", JDict [("type", JStr "integer")])])])
               ])])])].

(** ** Properties *)

(** *** The tests of the repository

    [TestFlatten], [TestFormatPathForSwagger] and [test_generate_swagger],
    evaluated; on the store, the flattener is run on the fixture built in an
    empty store and read back. *)

Example test_flatten :
  _flatten 10 test_flatten_input =
  Ok (JDict [("$ref", JStr "#/definitions/x")],
      [("y", JDict [("type", JStr "object"); ("title", JStr "y");
                    ("properties", JDict [
                       ("b", JDict [("type", JStr "integer")])])]);
       ("x", JDict [("type", JStr "object"); ("title", JStr "x");
                    ("properties", JDict [
                       ("a", JDict [("$ref", JStr "#/definitions/y")]);
                       ("b", JDict [("type", JStr "string")])])])]).
Proof. reflexivity. Qed.

Example test_flatten_array :
  _flatten 10 test_flatten_array_input =
  Ok (JDict [("type", JStr "array"); ("title", JStr "x");
             ("items", JDict [
                ("type", JStr "array"); ("title", JStr "y");
                ("items", JDict [("$ref", JStr "#/definitions/z")])])],
      [("z", JDict [("type", JStr "object"); ("title", JStr "z");
                    ("properties", JDict [
                       ("a", JDict [("type", JStr "integer")])])])]).
Proof. reflexivity. Qed.

(** On the fixtures the two readings of the flattener agree, and the
    caller's fragment reads the same after the call. *)
Example store_test_flatten :
  Store.run_flatten 10 test_flatten_input =
  (match _flatten 10 test_flatten_input with
   | Ok (s, d) => Ok (Some s, Some (JDict d))
   | Raise e => Raise e
   end, Some test_flatten_input).
Proof. vm_compute. reflexivity. Qed.

Example store_test_flatten_array :
  Store.run_flatten 10 test_flatten_array_input =
  (match _flatten 10 test_flatten_array_input with
   | Ok (s, d) => Ok (Some s, Some (JDict d))
   | Raise e => Raise e
   end, Some test_flatten_array_input).
Proof. vm_compute. reflexivity. Qed.

(** Nested three deep, colliding titles and a field without a type tag: the
    two readings of the flattener end alike. *)
Example store_test_nested :
  let inner := JDict [("type", JStr "object"); ("title", JStr "z");
                      ("properties", JDict [])] in
  let nested := JDict [("type", JStr "object"); ("title", JStr "y");
                       ("properties", JDict [("c", inner)])] in
  let outer := JDict [("type", JStr "object"); ("title", JStr "x");
                      ("properties", JDict [("a", nested)])] in
  Store.run_flatten 10 outer =
  (match _flatten 10 outer with
   | Ok (s, d) => Ok (Some s, Some (JDict d))
   | Raise e => Raise e
   end, Some outer).
Proof. vm_compute. reflexivity. Qed.

Example store_test_collision :
  let a := JDict [("type", JStr "object"); ("title", JStr "t");
                  ("properties", JDict [("p", JDict [("type", JStr "integer")])])] in
  let b := JDict [("type", JStr "object"); ("title", JStr "t");
                  ("properties", JDict [("q", JDict [("type", JStr "string")])])] in
  let outer := JDict [("type", JStr "object"); ("title", JStr "t");
                      ("properties", JDict [("a", a); ("b", b)])] in
  Store.run_flatten 10 outer =
  (match _flatten 10 outer with
   | Ok (s, d) => Ok (Some s, Some (JDict d))
   | Raise e => Raise e
   end, Some outer).
Proof. vm_compute. reflexivity. Qed.

Example store_test_untyped_field :
  let outer := JDict [("type", JStr "object"); ("title", JStr "x");
                      ("properties",
                       JDict [("a", JDict [("$ref", JStr "#/definitions/y")])])] in
  Store.run_flatten 10 outer = (Raise (KeyError "type"), Some outer) /\
  _flatten 10 outer = Raise (KeyError "type").
Proof. split; vm_compute; reflexivity. Qed.

Example store_test_recursion_limit :
  Store.run_flatten 2 test_flatten_input = (Raise RecursionError, None) /\
  _flatten 2 test_flatten_input = Raise RecursionError.
Proof. split; vm_compute; reflexivity. Qed.

(** One nested object under two fields, as a fragment with sharing has it:
    the copy keeps the sharing, the second visit finds the object already
    rewritten, and the reference in it has no type tag.  The caller's objects
    are as they were. *)
Example store_test_shared_object :
  let h := [Store.ODict [];
            Store.ODict [("type", Store.VStr "object");
                         ("title", Store.VStr "z");
                         ("properties", Store.VRef 0)];
            Store.ODict [("c", Store.VRef 1)];
            Store.ODict [("type", Store.VStr "object");
                         ("title", Store.VStr "y");
                         ("properties", Store.VRef 2)];
            Store.ODict [("a", Store.VRef 3); ("b", Store.VRef 3)];
            Store.ODict [("type", Store.VStr "object");
                         ("title", Store.VStr "x");
                         ("properties", Store.VRef 4)]] in
  (Store._flatten 10 (Store.VRef 5) h).1 = Raise (KeyError "type") /\
  take 6 (Store._flatten 10 (Store.VRef 5) h).2 = h.
Proof. split; vm_compute; reflexivity. Qed.

Example test_format_path :
  _format_path_for_swagger "/projects/<uuid:project_uid>/foos/<foo_uid>" =
  ("/projects/{project_uid}/foos/{foo_uid}",
   [PathArgument (Some "project_uid") "uuid";
    PathArgument (Some "foo_uid") "string"]).
Proof. vm_compute. reflexivity. Qed.

Example test_no_args : _format_path_for_swagger "/health" = ("/health", []).
Proof. vm_compute. reflexivity. Qed.

Example test_backtrack :
  _format_path_for_swagger "<a:b<c>" =
  ("{b<c}", [PathArgument (Some "b<c") "a"]).
Proof. vm_compute. reflexivity. Qed.

(** The document of [test_generate_swagger], item for item; the items of a
    dict stand here in the order the generator inserts them. *)
Example test_generate_swagger :
  generate 50 (fun authenticators => authenticators)
    test_generator test_framer = Ok expected_swagger.
Proof. vm_compute. reflexivity. Qed.

(** *** Dictionaries *)

Section DictFacts.
Context {V : Type}.
Implicit Types (d : list (string * V)) (k : string) (v : V).

Lemma dict_get_set_eq k v d : dict_get k (dict_set k v d) = Some v.
Proof.
  induction d as [|[k' v'] d IH]; simpl.
  - by rewrite decide_True.
  - destruct (decide (k' = k)) as [->|Hne]; simpl.
    + by rewrite decide_True.
    + by rewrite decide_False.
Qed.

Lemma dict_get_set_ne k k' v d :
  k <> k' -> dict_get k' (dict_set k v d) = dict_get k' d.
Proof.
  intros Hne. induction d as [|[k0 v0] d IH]; simpl.
  - by rewrite decide_False.
  - destruct (decide (k0 = k)) as [->|Hne0]; simpl.
    + by rewrite !decide_False.
    + destruct (decide (k0 = k')); [done | apply IH].
Qed.

Lemma dict_get_None k d : dict_get k d = None <-> k ∉ dict_keys d.
Proof.
  unfold dict_keys. induction d as [|[k' v'] d IH]; simpl.
  - split; [intros _; apply not_elem_of_nil | done].
  - rewrite not_elem_of_cons. destruct (decide (k' = k)) as [->|Hne].
    + split; [done | intros [? _]; done].
    + rewrite IH. split; [intros ?; split; [congruence | done] | tauto].
Qed.

Lemma dict_get_is_Some k d : is_Some (dict_get k d) <-> k ∈ dict_keys d.
Proof.
  destruct (dict_get k d) eqn:E.
  - split; [intros _ | eauto].
    destruct (decide (k ∈ dict_keys d)) as [|Hn]; [done |].
    apply dict_get_None in Hn. congruence.
  - split; [intros [? ?]; done |].
    intros Hin. apply dict_get_None in E. done.
Qed.

Lemma dict_keys_set_present k v d :
  k ∈ dict_keys d -> dict_keys (dict_set k v d) = dict_keys d.
Proof.
  unfold dict_keys. induction d as [|[k' v'] d IH]; simpl.
  - intros H. by apply elem_of_nil in H.
  - intros H. destruct (decide (k' = k)) as [->|Hne]; simpl; [done |].
    f_equal. apply IH. apply elem_of_cons in H as [?|?]; [congruence | done].
Qed.

Lemma dict_keys_set_absent k v d :
  k ∉ dict_keys d -> dict_keys (dict_set k v d) = dict_keys d ++ [k].
Proof.
  unfold dict_keys. induction d as [|[k' v'] d IH]; simpl; [done |].
  rewrite not_elem_of_cons. intros [Hne Hnin].
  rewrite decide_False by congruence. simpl. f_equal. by apply IH.
Qed.

Lemma dict_keys_set_NoDup k v d :
  NoDup (dict_keys d) -> NoDup (dict_keys (dict_set k v d)).
Proof.
  intros Hnd. destruct (decide (k ∈ dict_keys d)) as [Hin|Hnin].
  - by rewrite dict_keys_set_present.
  - rewrite dict_keys_set_absent by done.
    apply NoDup_app. split_and!; [done | | apply NoDup_singleton].
    intros x Hx Hx'. apply list_elem_of_singleton in Hx'. by subst.
Qed.

Lemma dict_keys_set_elem k k' v d :
  k' ∈ dict_keys (dict_set k v d) <-> k' = k \/ k' ∈ dict_keys d.
Proof.
  destruct (decide (k ∈ dict_keys d)) as [Hin|Hnin].
  - rewrite dict_keys_set_present by done.
    split; [auto | intros [->|?]; done].
  - rewrite dict_keys_set_absent by done.
    rewrite elem_of_app, list_elem_of_singleton. tauto.
Qed.

(** Writing next to an item: a key that is not in front of it. *)
Lemma dict_set_middle k v v' d1 d2 :
  k ∉ dict_keys d1 ->
  dict_set k v' (d1 ++ (k, v) :: d2) = d1 ++ (k, v') :: d2.
Proof.
  unfold dict_keys. induction d1 as [|[k0 v0] d1 IH]; simpl.
  - intros _. by rewrite decide_True.
  - rewrite not_elem_of_cons. intros [Hne Hnin].
    rewrite decide_False by congruence. f_equal. by apply IH.
Qed.

Lemma dict_get_middle k v d1 d2 :
  k ∉ dict_keys d1 -> dict_get k (d1 ++ (k, v) :: d2) = Some v.
Proof.
  unfold dict_keys. induction d1 as [|[k0 v0] d1 IH]; simpl.
  - intros _. by rewrite decide_True.
  - rewrite not_elem_of_cons. intros [Hne Hnin].
    rewrite decide_False by congruence. by apply IH.
Qed.

Lemma dict_update_cons d1 k v d2 :
  dict_update d1 ((k, v) :: d2) = dict_update (dict_set k v d1) d2.
Proof. reflexivity. Qed.

Lemma dict_update_NoDup d1 d2 :
  NoDup (dict_keys d1) -> NoDup (dict_keys (dict_update d1 d2)).
Proof.
  revert d1. induction d2 as [|[k v] d2 IH]; intros d1 Hnd; [done |].
  rewrite dict_update_cons. apply IH. by apply dict_keys_set_NoDup.
Qed.

Lemma dict_update_elem k d1 d2 :
  k ∈ dict_keys (dict_update d1 d2) <-> k ∈ dict_keys d1 \/ k ∈ dict_keys d2.
Proof.
  revert d1. induction d2 as [|[k' v] d2 IH]; intros d1.
  - unfold dict_keys at 3. simpl. rewrite elem_of_nil. tauto.
  - rewrite dict_update_cons, IH, dict_keys_set_elem.
    unfold dict_keys at 4. simpl. rewrite elem_of_cons.
    fold (dict_keys d2). tauto.
Qed.

(** [update] gives the last word to its argument. *)
Lemma dict_update_get k d1 d2 :
  NoDup (dict_keys d2) ->
  dict_get k (dict_update d1 d2) =
  match dict_get k d2 with
  | Some v => Some v
  | None => dict_get k d1
  end.
Proof.
  revert d1. induction d2 as [|[k' v] d2 IH]; intros d1 Hnd; [done |].
  rewrite dict_update_cons. unfold dict_keys in Hnd. simpl in Hnd.
  apply NoDup_cons in Hnd as [Hnin Hnd]. rewrite IH by done. simpl.
  destruct (decide (k' = k)) as [->|Hne].
  - apply dict_get_None in Hnin. rewrite Hnin. apply dict_get_set_eq.
  - destruct (dict_get k d2); [done |]. by apply dict_get_set_ne.
Qed.
End DictFacts.

(** *** Results *)

Lemma py_eq_str_true x s : py_eq_str x s = true <-> x = JStr s.
Proof.
  destruct x; simpl; try (split; [done | congruence]).
  rewrite bool_decide_eq_true. split; [by intros -> | congruence].
Qed.

Lemma py_eq_str_false x s : py_eq_str x s = false <-> x <> JStr s.
Proof.
  rewrite <- py_eq_str_true. destruct (py_eq_str x s); split; congruence.
Qed.

Lemma is_primitive_spec x :
  is_primitive x = true <->
  exists ty, getitem x sw.type_ = Ok ty /\
             ty <> JStr sw.object_ /\ ty <> JStr sw.array.
Proof.
  unfold is_primitive. destruct (getitem x sw.type_) as [ty|e].
  - rewrite andb_true_iff, !negb_true_iff, !py_eq_str_false.
    split; [intros [? ?]; eauto | intros (ty' & [= <-] & ? & ?); done].
  - split; [done | intros (ty & ? & _); done].
Qed.

(** *** deepcopy of a value is the value *)

Lemma depth_elem (x : json) (xs : list json) :
  x ∈ xs -> depth x <= foldr (fun y n => Nat.max (depth y) n) 0 xs.
Proof.
  induction xs as [|a xs IH]; intros H; [by apply elem_of_nil in H |].
  simpl. apply elem_of_cons in H as [->|H]; [lia |]. specialize (IH H). lia.
Qed.

Lemma depth_value (kv : string * json) (kvs : dict) :
  kv ∈ kvs -> depth kv.2 <= foldr (fun kv n => Nat.max (depth kv.2) n) 0 kvs.
Proof.
  induction kvs as [|a kvs IH]; intros H; [by apply elem_of_nil in H |].
  simpl. apply elem_of_cons in H as [->|H]; [lia |]. specialize (IH H). lia.
Qed.

Lemma depth_getitem x k v : getitem x k = Ok v -> depth v < depth x.
Proof.
  destruct x as [| | | | |kvs]; simpl; try done.
  destruct (dict_get k kvs) as [v'|] eqn:E; [|done]. intros [= <-].
  assert ((k, v') ∈ kvs ∨ False) as [Hin|[]].
  { left. clear -E. induction kvs as [|[k0 v0] kvs IH]; simpl in E; [done |].
    destruct (decide (k0 = k)) as [->|Hne].
    - injection E as ->. apply elem_of_cons. by left.
    - apply elem_of_cons. right. by apply IH. }
  apply depth_value in Hin. simpl in Hin. lia.
Qed.

Lemma deepcopy_ok fuel x : depth x <= fuel -> deepcopy fuel x = Ok x.
Proof.
  revert x. induction fuel as [|fuel IH]; intros x Hd.
  - destruct x; simpl in Hd; lia.
  - destruct x as [| | | |xs|kvs]; simpl; try done.
    + simpl in Hd.
      assert (forall l, (forall a, a ∈ l -> depth a <= fuel) ->
        (fix copy_all (l : list json) : result (list json) :=
           match l with
           | [] => Ok []
           | a :: l' =>
               a' <- deepcopy fuel a ;; l'' <- copy_all l' ;; Ok (a' :: l'')
           end) l = Ok l) as Hall.
      { induction l as [|a l IHl]; intros Hl; [done |].
        rewrite IH by (apply Hl, elem_of_cons; by left). simpl.
        rewrite IHl; [done |]. intros b Hb. apply Hl, elem_of_cons. by right. }
      rewrite Hall; [done |]. intros a Ha. apply depth_elem in Ha. lia.
    + simpl in Hd.
      assert (forall l, (forall kv, kv ∈ l -> depth kv.2 <= fuel) ->
        (fix copy_all (l : dict) : result dict :=
           match l with
           | [] => Ok []
           | (k, v) :: l' =>
               v' <- deepcopy fuel v ;; l'' <- copy_all l' ;;
               Ok ((k, v') :: l'')
           end) l = Ok l) as Hall.
      { induction l as [|[k v] l IHl]; intros Hl; [done |].
        rewrite IH by (apply (Hl (k, v)), elem_of_cons; by left). simpl.
        rewrite IHl; [done |]. intros b Hb. apply Hl, elem_of_cons. by right. }
      rewrite Hall; [done |]. intros a Ha. apply depth_value in Ha. lia.
Qed.

(** *** The flattener, unfolded *)

#[local] Arguments _flatten_object : simpl never.
#[local] Arguments _flatten_array : simpl never.
#[local] Arguments deepcopy : simpl never.

Lemma _flatten_object_unfold fuel schema definitions :
  _flatten_object (S fuel) schema definitions =
  (props <- getitem schema sw.properties ;;
   its <- dict_items props ;;
   st <- fields_loop (_flatten_object fuel) (_flatten_array fuel)
           its its definitions ;;
   let '(props', definitions) := st in
   schema <- setitem schema sw.properties (JDict props') ;;
   key <- _get_key schema ;;
   definitions <- register key schema definitions ;;
   Ok (key, schema, definitions)).
Proof. reflexivity. Qed.

Lemma _flatten_array_unfold fuel schema definitions :
  _flatten_array (S fuel) schema definitions =
  (its <- getitem schema sw.items ;;
   ty <- getitem its sw.type_ ;;
   if py_eq_str ty sw.object_ then
     r <- _flatten_object fuel its definitions ;;
     let '(obj_key, _, definitions) := r in
     r <- ref_to obj_key ;;
     schema <- setitem schema sw.items r ;;
     Ok (schema, definitions)
   else if py_eq_str ty sw.array then
     r <- _flatten_array fuel its definitions ;;
     let '(its', definitions) := r in
     schema <- setitem schema sw.items its' ;;
     Ok (schema, definitions)
   else Ok (schema, definitions)).
Proof. reflexivity. Qed.

(** Fields that are all primitive leave the loop as it found them. *)
Lemma fields_loop_primitive fo fa (its props definitions : dict) :
  Forall (fun kv => is_primitive kv.2 = true) its ->
  fields_loop fo fa its props definitions = Ok (props, definitions).
Proof.
  induction 1 as [|[field obj] its Hp _ IH]; [done |].
  simpl in *. apply is_primitive_spec in Hp as (ty & -> & Ho & Ha). simpl.
  apply py_eq_str_false in Ho, Ha. by rewrite Ho, Ha.
Qed.

Lemma dict_set_same {V : Type} (k : string) (v : V) (d : list (string * V)) :
  dict_get k d = Some v -> dict_set k v d = d.
Proof.
  induction d as [|[k' v'] d IH]; simpl; [done |].
  destruct (decide (k' = k)) as [->|Hne]; [by intros [= ->] |].
  intros H. by rewrite IH.
Qed.

Lemma getitem_dict (kvs : dict) (k : string) (v : json) :
  dict_get k kvs = Some v -> getitem (JDict kvs) k = Ok v.
Proof. simpl. by intros ->. Qed.

(** An object whose fields are all primitive registers itself, unchanged. *)
Lemma _flatten_object_flat fuel (kvs props definitions : dict) (t : string) :
  dict_get sw.properties kvs = Some (JDict props) ->
  dict_get sw.title kvs = Some (JStr t) ->
  Forall (fun kv => is_primitive kv.2 = true) props ->
  _flatten_object (S fuel) (JDict kvs) definitions =
  Ok (JStr t, JDict kvs, dict_set t (JDict kvs) definitions).
Proof.
  intros Hp Ht Hprim. rewrite _flatten_object_unfold.
  rewrite (getitem_dict _ _ _ Hp). simpl.
  rewrite fields_loop_primitive by done. simpl.
  rewrite (dict_set_same _ _ _ Hp).
  unfold _get_key. simpl. by rewrite Ht.
Qed.

(** *** The flattener on primitive roots *)

(** C5: a fragment whose type tag is neither [object] nor [array] comes back
    unchanged, with an empty definitions delta (the recursion limit allowing
    the copy of the fragment). *)
Theorem flatten_primitive_unchanged (fuel : nat) (schema ty : json) :
  depth schema <= fuel ->
  getitem schema sw.type_ = Ok ty ->
  ty <> JStr sw.object_ ->
  ty <> JStr sw.array ->
  _flatten fuel schema = Ok (schema, []).
Proof.
  intros Hd Hty Ho Ha. unfold _flatten.
  rewrite deepcopy_ok by done. simpl. rewrite Hty. simpl.
  apply py_eq_str_false in Ho, Ha. by rewrite Ho, Ha.
Qed.

Lemma flatten_primitive_unchanged_witness :
  _flatten 3 (JDict [("type", JStr "string"); ("enum", JList [JStr "a"])]) =
  Ok (JDict [("type", JStr "string"); ("enum", JList [JStr "a"])], []).
Proof.
  apply (flatten_primitive_unchanged 3 _ (JStr "string"));
    [vm_compute; lia | reflexivity | discriminate | discriminate].
Defined.

(** C6, as the spec has it, fails: a root that is neither an object nor an
    array raises nothing. *)
Lemma flatten_primitive_root_raises_nothing :
  getitem (JDict [("type", JStr "string")]) sw.type_ = Ok (JStr "string") /\
  JStr "string" <> JStr sw.object_ /\
  JStr "string" <> JStr sw.array /\
  _flatten 2 (JDict [("type", JStr "string")]) =
    Ok (JDict [("type", JStr "string")], []) /\
  forall e, _flatten 2 (JDict [("type", JStr "string")]) <> Raise e.
Proof. repeat split; done. Qed.

(** C6, amended: with a type tag that is neither [object] nor [array] the
    root is accepted: given a recursion budget that covers the depth of the
    fragment, [_flatten] raises nothing and returns the fragment itself and
    an empty delta; the error a root raises by its tag is the [KeyError] of
    a dict without one. *)
Theorem flatten_root_errors (fuel : nat) (schema : json) :
  depth schema <= fuel ->
  (forall ty, getitem schema sw.type_ = Ok ty ->
              ty <> JStr sw.object_ -> ty <> JStr sw.array ->
              _flatten fuel schema = Ok (schema, []) /\
              forall e, _flatten fuel schema <> Raise e) /\
  (forall kvs, schema = JDict kvs -> dict_get sw.type_ kvs = None ->
               _flatten fuel schema = Raise (KeyError sw.type_)).
Proof.
  intros Hd. split.
  - intros ty Hty Ho Ha.
    assert (_flatten fuel schema = Ok (schema, [])) as ->; [|by split].
    unfold _flatten. rewrite deepcopy_ok by done. simpl. rewrite Hty. simpl.
    apply py_eq_str_false in Ho, Ha. by rewrite Ho, Ha.
  - intros kvs -> Hnone. unfold _flatten.
    rewrite deepcopy_ok by done. simpl. by rewrite Hnone.
Qed.

Lemma flatten_root_errors_witness :
  (_flatten 2 (JDict [("type", JStr "integer")]) =
     Ok (JDict [("type", JStr "integer")], []) /\
   forall e, _flatten 2 (JDict [("type", JStr "integer")]) <> Raise e) /\
  _flatten 2 (JDict [("title", JStr "x")]) = Raise (KeyError sw.type_).
Proof.
  split.
  - apply (proj1 (flatten_root_errors 2 (JDict [("type", JStr "integer")])
                    ltac:(vm_compute; lia)) (JStr "integer"));
      [reflexivity | discriminate | discriminate].
  - apply (proj2 (flatten_root_errors 2 (JDict [("title", JStr "x")])
                    ltac:(vm_compute; lia)) [("title", JStr "x")]);
      reflexivity.
Defined.

(** *** Fragments without objects *)

Lemma fields_loop_app fo fa (l1 l2 props definitions : dict) :
  fields_loop fo fa (l1 ++ l2) props definitions =
  (st <- fields_loop fo fa l1 props definitions ;;
   fields_loop fo fa l2 st.1 st.2).
Proof.
  revert props definitions.
  induction l1 as [|[field obj] l1 IH]; intros props definitions; [done |].
  simpl. destruct (getitem obj sw.type_) as [ty|e]; [simpl | done].
  destruct (py_eq_str ty sw.object_).
  - destruct (fo obj definitions) as [[[key o] d]|e]; [simpl | done].
    destruct (ref_to key) as [r|e]; [simpl | done]. apply IH.
  - destruct (py_eq_str ty sw.array); [|apply IH].
    destruct (fa obj definitions) as [[o d]|e]; [simpl | done]. apply IH.
Qed.

(** An array without objects comes back as it is, the table as well. *)
Lemma _flatten_array_object_free (x : json) :
  object_free x ->
  forall fuel definitions,
    getitem x sw.type_ = Ok (JStr sw.array) -> depth x <= fuel ->
    _flatten_array fuel x definitions = Ok (x, definitions).
Proof.
  induction 1 as [x Hp|x its Hty Hits Hfree IH];
    intros fuel definitions Harr Hd.
  - apply is_primitive_spec in Hp as (ty & Hty & _ & Ha). congruence.
  - destruct fuel as [|fuel]; [destruct x; simpl in Hd; lia |].
    rewrite _flatten_array_unfold, Hits. simpl.
    assert (depth its <= fuel) as Hdi.
    { apply depth_getitem in Hits. lia. }
    destruct x as [| | | | |kvs]; try done.
    assert (dict_set sw.items its kvs = kvs) as Hsame.
    { apply dict_set_same. simpl in Hits.
      by destruct (dict_get sw.items kvs) as [v|]; [injection Hits as -> |]. }
    inversion Hfree as [? Hp|? its' Hity Hiits Hfree']; subst.
    + apply is_primitive_spec in Hp as (ty & -> & Ho & Ha). simpl.
      apply py_eq_str_false in Ho, Ha. by rewrite Ho, Ha.
    + rewrite Hity. simpl.
      replace (bool_decide (sw.array = sw.object_)) with false by done.
      replace (bool_decide (sw.array = sw.array)) with true by done.
      rewrite (IH fuel definitions Hity Hdi). simpl. by rewrite Hsame.
Qed.

(** Fields without objects leave the loop as it found them. *)
Lemma fields_loop_object_free (n : nat) fo (its front rest : dict)
  (definitions : dict) :
  NoDup (dict_keys (front ++ its ++ rest)) ->
  Forall (fun kv => object_free kv.2 /\ depth kv.2 <= n) its ->
  fields_loop fo (_flatten_array n) its (front ++ its ++ rest) definitions =
  Ok (front ++ its ++ rest, definitions).
Proof.
  intros Hnd Hall. revert front Hnd.
  induction Hall as [|[field obj] its [Hfree Hd] _ IH]; intros front Hnd;
    [done |].
  simpl in Hfree, Hd.
  assert (field ∉ dict_keys front) as Hfield.
  { unfold dict_keys in *. rewrite fmap_app in Hnd.
    apply NoDup_app in Hnd as (_ & Hdisj & _). intros Hin.
    apply (Hdisj field Hin). simpl. apply elem_of_cons. by left. }
  assert (front ++ ((field, obj) :: its) ++ rest =
          (front ++ [(field, obj)]) ++ its ++ rest) as Happ.
  { by rewrite <- app_assoc. }
  cbn [fields_loop].
  inversion Hfree as [? Hp|? its' Hty Hits Hfree']; subst.
  - apply is_primitive_spec in Hp as (ty & -> & Ho & Ha). cbn [bind].
    apply py_eq_str_false in Ho, Ha. rewrite Ho, Ha.
    rewrite Happ. apply IH. by rewrite <- Happ.
  - rewrite Hty. cbn [bind py_eq_str].
    replace (bool_decide (sw.array = sw.object_)) with false by done.
    replace (bool_decide (sw.array = sw.array)) with true by done.
    rewrite (_flatten_array_object_free obj Hfree n definitions Hty Hd).
    cbn [bind]. change (((field, obj) :: its) ++ rest)
      with ((field, obj) :: its ++ rest).
    rewrite dict_set_middle by done.
    change ((field, obj) :: its ++ rest)
      with (((field, obj) :: its) ++ rest).
    rewrite Happ. apply IH. by rewrite <- Happ.
Qed.

(** An object whose fields have no objects registers itself, unchanged. *)
Lemma _flatten_object_object_free (n : nat) (kvs props definitions : dict)
  (t : string) :
  dict_get sw.properties kvs = Some (JDict props) ->
  dict_get sw.title kvs = Some (JStr t) ->
  NoDup (dict_keys props) ->
  Forall (fun kv => object_free kv.2 /\ depth kv.2 <= n) props ->
  _flatten_object (S n) (JDict kvs) definitions =
  Ok (JStr t, JDict kvs, dict_set t (JDict kvs) definitions).
Proof.
  intros Hp Ht Hnd Hall. rewrite _flatten_object_unfold.
  rewrite (getitem_dict _ _ _ Hp). simpl.
  pose proof (fields_loop_object_free n (_flatten_object n) props [] []
                definitions) as Hloop.
  rewrite app_nil_r in Hloop. simpl in Hloop. rewrite Hloop by done. simpl.
  rewrite (dict_set_same _ _ _ Hp).
  unfold _get_key. simpl. by rewrite Ht.
Qed.

Lemma depth_fields (n : nat) (kvs props : dict) :
  dict_get sw.properties kvs = Some (JDict props) ->
  depth (JDict kvs) <= S (S n) ->
  Forall (fun kv => depth kv.2 <= n) props.
Proof.
  intros Hp Hd. apply Forall_forall. intros kv Hkv.
  pose proof (depth_getitem _ _ _ (getitem_dict _ _ _ Hp)) as H1.
  apply depth_value in Hkv.
  assert (depth kv.2 < depth (JDict props)) as H2 by (simpl; lia). lia.
Qed.

(** *** Two levels of objects *)

(** C1, as the spec has it, fails: a nested object with an object of its own
    is not kept verbatim, its field is rewritten too, and the delta has an
    entry more; and a nested object is not in the delta at all when a later
    field holds another object of the same title. *)
Lemma flatten_nested_not_verbatim :
  let inner := JDict [("type", JStr "object"); ("title", JStr "z");
                      ("properties", JDict [])] in
  let nested := JDict [("type", JStr "object"); ("title", JStr "y");
                       ("properties", JDict [("c", inner)])] in
  let outer := JDict [("type", JStr "object"); ("title", JStr "x");
                      ("properties", JDict [("a", nested)])] in
  let first := JDict [("type", JStr "object"); ("title", JStr "y");
                      ("properties",
                       JDict [("p", JDict [("type", JStr "integer")])])] in
  let second := JDict [("type", JStr "object"); ("title", JStr "y");
                       ("properties",
                        JDict [("q", JDict [("type", JStr "string")])])] in
  let both := JDict [("type", JStr "object"); ("title", JStr "x");
                     ("properties", JDict [("a", first); ("b", second)])] in
  (getitem outer sw.type_ = Ok (JStr sw.object_) /\
   getitem outer sw.title = Ok (JStr "x") /\
   getitem nested sw.type_ = Ok (JStr sw.object_) /\
   getitem nested sw.title = Ok (JStr "y") /\
   exists r definitions,
     _flatten 10 outer = Ok (r, definitions) /\
     dict_get "y" definitions =
       Some (JDict [("type", JStr "object"); ("title", JStr "y");
                    ("properties",
                     JDict [("c", JDict [("$ref", JStr "#/definitions/z")])])]) /\
     dict_get "y" definitions <> Some nested /\
     dict_keys definitions = ["z"; "y"; "x"]) /\
  (getitem first sw.type_ = Ok (JStr sw.object_) /\
   getitem first sw.title = Ok (JStr "y") /\
   exists r definitions,
     _flatten 10 both = Ok (r, definitions) /\
     dict_get "y" definitions = Some second /\
     dict_get "y" definitions <> Some first).
Proof.
  split.
  - repeat split; try reflexivity.
    eexists _, _. split; [reflexivity |]. repeat split; discriminate.
  - repeat split; try reflexivity.
    eexists _, _. split; [reflexivity |]. split; [reflexivity | discriminate].
Qed.

(** Two levels and nothing else: when no other field of [f] and no field of
    [g] has an object in it, the delta is the two entries and nothing in the
    outer object changes but field [a]. *)
Lemma flatten_two_levels_exact (fuel : nat) (f g a : string)
  (kvs pre post gkvs gprops : dict) :
  depth (JDict kvs) <= fuel ->
  dict_get sw.type_ kvs = Some (JStr sw.object_) ->
  dict_get sw.title kvs = Some (JStr f) ->
  dict_get sw.properties kvs = Some (JDict (pre ++ (a, JDict gkvs) :: post)) ->
  NoDup (dict_keys (pre ++ (a, JDict gkvs) :: post)) ->
  Forall (fun kv => object_free kv.2) (pre ++ post) ->
  dict_get sw.type_ gkvs = Some (JStr sw.object_) ->
  dict_get sw.title gkvs = Some (JStr g) ->
  dict_get sw.properties gkvs = Some (JDict gprops) ->
  NoDup (dict_keys gprops) ->
  Forall (fun kv => object_free kv.2) gprops ->
  f <> g ->
  _flatten fuel (JDict kvs) =
  Ok (JDict [(sw.ref, JStr ("#/definitions/" +:+ f))],
      [(g, JDict gkvs);
       (f, JDict (dict_set sw.properties
                    (JDict (pre ++
                            (a, JDict [(sw.ref, JStr ("#/definitions/" +:+ g))])
                            :: post)) kvs))]).
Proof.
  intros Hd Hty Ht Hp Hnd Hfree Hgty Hgt Hgp Hgnd Hgfree Hfg.
  apply Forall_app in Hfree as [Hpre Hpost].
  assert (depth (JDict gkvs) <
          depth (JDict (pre ++ (a, JDict gkvs) :: post))) as Hdg.
  { assert ((a, JDict gkvs) ∈ pre ++ (a, JDict gkvs) :: post) as Hin.
    { apply elem_of_app. right. apply elem_of_cons. by left. }
    apply depth_value in Hin. simpl in *. lia. }
  pose proof (depth_getitem _ _ _ (getitem_dict _ _ _ Hp)) as Hdp.
  assert (exists n, fuel = S (S (S n))) as [n ->].
  { pose proof (depth_getitem _ _ _ (getitem_dict _ _ _ Hgp)) as H3.
    assert (1 <= depth (JDict gprops)) by (simpl; lia).
    destruct fuel as [|[|[|n]]]; [lia | lia | lia | eauto]. }
  assert (a ∉ dict_keys pre) as Ha.
  { unfold dict_keys in *. rewrite fmap_app in Hnd.
    apply NoDup_app in Hnd as (_ & Hdisj & _). intros Hin.
    apply (Hdisj a Hin). simpl. apply elem_of_cons. by left. }
  pose proof (depth_fields (S n) kvs _ Hp Hd) as Hdf.
  apply Forall_app in Hdf as [Hdpre Hdrest].
  apply Forall_cons in Hdrest as [Hdg' Hdpost]. simpl in Hdg'.
  pose proof (depth_fields n gkvs _ Hgp ltac:(lia)) as Hdgf.
  unfold _flatten. rewrite deepcopy_ok by done. simpl.
  rewrite Hty. simpl.
  replace (bool_decide (sw.object_ = sw.object_)) with true by done.
  rewrite _flatten_object_unfold. simpl. rewrite Hp. simpl.
  rewrite fields_loop_app.
  pose proof (fields_loop_object_free (S (S n)) (_flatten_object (S (S n)))
                pre [] ((a, JDict gkvs) :: post) []) as Hloop1.
  simpl in Hloop1. rewrite Hloop1; [|done |].
  2:{ apply Forall_forall. intros kv Hkv. rewrite Forall_forall in Hpre, Hdpre.
      split; [by apply Hpre |]. specialize (Hdpre kv Hkv). lia. }
  cbn [bind fst snd fields_loop]. rewrite (getitem_dict _ _ _ Hgty).
  cbn [bind py_eq_str].
  replace (bool_decide (sw.object_ = sw.object_)) with true by done.
  rewrite (_flatten_object_object_free (S n) gkvs gprops [] g);
    [|done | done | done |].
  2:{ apply Forall_forall. intros kv Hkv.
      rewrite Forall_forall in Hgfree, Hdgf.
      split; [by apply Hgfree |]. specialize (Hdgf kv Hkv). lia. }
  cbn [bind ref_to _get_ref]. rewrite dict_set_middle by done.
  set (r := JDict [(sw.ref,
                    JStr ("#" +:+ "/" +:+ sw.definitions +:+ "/" +:+ g))]).
  assert (fields_loop (_flatten_object (S (S n))) (_flatten_array (S (S n)))
            post (pre ++ (a, r) :: post) (dict_set g (JDict gkvs) []) =
          Ok (pre ++ (a, r) :: post, dict_set g (JDict gkvs) [])) as ->.
  { pose proof (fields_loop_object_free (S (S n))
                  (_flatten_object (S (S n))) post (pre ++ [(a, r)]) []
                  (dict_set g (JDict gkvs) [])) as Hloop2.
    rewrite app_nil_r, <- app_assoc in Hloop2. apply Hloop2.
    - unfold dict_keys in *. rewrite fmap_app in *. done.
    - apply Forall_forall. intros kv Hkv.
      rewrite Forall_forall in Hpost, Hdpost.
      split; [by apply Hpost |]. specialize (Hdpost kv Hkv). lia. }
  subst r. simpl. unfold _get_key. simpl.
  rewrite dict_get_set_ne by done. rewrite Ht. simpl.
  by rewrite decide_False by congruence.
Qed.

(** *** Arrays of arrays of objects *)

Lemma array_is_not_object : bool_decide (sw.array = sw.object_) = false.
Proof. reflexivity. Qed.

Lemma array_is_array : bool_decide (sw.array = sw.array) = true.
Proof. reflexivity. Qed.

Lemma object_is_object : bool_decide (sw.object_ = sw.object_) = true.
Proof. reflexivity. Qed.

(** C4, as the spec has it, fails: the innermost object may hold objects of
    its own, and each of them becomes an entry of the delta as well. *)
Lemma flatten_array_more_entries :
  let w := JDict [("type", JStr "object"); ("title", JStr "w");
                  ("properties", JDict [])] in
  let z := JDict [("type", JStr "object"); ("title", JStr "z");
                  ("properties", JDict [("a", w)])] in
  let y := JDict [("type", JStr "array"); ("items", z)] in
  let x := JDict [("type", JStr "array"); ("items", y)] in
  getitem x sw.type_ = Ok (JStr sw.array) /\
  getitem x sw.items = Ok y /\
  getitem y sw.type_ = Ok (JStr sw.array) /\
  getitem y sw.items = Ok z /\
  getitem z sw.type_ = Ok (JStr sw.object_) /\
  getitem z sw.title = Ok (JStr "z") /\
  exists r definitions,
    _flatten 10 x = Ok (r, definitions) /\
    dict_keys definitions = ["w"; "z"] /\
    length definitions <> 1.
Proof.
  repeat split; try reflexivity.
  eexists _, _. split; [reflexivity |]. split; [reflexivity | discriminate].
Qed.

(** Two arrays around an object whose fields have no object in them: the
    delta is the one entry, the object itself. *)
Lemma flatten_array_of_arrays_exact (fuel : nat) (z : string)
  (kvs ikvs okvs oprops : dict) :
  depth (JDict kvs) <= fuel ->
  dict_get sw.type_ kvs = Some (JStr sw.array) ->
  dict_get sw.items kvs = Some (JDict ikvs) ->
  dict_get sw.type_ ikvs = Some (JStr sw.array) ->
  dict_get sw.items ikvs = Some (JDict okvs) ->
  dict_get sw.type_ okvs = Some (JStr sw.object_) ->
  dict_get sw.title okvs = Some (JStr z) ->
  dict_get sw.properties okvs = Some (JDict oprops) ->
  NoDup (dict_keys oprops) ->
  Forall (fun kv => object_free kv.2) oprops ->
  _flatten fuel (JDict kvs) =
  Ok (JDict (dict_set sw.items
               (JDict (dict_set sw.items
                         (JDict [(sw.ref, JStr ("#/definitions/" +:+ z))])
                         ikvs)) kvs),
      [(z, JDict okvs)]).
Proof.
  intros Hd Hty Hit Hity Hiit Hoty Hot Hop Hnd Hfree.
  pose proof (depth_getitem _ _ _ (getitem_dict _ _ _ Hit)) as H1.
  pose proof (depth_getitem _ _ _ (getitem_dict _ _ _ Hiit)) as H2.
  pose proof (depth_getitem _ _ _ (getitem_dict _ _ _ Hop)) as H3.
  assert (exists n, fuel = S (S (S (S n)))) as [n ->].
  { assert (1 <= depth (JDict oprops)) by (simpl; lia).
    destruct fuel as [|[|[|[|n]]]]; [lia | lia | lia | lia | eauto]. }
  assert (depth (JDict okvs) <= S (S n)) as Hdo by lia.
  pose proof (depth_fields n okvs _ Hop Hdo) as Hdf.
  unfold _flatten. rewrite deepcopy_ok by done. simpl.
  rewrite Hty. simpl. rewrite ?array_is_not_object, ?array_is_array.
  rewrite _flatten_array_unfold. simpl. rewrite Hit. simpl.
  rewrite Hity. simpl. rewrite ?array_is_not_object, ?array_is_array.
  rewrite _flatten_array_unfold. simpl. rewrite Hiit. simpl.
  rewrite Hoty. simpl. rewrite ?object_is_object.
  rewrite (_flatten_object_object_free (S n) okvs oprops [] z);
    [done | done | done | done |].
  apply Forall_forall. intros kv Hkv. rewrite Forall_forall in Hfree, Hdf.
  split; [by apply Hfree |]. specialize (Hdf kv Hkv). lia.
Qed.

(** *** Titles that collide *)

Lemma bind_Ok {A B : Type} (m : result A) (k : A -> result B) (b : B) :
  bind m k = Ok b -> exists a, m = Ok a /\ k a = Ok b.
Proof. destruct m as [a|e]; simpl; [eauto | done]. Qed.

Ltac inv_bind H :=
  let a := fresh "a" in
  let E := fresh "E" in
  apply bind_Ok in H as (a & E & H).

Lemma entries_under_NoDup {V : Type} (k : string) (v : V)
  (d : list (string * V)) :
  NoDup (dict_keys d) -> dict_get k d = Some v -> entries_under k d = [(k, v)].
Proof.
  unfold entries_under, dict_keys.
  induction d as [|[k' v'] d IH]; simpl; [done |].
  intros Hnd. apply NoDup_cons in Hnd as [Hnin Hnd].
  destruct (decide (k' = k)) as [->|Hne].
  - intros [= ->]. rewrite filter_cons_True by done. f_equal.
    clear -Hnin. induction d as [|[k0 v0] d IH]; [done |].
    simpl in Hnin. apply not_elem_of_cons in Hnin as [Hne Hnin].
    rewrite filter_cons_False by (simpl; congruence). by apply IH.
  - intros Hget. rewrite filter_cons_False by done. by apply IH.
Qed.

Lemma register_Ok key schema definitions definitions' :
  register key schema definitions = Ok definitions' ->
  exists t, key = JStr t /\ definitions' = dict_set t schema definitions.
Proof. destruct key; simpl; try done. intros [= <-]. eauto. Qed.

Lemma setitem_Ok x k v x' :
  setitem x k v = Ok x' ->
  exists kvs, x = JDict kvs /\ x' = JDict (dict_set k v kvs).
Proof. destruct x; simpl; try done. intros [= <-]. eauto. Qed.

(** What [_flatten_object] returns: its key is the title, a string, and the
    table holds the rewritten schema under it. *)
Lemma _flatten_object_Ok fuel schema definitions key schema' definitions' :
  _flatten_object fuel schema definitions = Ok (key, schema', definitions') ->
  exists t, key = JStr t /\ getitem schema sw.title = Ok (JStr t) /\
            dict_get t definitions' = Some schema'.
Proof.
  destruct fuel as [|fuel]; [done |]. rewrite _flatten_object_unfold.
  intros H. inv_bind H. inv_bind H. inv_bind H. destruct a1 as [props' defs1].
  inv_bind H. inv_bind H. inv_bind H. injection H as <- <- <-.
  apply register_Ok in E4 as (t & -> & ->).
  apply setitem_Ok in E2 as (kvs & -> & ->).
  exists t. split; [done |]. split; [|apply dict_get_set_eq].
  unfold _get_key in E3. simpl in *.
  rewrite dict_get_set_ne in E3 by done. done.
Qed.

(** The keys of the table stay distinct. *)
Lemma fields_loop_NoDup fo fa :
  (forall obj definitions r,
     NoDup (dict_keys definitions) -> fo obj definitions = Ok r ->
     NoDup (dict_keys r.2)) ->
  (forall obj definitions r,
     NoDup (dict_keys definitions) -> fa obj definitions = Ok r ->
     NoDup (dict_keys r.2)) ->
  forall its props definitions r,
    NoDup (dict_keys definitions) ->
    fields_loop fo fa its props definitions = Ok r ->
    NoDup (dict_keys r.2).
Proof.
  intros Hfo Hfa its.
  induction its as [|[field obj] its IH]; intros props definitions r Hnd H.
  - simpl in H. by injection H as <-.
  - simpl in H. inv_bind H. destruct (py_eq_str a sw.object_).
    + inv_bind H. destruct a0 as [[obj_key o'] defs']. inv_bind H.
      eapply IH; [|exact H]. apply (Hfo _ _ _ Hnd E0).
    + destruct (py_eq_str a sw.array).
      * inv_bind H. destruct a0 as [obj' defs'].
        eapply IH; [|exact H]. apply (Hfa _ _ _ Hnd E0).
      * eapply IH; [exact Hnd | exact H].
Qed.

Lemma flatten_NoDup fuel :
  (forall schema definitions r,
     NoDup (dict_keys definitions) ->
     _flatten_object fuel schema definitions = Ok r ->
     NoDup (dict_keys r.2)) /\
  (forall schema definitions r,
     NoDup (dict_keys definitions) ->
     _flatten_array fuel schema definitions = Ok r ->
     NoDup (dict_keys r.2)).
Proof.
  induction fuel as [|fuel [IHo IHa]]; [split; intros; done |].
  split; intros schema definitions r Hnd H.
  - rewrite _flatten_object_unfold in H.
    inv_bind H. inv_bind H. inv_bind H. destruct a1 as [props' defs1].
    inv_bind H. inv_bind H. inv_bind H. injection H as <-. simpl.
    apply register_Ok in E4 as (t & -> & ->).
    apply dict_keys_set_NoDup.
    apply (fields_loop_NoDup _ _ IHo IHa _ _ _ _ Hnd E1).
  - rewrite _flatten_array_unfold in H.
    inv_bind H. inv_bind H. destruct (py_eq_str a0 sw.object_).
    + inv_bind H. destruct a1 as [[obj_key o'] defs']. inv_bind H.
      inv_bind H. injection H as <-. simpl. apply (IHo _ _ _ Hnd E1).
    + destruct (py_eq_str a0 sw.array).
      * inv_bind H. destruct a1 as [its' defs']. inv_bind H.
        injection H as <-. simpl. apply (IHa _ _ _ Hnd E1).
      * by injection H as <-.
Qed.

Lemma deepcopy_Ok fuel x y : deepcopy fuel x = Ok y -> y = x.
Proof.
  revert x y. induction fuel as [|fuel IH]; intros x y; [done |].
  destruct x as [| | | |xs|kvs]; try (by intros [= <-]).
  - unfold deepcopy; fold deepcopy. intros H. inv_bind H. injection H as <-.
    f_equal. revert a E. induction xs as [|b xs IHxs]; intros ys E.
    + by injection E as <-.
    + inv_bind E. inv_bind E. injection E as <-.
      apply IH in E0 as ->. f_equal. by apply IHxs.
  - unfold deepcopy; fold deepcopy. intros H. inv_bind H. injection H as <-.
    f_equal. revert a E. induction kvs as [|[k v] kvs IHkvs]; intros ys E.
    + by injection E as <-.
    + inv_bind E. inv_bind E. injection E as <-.
      apply IH in E0 as ->. f_equal. by apply IHkvs.
Qed.

(** The delta of an object root: built by [_flatten_object] from nothing. *)
Lemma _flatten_object_root fuel schema t r definitions :
  getitem schema sw.type_ = Ok (JStr sw.object_) ->
  getitem schema sw.title = Ok (JStr t) ->
  _flatten fuel schema = Ok (r, definitions) ->
  exists schema',
    _flatten_object fuel schema [] = Ok (JStr t, schema', definitions) /\
    dict_get t definitions = Some schema' /\
    NoDup (dict_keys definitions).
Proof.
  intros Hty Ht H. unfold _flatten in H. inv_bind H.
  apply deepcopy_Ok in E as ->. rewrite Hty in H. simpl in H.
  rewrite ?object_is_object in H. inv_bind H.
  destruct a as [[key schema'] defs]. inv_bind H. injection H as <- <-.
  pose proof (_flatten_object_Ok _ _ _ _ _ _ E) as (t' & -> & Ht' & Hget).
  rewrite Ht in Ht'. injection Ht' as <-.
  exists schema'. split_and!; [done | done |].
  apply (proj1 (flatten_NoDup fuel) schema [] _ (NoDup_nil_2 (A:=string)) E).
Qed.

(** The table a call starts from has no part in how the call ends. *)
Lemma fields_loop_agree fo fa :
  (forall obj d1 d2, agree (fo obj d1) (fo obj d2)) ->
  (forall obj d1 d2, agree (fa obj d1) (fa obj d2)) ->
  forall its props d1 d2,
    agree (fields_loop fo fa its props d1) (fields_loop fo fa its props d2).
Proof.
  intros Hfo Hfa its.
  induction its as [|[field obj] its IH]; intros props d1 d2; [done |].
  simpl. destruct (getitem obj sw.type_) as [ty|e]; [simpl | done].
  destruct (py_eq_str ty sw.object_).
  - specialize (Hfo obj d1 d2).
    destruct (fo obj d1) as [[[k1 s1] d1']|e1],
             (fo obj d2) as [[[k2 s2] d2']|e2]; simpl in *; try done.
    injection Hfo as -> ->.
    destruct (ref_to k2) as [r|e]; [simpl; apply IH | done].
  - destruct (py_eq_str ty sw.array); [|apply IH].
    specialize (Hfa obj d1 d2).
    destruct (fa obj d1) as [[s1 d1']|e1],
             (fa obj d2) as [[s2 d2']|e2]; simpl in *; try done.
    subst. apply IH.
Qed.

Lemma flatten_agree fuel :
  (forall schema d1 d2,
     agree (_flatten_object fuel schema d1) (_flatten_object fuel schema d2)) /\
  (forall schema d1 d2,
     agree (_flatten_array fuel schema d1) (_flatten_array fuel schema d2)).
Proof.
  induction fuel as [|fuel [IHo IHa]]; [split; intros; done |].
  split; intros schema d1 d2.
  - rewrite !_flatten_object_unfold.
    destruct (getitem schema sw.properties) as [props|e]; [simpl | done].
    destruct (dict_items props) as [its|e]; [simpl | done].
    pose proof (fields_loop_agree _ _ IHo IHa its its d1 d2) as Hl.
    destruct (fields_loop _ _ its its d1) as [[p1 d1']|e1],
             (fields_loop _ _ its its d2) as [[p2 d2']|e2];
      simpl in *; try done.
    subst.
    destruct (setitem schema sw.properties (JDict p2)) as [s'|e];
      [simpl | done].
    destruct (_get_key s') as [key|e]; [simpl | done].
    destruct key; simpl; done.
  - rewrite !_flatten_array_unfold.
    destruct (getitem schema sw.items) as [its|e]; [simpl | done].
    destruct (getitem its sw.type_) as [ty|e]; [simpl | done].
    destruct (py_eq_str ty sw.object_).
    + specialize (IHo its d1 d2).
      destruct (_flatten_object fuel its d1) as [[[k1 s1] d1']|e1],
               (_flatten_object fuel its d2) as [[[k2 s2] d2']|e2];
        simpl in *; try done.
      injection IHo as -> ->.
      destruct (ref_to k2) as [r|e]; [simpl | done].
      destruct (setitem schema sw.items r); done.
    + destruct (py_eq_str ty sw.array); [|done].
      specialize (IHa its d1 d2).
      destruct (_flatten_array fuel its d1) as [[s1 d1']|e1],
               (_flatten_array fuel its d2) as [[s2 d2']|e2];
        simpl in *; try done.
      subst. destruct (setitem schema sw.items s2); done.
Qed.

(** A sibling registered later takes the entry of the earlier one. *)
Example test_sibling_collision :
  _flatten 10
    (JDict [("type", JStr "object"); ("title", JStr "x");
            ("properties", JDict [
               ("a", JDict [("type", JStr "object"); ("title", JStr "t");
                            ("properties", JDict [
                               ("p", JDict [("type", JStr "integer")])])]);
               ("b", JDict [("type", JStr "object"); ("title", JStr "t");
                            ("properties", JDict [
                               ("q", JDict [("type", JStr "string")])])])])]) =
  Ok (JDict [("$ref", JStr "#/definitions/x")],
      [("t", JDict [("type", JStr "object"); ("title", JStr "t");
                    ("properties", JDict [
                       ("q", JDict [("type", JStr "string")])])]);
       ("x", JDict [("type", JStr "object"); ("title", JStr "x");
                    ("properties", JDict [
                       ("a", JDict [("$ref", JStr "#/definitions/t")]);
                       ("b", JDict [("$ref", JStr "#/definitions/t")])])])]).
Proof. reflexivity. Qed.

(** C8: a title that is already in the table is no error: an object is
    flattened into a table with an entry under its title as it is into an
    empty one, raising in the one case what it raises in the other.  Within
    one fragment, whatever the table holds when an object is registered, the
    entry under its title is afterwards that object, as rewritten, and the
    only one.  Across deltas, two object fragments of one title give, merged
    in order, a table whose only entry under the title is the one of the
    later fragment. *)
Theorem title_collision_overwrites (fuel : nat) (t : string) :
  (forall schema definitions,
     NoDup (dict_keys definitions) ->
     match _flatten_object fuel schema definitions with
     | Ok (key, schema', definitions') =>
         exists d0, _flatten_object fuel schema [] = Ok (key, schema', d0) /\
         (key = JStr t ->
          getitem schema sw.title = Ok (JStr t) /\
          entries_under t definitions' = [(t, schema')])
     | Raise e => _flatten_object fuel schema [] = Raise e
     end) /\
  (forall x y rx dx ry dy,
     getitem x sw.type_ = Ok (JStr sw.object_) ->
     getitem x sw.title = Ok (JStr t) ->
     getitem y sw.type_ = Ok (JStr sw.object_) ->
     getitem y sw.title = Ok (JStr t) ->
     _flatten fuel x = Ok (rx, dx) ->
     _flatten fuel y = Ok (ry, dy) ->
     exists x' y',
       dict_get t dx = Some x' /\
       _flatten_object fuel y [] = Ok (JStr t, y', dy) /\
       flatten_all fuel [x; y] [] = Ok (dict_update (dict_update [] dx) dy) /\
       entries_under t (dict_update (dict_update [] dx) dy) = [(t, y')]).
Proof.
  split.
  - intros schema definitions Hnd.
    pose proof (proj1 (flatten_agree fuel) schema definitions []) as Hag.
    destruct (_flatten_object fuel schema definitions)
      as [[[key schema'] definitions']|e] eqn:H.
    + destruct (_flatten_object fuel schema []) as [[[k0 s0] d0]|e0];
        simpl in Hag; [|done].
      injection Hag as <- <-. exists d0. split; [done |]. intros ->.
      pose proof (_flatten_object_Ok _ _ _ _ _ _ H)
        as (t' & [= <-] & Ht & Hget).
      split; [done |]. apply entries_under_NoDup; [|done].
      apply (proj1 (flatten_NoDup fuel) _ _ _ Hnd H).
    + destruct (_flatten_object fuel schema []) as [[[k0 s0] d0]|e0];
        simpl in Hag; [done | by subst].
  - intros x y rx dx ry dy Hxty Hxt Hyty Hyt Hx Hy.
    pose proof (_flatten_object_root _ _ _ _ _ Hxty Hxt Hx) as (x' & _ & Hgx & _).
    pose proof (_flatten_object_root _ _ _ _ _ Hyty Hyt Hy)
      as (y' & Hoy & Hgy & Hndy).
    exists x', y'. split_and!; [done | done | |].
    + simpl. by rewrite Hx, Hy.
    + apply entries_under_NoDup.
      * apply dict_update_NoDup, dict_update_NoDup, NoDup_nil_2.
      * rewrite dict_update_get by done. by rewrite Hgy.
Qed.

Lemma title_collision_overwrites_witness :
  let a := JDict [("type", JStr "object"); ("title", JStr "t");
                  ("properties", JDict [("p", JDict [("type", JStr "integer")])])] in
  let b := JDict [("type", JStr "object"); ("title", JStr "t");
                  ("properties", JDict [("q", JDict [("type", JStr "string")])])] in
  (getitem b sw.title = Ok (JStr "t") /\
   entries_under "t" [("t", b)] = [("t", b)]) /\
  flatten_all 10 [a; b] [] = Ok [("t", b)].
Proof.
  intros a b. split.
  - pose proof (proj1 (title_collision_overwrites 10 "t") b [("t", a)]
                  (NoDup_singleton "t")) as H.
    vm_compute in H. destruct H as (d0 & _ & H). exact (H eq_refl).
  - destruct (proj2 (title_collision_overwrites 10 "t") a b
                (JDict [("$ref", JStr "#/definitions/t")]) [("t", a)]
                (JDict [("$ref", JStr "#/definitions/t")]) [("t", b)]
                eq_refl eq_refl eq_refl eq_refl eq_refl eq_refl)
      as (x' & y' & _ & _ & H & _).
    exact H.
Defined.

(** *** The flattener writes to its copy only *)

Section Locality.
Import Store.
Variable n : nat.

Lemma keeps_refl (h : heap) : keeps n h h.
Proof. split; [lia | done]. Qed.

Lemma keeps_trans (h1 h2 h3 : heap) :
  keeps n h1 h2 -> keeps n h2 h3 -> keeps n h1 h3.
Proof.
  intros [Hl1 H1] [Hl2 H2]. split; [lia |].
  intros l Hl. by rewrite H2, H1.
Qed.

Lemma local_ret {A : Type} (a : A) (post : A -> Prop) :
  post a -> local n (ret a) post.
Proof.
  intros Hp h Hn Hy. simpl. split_and!; [apply keeps_refl | done |].
  by intros a' [= <-].
Qed.

Lemma local_raise {A : Type} (e : exn) (post : A -> Prop) :
  local n (raise e) post.
Proof.
  intros h Hn Hy. simpl. split_and!; [apply keeps_refl | done | done].
Qed.

Lemma local_bind {A B : Type} (m : M A) (k : A -> M B)
  (P : A -> Prop) (Q : B -> Prop) :
  local n m P -> (forall a, P a -> local n (k a) Q) -> local n (mbind m k) Q.
Proof.
  intros Hm Hk h Hn Hy. unfold mbind.
  destruct (Hm h Hn Hy) as (Hkeep & Hy' & Hpost).
  destruct (m h) as [[a|e] h'] eqn:E; simpl in *; [|done].
  assert (n <= length h') as Hn' by (destruct Hkeep; lia).
  destruct (Hk a (Hpost a eq_refl) h' Hn' Hy') as (Hkeep' & Hy'' & Hpost').
  split_and!; [by eapply keeps_trans | done | done].
Qed.

Lemma local_weaken {A : Type} (m : M A) (P Q : A -> Prop) :
  local n m P -> (forall a, P a -> Q a) -> local n m Q.
Proof.
  intros Hm HPQ h Hn Hy. destruct (Hm h Hn Hy) as (? & ? & Hpost).
  split_and!; [done | done |]. intros a Ha. by apply HPQ, Hpost.
Qed.

Lemma local_alloc (o : obj) :
  young_obj n o -> local n (alloc o) (young_val n).
Proof.
  intros Ho h Hn Hy. unfold alloc. simpl. split_and!.
  - split; [rewrite length_app; lia |].
    intros l Hl. apply lookup_app_l. lia.
  - intros l o' Hl Hlook.
    destruct (decide (l < length h)) as [Hlt|Hge].
    + rewrite lookup_app_l in Hlook by done. exact (Hy l o' Hl Hlook).
    + rewrite lookup_app_r in Hlook by lia.
      destruct (l - length h) as [|j]; simpl in Hlook; [|done].
      by injection Hlook as <-.
  - by intros a [= <-].
Qed.

Lemma local_load_any (l : loc) : local n (load l) (fun _ => True).
Proof.
  intros h Hn Hy. unfold load.
  destruct (h !! l); simpl; split_and!; try apply keeps_refl; done.
Qed.

Lemma local_load (l : loc) : n <= l -> local n (load l) (young_obj n).
Proof.
  intros Hl h Hn Hy. unfold load.
  destruct (h !! l) as [o|] eqn:E; simpl;
    (split_and!; [apply keeps_refl | done |]); [|done].
  intros a [= <-]. exact (Hy l o Hl E).
Qed.

Lemma local_store (l : loc) (o : obj) :
  n <= l -> young_obj n o -> local n (store l o) (fun _ => True).
Proof.
  intros Hl Ho h Hn Hy. unfold store. simpl. split_and!; [| |done].
  - split; [by rewrite length_insert |].
    intros l' Hl'. apply list_lookup_insert_ne. lia.
  - intros l' o' Hl' Hlook.
    destruct (decide (l = l')) as [<-|Hne].
    + destruct (decide (l < length h)) as [Hlt|Hge].
      * rewrite list_lookup_insert_eq in Hlook by done.
        by injection Hlook as <-.
      * rewrite list_insert_ge in Hlook by lia. exact (Hy l o' Hl' Hlook).
    + rewrite list_lookup_insert_ne in Hlook by done.
      exact (Hy l' o' Hl' Hlook).
Qed.

Lemma young_dict_get (k : string) (kvs : list (string * val)) (v : val) :
  Forall (fun kv => young_val n kv.2) kvs ->
  dict_get k kvs = Some v -> young_val n v.
Proof.
  induction 1 as [|[k' v'] kvs Hv _ IH]; simpl; [done |].
  destruct (decide (k' = k)); [by intros [= <-] | done].
Qed.

Lemma young_dict_set (k : string) (kvs : list (string * val)) (v : val) :
  Forall (fun kv => young_val n kv.2) kvs -> young_val n v ->
  Forall (fun kv => young_val n kv.2) (dict_set k v kvs).
Proof.
  intros Hall Hv. induction Hall as [|[k' v'] kvs Hv' Hall IH]; simpl.
  - by constructor.
  - destruct (decide (k' = k)); constructor; done.
Qed.

Lemma local_getitem (x : val) (k : string) :
  young_val n x -> local n (getitem x k) (young_val n).
Proof.
  intros Hx. destruct x as [| | | |l]; try apply local_raise.
  simpl in Hx. unfold getitem.
  eapply local_bind; [by apply local_load |].
  intros [kvs|xs] Ho; [|apply local_raise].
  destruct (dict_get k kvs) as [v|] eqn:E; [|apply local_raise].
  apply local_ret. by eapply young_dict_get.
Qed.

Lemma local_setitem (x : val) (k : string) (v : val) :
  young_val n x -> young_val n v ->
  local n (setitem x k v) (fun _ => True).
Proof.
  intros Hx Hv. destruct x as [| | | |l]; try apply local_raise.
  simpl in Hx. unfold setitem.
  eapply local_bind; [by apply local_load |].
  intros [kvs|xs] Ho; [|apply local_raise].
  apply local_store; [done |]. by apply young_dict_set.
Qed.

Lemma local_append (x : val) (v : val) :
  young_val n x -> young_val n v -> local n (append x v) (fun _ => True).
Proof.
  intros Hx Hv. destruct x as [| | | |l]; try apply local_raise.
  simpl in Hx. unfold append.
  eapply local_bind; [by apply local_load |].
  intros [kvs|xs] Ho; [apply local_raise |].
  apply local_store; [done |]. simpl in *.
  apply Forall_app. split; [done | by constructor].
Qed.

Lemma local_items_len (x : val) :
  young_val n x -> local n (items_len x) (fun _ => True).
Proof.
  intros Hx. destruct x as [| | | |l]; try apply local_raise.
  simpl in Hx. unfold items_len.
  eapply local_bind; [by apply local_load |].
  intros [kvs|xs] Ho; [by apply local_ret | apply local_raise].
Qed.

Lemma local_items_next (x : val) (size i : nat) :
  young_val n x ->
  local n (items_next x size i)
    (fun nxt => match nxt with
                | Some kv => young_val n kv.2
                | None => True
                end).
Proof.
  intros Hx. destruct x as [| | | |l]; try apply local_raise.
  simpl in Hx. unfold items_next.
  eapply local_bind; [by apply local_load |].
  intros [kvs|xs] Ho; [|apply local_raise].
  destruct (decide (length kvs = size)); [|apply local_raise].
  apply local_ret. destruct (kvs !! i) as [kv|] eqn:E; [|done].
  simpl in Ho. rewrite Forall_lookup in Ho. by eapply Ho.
Qed.

Lemma local_ref_to (key : val) : local n (ref_to key) (young_val n).
Proof.
  unfold ref_to. eapply local_bind with (P := fun _ => True).
  - destruct key; try apply local_raise. by apply local_ret.
  - intros r _. apply local_alloc. simpl. by repeat constructor.
Qed.

Lemma local_register (definitions key schema : val) :
  young_val n definitions -> young_val n schema ->
  local n (register definitions key schema) (fun _ => True).
Proof.
  intros Hd Hs. destruct key; try apply local_raise.
  by apply local_setitem.
Qed.

Lemma young_memo_insert (memo : gmap loc loc) (l l' : loc) :
  young_memo n memo -> n <= l' -> young_memo n (<[l := l']> memo).
Proof.
  intros Hm Hl' k k' Hk. destruct (decide (l = k)) as [->|Hne].
  - rewrite lookup_insert_eq in Hk. by injection Hk as <-.
  - rewrite lookup_insert_ne in Hk by done. by eapply Hm.
Qed.

Lemma local_deepcopy (fuel : nat) (x : val) (memo : gmap loc loc) :
  young_memo n memo ->
  local n (deepcopy fuel x memo)
    (fun r => young_val n r.1 /\ young_memo n r.2).
Proof.
  revert x memo. induction fuel as [|fuel IH]; intros x memo Hm;
    [apply local_raise |].
  destruct x as [| | | |l]; try (by apply local_ret).
  simpl. destruct (memo !! l) as [l'|] eqn:E.
  { apply local_ret. split; [by eapply Hm | done]. }
  eapply local_bind; [apply local_load_any |].
  intros [kvs|xs] _.
  - eapply local_bind; [apply local_alloc; constructor |].
    intros y Hy.
    set (memo' := match y with VRef l' => <[l:=l']> memo | _ => memo end).
    assert (young_memo n memo') as Hm'.
    { destruct y; try done. by apply young_memo_insert. }
    clearbody memo'. clear Hm memo E.
    eapply local_bind with (P := young_memo n);
      [|intros m' Hm''; by apply local_ret].
    revert memo' Hm'. induction kvs as [|[k v] kvs IHkvs]; intros memo' Hm'.
    + by apply local_ret.
    + eapply local_bind; [by apply IH |].
      intros r [Hr1 Hr2].
      eapply local_bind; [by apply local_setitem |].
      intros _ _. by apply IHkvs.
  - eapply local_bind; [apply local_alloc; constructor |].
    intros y Hy.
    set (memo' := match y with VRef l' => <[l:=l']> memo | _ => memo end).
    assert (young_memo n memo') as Hm'.
    { destruct y; try done. by apply young_memo_insert. }
    clearbody memo'. clear Hm memo E.
    eapply local_bind with (P := young_memo n);
      [|intros m' Hm''; by apply local_ret].
    revert memo' Hm'. induction xs as [|a xs IHxs]; intros memo' Hm'.
    + by apply local_ret.
    + eapply local_bind; [by apply IH |].
      intros r [Hr1 Hr2].
      eapply local_bind; [by apply local_append |].
      intros _ _. by apply IHxs.
Qed.

Lemma local_flatten (fuel : nat) :
  (forall schema definitions,
     young_val n schema -> young_val n definitions ->
     local n (Store._flatten_object fuel schema definitions) (young_val n)) /\
  (forall schema definitions,
     young_val n schema -> young_val n definitions ->
     local n (Store._flatten_array fuel schema definitions) (fun _ => True)).
Proof.
  induction fuel as [|fuel [IHo IHa]];
    [split; intros; apply local_raise |].
  split; intros schema definitions Hs Hd.
  - simpl. eapply local_bind; [by apply local_getitem |].
    intros props Hprops.
    eapply local_bind; [by apply local_items_len |].
    intros size _.
    eapply local_bind with (P := fun _ => True).
    + match goal with
      | |- local _ (?loop size 0) _ =>
          assert (forall todo i, local n (loop todo i) (fun _ => True))
            as Hloop; [|apply Hloop]
      end.
      induction todo as [|todo IHtodo]; intros i.
      * eapply local_bind; [by apply local_items_next |].
        intros nxt _. by apply local_ret.
      * eapply local_bind; [by apply local_items_next |].
        intros [[field obj]|] Hobj; [|by apply local_ret].
        simpl in Hobj.
        eapply local_bind; [by apply local_getitem |].
        intros ty _.
        eapply local_bind with (P := fun _ => True); [|intros _ _; apply IHtodo].
        destruct (Store.py_eq_str ty sw.object_).
        -- eapply local_bind; [by apply IHo |].
           intros obj_key _.
           eapply local_bind; [apply local_ref_to |].
           intros r Hr.
           eapply local_bind; [by apply local_getitem |].
           intros props' Hprops'. by apply local_setitem.
        -- destruct (Store.py_eq_str ty sw.array);
             [by apply IHa | by apply local_ret].
    + intros _ _. eapply local_bind; [by apply local_getitem |].
      intros key Hkey.
      eapply local_bind; [by apply local_register |].
      intros _ _. by apply local_ret.
  - simpl. eapply local_bind; [by apply local_getitem |].
    intros its Hits.
    eapply local_bind; [by apply local_getitem |].
    intros ty _. destruct (Store.py_eq_str ty sw.object_).
    + eapply local_bind; [by apply local_getitem |].
      intros its' Hits'.
      eapply local_bind; [by apply IHo |].
      intros obj_key _.
      eapply local_bind; [apply local_ref_to |].
      intros r Hr. by apply local_setitem.
    + eapply local_bind; [by apply local_getitem |].
      intros its' Hits'.
      eapply local_bind; [by apply local_getitem |].
      intros ty' _. destruct (Store.py_eq_str ty' sw.array).
      * eapply local_bind; [by apply local_getitem |].
        intros its'' Hits''. by apply IHa.
      * by apply local_ret.
Qed.

Lemma local_flatten_root (fuel : nat) (schema : val) :
  local n (Store._flatten fuel schema) (fun _ => True).
Proof.
  unfold Store._flatten.
  eapply local_bind; [by apply local_deepcopy |].
  intros r [Hr _].
  eapply local_bind; [by apply local_alloc; constructor |].
  intros definitions Hd.
  eapply local_bind; [by apply local_getitem |].
  intros ty _. destruct (Store.py_eq_str ty sw.object_).
  - eapply local_bind; [by apply (proj1 (local_flatten fuel)) |].
    intros key _.
    eapply local_bind; [apply local_ref_to |].
    intros r' _. by apply local_ret.
  - eapply local_bind; [by apply local_getitem |].
    intros ty' _. destruct (Store.py_eq_str ty' sw.array).
    + eapply local_bind; [by apply (proj2 (local_flatten fuel)) |].
      intros _ _. by apply local_ret.
    + by apply local_ret.
Qed.

End Locality.

Lemma value_of_keeps (k : nat) (h h' : list Store.obj) (v : Store.val) :
  (forall l, l < length h -> h' !! l = h !! l) ->
  closed h -> val_in h v ->
  Store.value_of k h' v = Store.value_of k h v.
Proof.
  intros Hkeep Hclosed. revert v.
  induction k as [|k IH]; intros v Hv; [done |].
  destruct v as [| | | |l]; try done.
  simpl in Hv. cbn [Store.value_of]. rewrite (Hkeep l Hv).
  destruct (h !! l) as [[kvs|xs]|] eqn:E; [| |done].
  - f_equal. specialize (Hclosed l _ E). simpl in Hclosed. clear E.
    induction Hclosed as [|[key a] kvs Ha _ IHkvs]; [done |].
    simpl in Ha. by rewrite (IH a Ha), IHkvs.
  - f_equal. specialize (Hclosed l _ E). simpl in Hclosed. clear E.
    induction Hclosed as [|a xs Ha _ IHxs]; [done |].
    by rewrite (IH a Ha), IHxs.
Qed.

(** C9: whatever the store and the fragment, and however the call ends,
    every object that was in the store when [_flatten] was called is the
    same object afterwards; so the caller's fragment, and any value of the
    caller's, reads after the call as it read before.  All writes go to the
    copy and to objects made during the call. *)
Theorem flatten_leaves_input (fuel : nat) (schema : Store.val)
  (h : list Store.obj) :
  (forall l, l < length h ->
     (Store._flatten fuel schema h).2 !! l = h !! l) /\
  (forall k v, closed h -> val_in h v ->
     Store.value_of k (Store._flatten fuel schema h).2 v =
     Store.value_of k h v).
Proof.
  assert (young (length h) h) as Hy.
  { intros l o Hl Hlook. apply lookup_lt_Some in Hlook. lia. }
  destruct (local_flatten_root (length h) fuel schema h (le_n _) Hy)
    as ([_ Hkeep] & _ & _).
  split; [done |]. intros k v Hc Hv. by apply value_of_keeps.
Qed.

Lemma flatten_leaves_input_witness :
  let h := (Store.build test_flatten_input []).2 in
  Store.value_of 10 (Store._flatten 10 (Store.VRef 5) h).2 (Store.VRef 5) =
  Some test_flatten_input.
Proof.
  intros h.
  rewrite (proj2 (flatten_leaves_input 10 (Store.VRef 5) h) 10 (Store.VRef 5)).
  - reflexivity.
  - intros l o. do 6 (destruct l as [|l]; [intros [= <-]; vm_compute;
                                           repeat constructor |]).
    intros Hl. vm_compute in Hl. by destruct l.
  - vm_compute. lia.
Defined.

(** *** The path translator *)

Lemma suffixes_self (s : string) : s ∈ suffixes s.
Proof. destruct s; simpl; apply elem_of_cons; by left. Qed.

Lemma suffixes_trans (s1 s2 s3 : string) :
  s1 ∈ suffixes s2 -> s2 ∈ suffixes s3 -> s1 ∈ suffixes s3.
Proof.
  revert s1 s2. induction s3 as [|c s3 IH]; intros s1 s2 H12 H23.
  - simpl in H23. apply list_elem_of_singleton in H23 as ->. done.
  - simpl in H23. apply elem_of_cons in H23 as [->|H23]; [done |].
    simpl. apply elem_of_cons. right. by eapply IH.
Qed.

Lemma suffixes_tail (c : ascii) (s : string) : s ∈ suffixes (String c s).
Proof. simpl. apply elem_of_cons. right. apply suffixes_self. Qed.

Lemma suffixes_chars (s' s : string) (c : ascii) :
  s' ∈ suffixes s -> c ∈ chars s' -> c ∈ chars s.
Proof.
  induction s as [|c0 s IH]; simpl; intros H Hc.
  - apply list_elem_of_singleton in H as ->. done.
  - apply elem_of_cons in H as [->|H]; [done |].
    apply elem_of_cons. right. by apply IH.
Qed.

Lemma run_suffixes_self (s : string) : s ∈ run_suffixes s.
Proof. destruct s; simpl; apply elem_of_cons; by left. Qed.

Lemma run_suffixes_trans (s1 s2 s3 : string) :
  s1 ∈ run_suffixes s2 -> s2 ∈ run_suffixes s3 -> s1 ∈ run_suffixes s3.
Proof.
  revert s1 s2. induction s3 as [|c s3 IH]; intros s1 s2 H12 H23.
  - simpl in H23. apply list_elem_of_singleton in H23 as ->. done.
  - simpl in H23. apply elem_of_cons in H23 as [->|H23]; [done |].
    simpl. apply elem_of_cons. right.
    destruct (decide (c = "010"%char));
      [by apply elem_of_nil in H23 | by eapply IH].
Qed.

Lemma run_suffixes_tail (c : ascii) (s : string) :
  c <> "010"%char -> s ∈ run_suffixes (String c s).
Proof.
  intros Hc. simpl. apply elem_of_cons. right.
  rewrite decide_False by done. apply run_suffixes_self.
Qed.

Lemma rmatch_dot_plus {R : Type} (c : ascii) (s : string) (gs : groups)
  (k : string -> groups -> option R) :
  rmatch DotPlusLazy (String c s) gs k =
  if decide (c = "010"%char) then None
  else match k s gs with
       | Some x => Some x
       | None => rmatch DotPlusLazy s gs k
       end.
Proof. reflexivity. Qed.

(** A continuation that fails wherever the match can end makes the match
    fail: a match stays on one line. *)
Lemma rmatch_fail {R : Type} (r : regex) (s : string) (gs : groups)
  (k : string -> groups -> option R) :
  newline_free r ->
  (forall s' gs', s' ∈ run_suffixes s -> k s' gs' = None) ->
  rmatch r s gs k = None.
Proof.
  revert s gs k. induction r as [c| |r1 IH1 r2 IH2|r1 IH1|name r1 IH1];
    intros s gs k Hnl Hk.
  - simpl. destruct s as [|c' s']; [done |].
    destruct (decide (c' = c)) as [->|]; [|done].
    by apply Hk, run_suffixes_tail.
  - induction s as [|c s IHs]; [done |].
    rewrite rmatch_dot_plus.
    destruct (decide (c = "010"%char)); [done |].
    rewrite Hk by by apply run_suffixes_tail. apply IHs.
    intros s' gs' Hs'. apply Hk. eapply run_suffixes_trans; [exact Hs' |].
    by apply run_suffixes_tail.
  - simpl. destruct Hnl as [Hnl1 Hnl2].
    apply IH1; [done |]. intros s' gs' Hs'.
    apply IH2; [done |]. intros s'' gs'' Hs''.
    apply Hk. by eapply run_suffixes_trans.
  - simpl. rewrite IH1 by done. apply Hk, run_suffixes_self.
  - simpl. apply IH1; [done |]. intros s' gs' Hs'. by apply Hk.
Qed.

Lemma closes_false {R : Type} (s q : string) (gs : groups)
  (k : string -> groups -> option R) :
  closes s = false -> q ∈ run_suffixes s ->
  rmatch (Lit ">") q gs k = None.
Proof.
  induction s as [|c s IH]; simpl; intros Hc Hq.
  - apply list_elem_of_singleton in Hq as ->. done.
  - destruct (decide (c = "010"%char)) as [->|Hnl].
    + apply list_elem_of_singleton in Hq as ->. done.
    + destruct (decide (c = ">"%char)) as [|Hgt]; [done |].
      apply elem_of_cons in Hq as [->|Hq]; [|by apply IH].
      simpl. by rewrite decide_False.
Qed.

Lemma match_here_no_placeholder (s : string) :
  placeholder_here s = false -> match_here _PATH_REGEX s = None.
Proof.
  destruct s as [|c0 [|c s]]; [done | |].
  { intros _. unfold match_here. simpl.
    destruct (decide (c0 = "<"%char)); done. }
  unfold placeholder_here, match_here, _PATH_REGEX.
  change (rmatch (Cat (Lit "<") ?r) (String c0 ?s1) [] ?k)
    with (if decide (c0 = "<"%char) then rmatch r s1 [] k else None).
  destruct (decide (c0 = "<"%char)) as [->|]; [|done].
  intros Hcl.
  change (rmatch (Cat ?o (Cat (Group ?n DotPlusLazy) ?d)) ?s1 [] ?k)
    with (rmatch o s1 []
            (fun p g =>
               rmatch DotPlusLazy p g
                 (fun q g' =>
                    rmatch d q (set_group n (consumed p q) g') k))).
  apply rmatch_fail; [simpl; split_and!; done |].
  intros p g Hp. destruct p as [|cp p']; [done |].
  rewrite rmatch_dot_plus.
  destruct (decide (cp = "010"%char)) as [|Hcp]; [done |].
  assert (c <> "010"%char /\ closes s = false /\ p' ∈ run_suffixes s)
    as (Hc & Hs & Hp').
  { destruct (decide (c = "010"%char)) as [->|Hc].
    - simpl in Hp. apply list_elem_of_singleton in Hp. congruence.
    - split_and!; [done | done |].
      simpl in Hp. rewrite decide_False in Hp by done.
      apply elem_of_cons in Hp as [[= -> ->]|Hp]; [apply run_suffixes_self |].
      eapply run_suffixes_trans; [|exact Hp]. by apply run_suffixes_tail. }
  rewrite (closes_false s p') by done.
  apply rmatch_fail; [done |]. intros q g' Hq.
  apply (closes_false s q); [done |]. by eapply run_suffixes_trans.
Qed.

Lemma has_placeholder_false (s s' : string) :
  has_placeholder s = false -> s' ∈ suffixes s -> placeholder_here s' = false.
Proof.
  induction s as [|c s IH]; intros H Hs'.
  - simpl in Hs'. apply list_elem_of_singleton in Hs' as ->. done.
  - cbn [has_placeholder] in H. apply orb_false_iff in H as [Hh Ht].
    simpl in Hs'. apply elem_of_cons in Hs' as [->|Hs']; [done | by apply IH].
Qed.

Lemma pieces_no_match (r : regex) (s : string) (fuel : nat) :
  String.length s < fuel ->
  (forall s', s' ∈ suffixes s -> match_here r s' = None) ->
  pieces fuel r s = map Skipped (chars s).
Proof.
  revert fuel. induction s as [|c s IH]; intros fuel Hf Hm.
  - destruct fuel as [|fuel]; [simpl in Hf; lia |].
    simpl. by rewrite (Hm "") by apply suffixes_self.
  - destruct fuel as [|fuel]; [simpl in Hf; lia |].
    simpl. rewrite (Hm (String c s)) by apply suffixes_self.
    f_equal. apply IH; [simpl in Hf; lia |].
    intros s' Hs'. apply Hm. eapply suffixes_trans; [exact Hs' |].
    apply suffixes_tail.
Qed.

Lemma sub_skipped (repl : groups -> string) (s : string) :
  foldr (fun p out =>
           match p with
           | Matched gs => repl gs +:+ out
           | Skipped c => String c out
           end) "" (map Skipped (chars s)) = s.
Proof. induction s as [|c s IH]; simpl; [done | by rewrite IH]. Qed.

Lemma finditer_skipped (s : string) :
  omap (fun p => match p with Matched gs => Some gs | Skipped _ => None end)
       (map Skipped (chars s)) = [].
Proof. induction s as [|c s IH]; simpl; done. Qed.

(** The other way round: where a placeholder starts, the expression
    matches, so a path with a placeholder has an argument. *)
Lemma rmatch_name_closes {R : Type} (c : ascii) (s : string) (gs : groups)
  (k : string -> groups -> option R) :
  c <> "010"%char -> closes s = true ->
  (forall q g, is_Some (k (String ">" q) g)) ->
  is_Some (rmatch DotPlusLazy (String c s) gs k).
Proof.
  revert c. induction s as [|c1 s IH]; intros c Hc Hcl Hk; [done |].
  rewrite rmatch_dot_plus, decide_False by done.
  simpl in Hcl. destruct (decide (c1 = "010"%char)) as [|Hc1]; [done |].
  destruct (decide (c1 = ">"%char)) as [->|Hgt].
  - destruct (Hk s gs) as [x ->]. eauto.
  - destruct (k (String c1 s) gs); [eauto | by apply IH].
Qed.

Lemma match_here_placeholder (s : string) :
  placeholder_here s = true -> is_Some (match_here _PATH_REGEX s).
Proof.
  destruct s as [|c0 [|c s]]; [done | done |].
  unfold placeholder_here, match_here, _PATH_REGEX.
  destruct (decide (c0 = "<"%char)) as [->|]; [|done].
  destruct (decide (c = "010"%char)) as [|Hc]; [done |].
  intros Hcl.
  change (rmatch (Cat (Lit "<") (Cat (Opt ?o) ?r)) (String "<" ?s1) [] ?k)
    with (match rmatch o s1 [] (fun p g => rmatch r p g k) with
          | Some x => Some x
          | None => rmatch r s1 [] k
          end).
  destruct (rmatch _ (String c s) [] _) as [x|]; [eauto |].
  change (rmatch (Cat (Group ?n DotPlusLazy) ?d) ?p [] ?k)
    with (rmatch DotPlusLazy p []
            (fun q g' => rmatch d q (set_group n (consumed p q) g') k)).
  apply rmatch_name_closes; [done | done |].
  intros q g. simpl. eauto.
Qed.

Lemma pieces_placeholder (s : string) (fuel : nat) :
  String.length s < fuel -> has_placeholder s = true ->
  exists gs, Matched gs ∈ pieces fuel _PATH_REGEX s.
Proof.
  revert fuel. induction s as [|c s IH]; intros fuel Hf Hp; [done |].
  destruct fuel as [|fuel]; [simpl in Hf; lia |].
  cbn [has_placeholder] in Hp. cbn [pieces].
  destruct (match_here _PATH_REGEX (String c s)) as [[gs rest]|] eqn:E.
  - exists gs. destruct (decide _); apply elem_of_cons; by left.
  - apply orb_true_iff in Hp as [Hp|Hp].
    + apply match_here_placeholder in Hp as [x Hx]. congruence.
    + destruct (IH fuel) as [gs Hgs]; [simpl in Hf; lia | done |].
      exists gs. apply elem_of_cons. by right.
Qed.

Lemma has_placeholder_argument (path : string) :
  has_placeholder path = true -> (_format_path_for_swagger path).2 <> [].
Proof.
  intros Hp. unfold _format_path_for_swagger, finditer.
  destruct (pieces_placeholder path (S (String.length path)))
    as [gs Hgs]; [lia | done |].
  generalize dependent (pieces (S (String.length path)) _PATH_REGEX path).
  intros ps Hgs Hnil. cbn [snd] in Hnil. apply map_eq_nil in Hnil.
  assert (gs ∈ omap (fun p => match p with
                              | Matched gs => Some gs
                              | Skipped _ => None
                              end) ps) as Hin.
  { apply list_elem_of_omap. by exists (Matched gs). }
  rewrite Hnil in Hin. by apply elem_of_nil in Hin.
Qed.

(** C7: the pattern of the test translates to the wire path and to its two
    arguments in order, the untyped one as a [string]; and a pattern without
    a placeholder translates to itself, with no arguments. *)
Theorem format_path_for_swagger_spec :
  _format_path_for_swagger "/projects/<uuid:project_uid>/foos/<foo_uid>" =
    ("/projects/{project_uid}/foos/{foo_uid}",
     [PathArgument (Some "project_uid") "uuid";
      PathArgument (Some "foo_uid") "string"]) /\
  forall path : string,
    has_placeholder path = false ->
    _format_path_for_swagger path = (path, []).
Proof.
  split; [vm_compute; reflexivity |].
  intros path Hp.
  assert (pieces (S (String.length path)) _PATH_REGEX path =
          map Skipped (chars path)) as Hpieces.
  { apply pieces_no_match; [lia |]. intros s' Hs'.
    apply match_here_no_placeholder. by eapply has_placeholder_false. }
  unfold _format_path_for_swagger, finditer, sub. rewrite Hpieces.
  by rewrite sub_skipped, finditer_skipped.
Qed.

Lemma format_path_for_swagger_spec_witness :
  _format_path_for_swagger "/health" = ("/health", []) /\
  _format_path_for_swagger "/a>b/<>" = ("/a>b/<>", []).
Proof.
  split.
  - apply (proj2 format_path_for_swagger_spec "/health"). reflexivity.
  - apply (proj2 format_path_for_swagger_spec "/a>b/<>"). reflexivity.
Defined.

(** *** Security of a route *)

Lemma dict_get_set_inv {V : Type} (k k' : string) (v x : V)
  (d : list (string * V)) :
  dict_get k' (dict_set k v d) = Some x ->
  (k' = k /\ x = v) \/ (k' <> k /\ dict_get k' d = Some x).
Proof.
  destruct (decide (k = k')) as [->|Hne].
  - rewrite dict_get_set_eq. intros [= <-]. by left.
  - rewrite dict_get_set_ne by done. intros H. right. split; [congruence | done].
Qed.

Section GeneratorFacts.
Variable recursion_limit : nat.
Variable self : SwaggerV2Generator.

Lemma path_definition_unfold (path_args : list _PathArgument)
  (methods : list (string * PathDefinition)) :
  path_definition recursion_limit self path_args methods =
  (pd <- match path_args with
         | [] => Ok []
         | _ =>
             ps <- path_parameters self path_args ;;
             Ok [(sw.parameters, JList ps)]
         end ;;
   methods_loop (operation recursion_limit self) methods pd).
Proof. reflexivity. Qed.

Lemma operation_security (d : PathDefinition) (op : dict) :
  operation recursion_limit self d = Ok op -> security_of self d op.
Proof.
  unfold operation, security_of. intros H. inv_bind H. inv_bind H.
  set (op0 := [(sw.operation_id, JStr (handler_title (func d)));
               (sw.responses, JDict a)]) in H.
  set (op1 := match handler_doc (func d) with
              | Some "" | None => op0
              | Some doc => dict_set sw.description (JStr doc) op0
              end) in H.
  set (op2 := match a0 with
              | [] => op1
              | _ => dict_set sw.parameters (JList a0) op1
              end) in H.
  assert (dict_get sw.security op2 = None) as Hnone.
  { assert (dict_get sw.security op1 = None) as H1.
    { subst op1. destruct (handler_doc (func d)) as [[|c doc]|]; try done. }
    subst op2. destruct a0; [done |].
    by rewrite dict_get_set_ne. }
  destruct (authenticator d) as [| |au].
  - by injection H as <-.
  - injection H as <-. apply dict_get_set_eq.
  - inv_bind H. injection H as <-. unfold _get_security in E1.
    destruct (authenticator_converters self !! authenticator_class au)
      as [converter|] eqn:Ec; [|done].
    exists converter. split; [done |].
    destruct (converter au) as [nm def]. injection E1 as <-.
    apply dict_get_set_eq.
Qed.

Lemma methods_loop_entries (Q : string -> json -> Prop)
  (methods : list (string * PathDefinition)) (acc pd : dict) :
  (forall m v, dict_get m acc = Some v -> Q m v) ->
  (forall method d op,
     (method, d) ∈ methods -> operation recursion_limit self d = Ok op ->
     Q (lower method) (JDict op)) ->
  methods_loop (operation recursion_limit self) methods acc = Ok pd ->
  (forall method d, (method, d) ∈ methods ->
     exists op, operation recursion_limit self d = Ok op) /\
  forall m v, dict_get m pd = Some v -> Q m v.
Proof.
  revert acc. induction methods as [|[method d] methods IH];
    intros acc Hacc HQ H.
  - injection H as <-. split; [|done].
    intros method d Hin. by apply elem_of_nil in Hin.
  - simpl in H. inv_bind H.
    destruct (IH (dict_set (lower method) (JDict a) acc)) as [Hops Hent];
      [| |done|].
    + intros m v Hget. apply dict_get_set_inv in Hget as [[-> ->]|[_ Hget]];
        [|by apply Hacc].
      apply (HQ method d a); [apply elem_of_cons; by left | done].
    + intros method' d' op Hin. apply HQ. apply elem_of_cons. by right.
    + split; [|done].
      intros method' d' Hin. apply elem_of_cons in Hin as [[= -> ->]|Hin];
        [eauto | by eapply Hops].
Qed.

(** The entries of a path definition: the path parameters, or the operation
    of one of the methods. *)
Lemma path_definition_entries (path_args : list _PathArgument)
  (methods : list (string * PathDefinition)) (pd : dict) :
  path_definition recursion_limit self path_args methods = Ok pd ->
  (forall method d, (method, d) ∈ methods ->
     exists op, operation recursion_limit self d = Ok op) /\
  forall m v, dict_get m pd = Some v ->
    (m = sw.parameters /\ exists ps, v = JList ps) \/
    exists method d op,
      (method, d) ∈ methods /\ m = lower method /\
      operation recursion_limit self d = Ok op /\ v = JDict op.
Proof.
  rewrite path_definition_unfold. intros H. inv_bind H.
  eapply methods_loop_entries; [| |exact H].
  - destruct path_args; [injection E as <-; done |].
    inv_bind E. injection E as <-. intros m v. simpl.
    destruct (decide (sw.parameters = m)) as [<-|]; [|done].
    intros [= <-]. left. eauto.
  - intros method d op Hin Hop. right. by exists method, d, op.
Qed.

End GeneratorFacts.

#[local] Arguments _format_path_for_swagger : simpl never.
#[local] Arguments path_definition : simpl never.
#[local] Arguments operation : simpl never.

Section PathsFacts.
Variable recursion_limit : nat.
Variable self : SwaggerV2Generator.

Lemma _get_paths_from_cons (path : string)
  (methods : list (string * PathDefinition)) (paths : route_table)
  (acc : dict) :
  _get_paths_from recursion_limit self ((path, methods) :: paths) acc =
  (pd <- path_definition recursion_limit self
           (_format_path_for_swagger path).2 methods ;;
   _get_paths_from recursion_limit self paths
     (dict_set (_format_path_for_swagger path).1 (JDict pd) acc)).
Proof. reflexivity. Qed.

Lemma _get_paths_from_entries (Q : string -> json -> Prop)
  (paths : route_table) (acc out : dict) :
  (forall sp v, dict_get sp acc = Some v -> Q sp v) ->
  (forall path methods pd,
     (path, methods) ∈ paths ->
     path_definition recursion_limit self
       (_format_path_for_swagger path).2 methods = Ok pd ->
     Q (_format_path_for_swagger path).1 (JDict pd)) ->
  _get_paths_from recursion_limit self paths acc = Ok out ->
  (forall path methods, (path, methods) ∈ paths ->
     exists pd, path_definition recursion_limit self
                  (_format_path_for_swagger path).2 methods = Ok pd) /\
  forall sp v, dict_get sp out = Some v -> Q sp v.
Proof.
  revert acc. induction paths as [|[path methods] paths IH];
    intros acc Hacc HQ H.
  - injection H as <-. split; [|done].
    intros path methods Hin. by apply elem_of_nil in Hin.
  - rewrite _get_paths_from_cons in H. inv_bind H.
    destruct (IH (dict_set (_format_path_for_swagger path).1 (JDict a) acc))
      as [Hpds Hent]; [| |done|].
    + intros sp' v Hget.
      apply dict_get_set_inv in Hget as [[-> ->]|[_ Hget]]; [|by apply Hacc].
      apply (HQ path methods a); [|done]. apply elem_of_cons. by left.
    + intros path' methods' pd Hin. apply HQ. apply elem_of_cons. by right.
    + split; [|done].
      intros path' methods' Hin.
      apply elem_of_cons in Hin as [[= -> ->]|Hin]; [eauto | by eapply Hpds].
Qed.

End PathsFacts.

(** *** Path arguments *)

Section PathArguments.
Variable recursion_limit : nat.
Variable self : SwaggerV2Generator.

Lemma path_parameters_Ok (path_args : list _PathArgument) (ps : list json) :
  path_parameters self path_args = Ok ps ->
  Forall2 (fun path_arg p =>
             exists swagger_type,
               flask_converters_to_swagger_types self !! type path_arg =
                 Some swagger_type /\
               p = path_parameter path_arg swagger_type) path_args ps.
Proof.
  unfold path_parameters. revert ps.
  induction path_args as [|a path_args IH]; intros ps H.
  - injection H as <-. constructor.
  - simpl in H. inv_bind H. inv_bind H. injection H as <-.
    constructor; [|by apply IH].
    destruct (flask_converters_to_swagger_types self !! type a) as [ty|];
      [|done].
    injection E as <-. by exists ty.
Qed.

Lemma path_parameters_unregistered (path_args : list _PathArgument)
  (a : _PathArgument) :
  a ∈ path_args ->
  flask_converters_to_swagger_types self !! type a = None ->
  exists a', a' ∈ path_args /\
             flask_converters_to_swagger_types self !! type a' = None /\
             path_parameters self path_args = Raise (KeyError (type a')).
Proof.
  unfold path_parameters.
  induction path_args as [|b path_args IH]; intros Hin Hnone.
  - by apply elem_of_nil in Hin.
  - simpl.
    destruct (flask_converters_to_swagger_types self !! type b) as [ty|] eqn:Eb.
    + apply elem_of_cons in Hin as [->|Hin]; [congruence |].
      destruct (IH Hin Hnone) as (a' & Hin' & Hnone' & Hraise).
      exists a'. split_and!; [apply elem_of_cons; by right | done |].
      simpl. by rewrite Hraise.
    + exists b. split_and!; [apply elem_of_cons; by left | done | done].
Qed.

Lemma _get_paths_from_app (pre rest : route_table) (acc : dict) :
  _get_paths_from recursion_limit self (pre ++ rest) acc =
  (acc' <- _get_paths_from recursion_limit self pre acc ;;
   _get_paths_from recursion_limit self rest acc').
Proof.
  revert acc. induction pre as [|[path methods] pre IH]; intros acc; [done |].
  rewrite <- app_comm_cons, !_get_paths_from_cons.
  destruct (path_definition _ _ _ _) as [pd|e]; [simpl | done].
  apply IH.
Qed.

(** A path with an argument of an unknown type tag stops [_get_paths] at
    that path, with the [KeyError] of the first such tag. *)
Lemma _get_paths_unregistered (pre post : route_table) (path : string)
  (methods : list (string * PathDefinition)) (a : _PathArgument) :
  a ∈ (_format_path_for_swagger path).2 ->
  flask_converters_to_swagger_types self !! type a = None ->
  match _get_paths recursion_limit self pre with
  | Ok _ =>
      exists a', a' ∈ (_format_path_for_swagger path).2 /\
        flask_converters_to_swagger_types self !! type a' = None /\
        _get_paths recursion_limit self (pre ++ (path, methods) :: post) =
          Raise (KeyError (type a'))
  | Raise e =>
      _get_paths recursion_limit self (pre ++ (path, methods) :: post) =
        Raise e
  end.
Proof.
  intros Hin Hnone. unfold _get_paths. rewrite _get_paths_from_app.
  destruct (_get_paths_from recursion_limit self pre []) as [acc|e];
    [cbn [bind] | done].
  destruct (path_parameters_unregistered _ a Hin Hnone)
    as (a' & Hin' & Hnone' & Hraise).
  exists a'. split_and!; [done | done |].
  rewrite _get_paths_from_cons, path_definition_unfold.
  destruct (_format_path_for_swagger path).2 as [|b args];
    [by apply elem_of_nil in Hin |].
  by rewrite Hraise.
Qed.

End PathArguments.

(** *** One conversion per schema instance *)

Lemma filter_none_length {A : Type} (P : A -> Prop)
  `{forall x, Decision (P x)} (l : list A) :
  (forall x, x ∈ l -> ~ P x) -> filter P l = [].
Proof.
  induction l as [|a l IH]; intros Hl; [done |].
  rewrite filter_cons_False by (apply Hl, elem_of_cons; by left).
  apply IH. intros x Hx. apply Hl, elem_of_cons. by right.
Qed.

Lemma calls_on_once (schema : Schema) (calls : list (converter_kind * Schema)) :
  NoDup (map (fun c => schema_id c.2) calls) ->
  schema_id schema ∈ map (fun c => schema_id c.2) calls ->
  length (calls_on schema calls) = 1.
Proof.
  unfold calls_on. induction calls as [|c calls IH]; intros Hnd Hin.
  - by apply elem_of_nil in Hin.
  - simpl in Hnd, Hin. apply NoDup_cons in Hnd as [Hnin Hnd].
    destruct (decide (schema_id c.2 = schema_id schema)) as [Heq|Hne].
    + rewrite filter_cons_True by done. simpl. f_equal.
      rewrite filter_none_length; [done |].
      intros x Hx Hxid. apply Hnin. rewrite Heq, <- Hxid.
      apply list_elem_of_fmap. by exists x.
    + rewrite filter_cons_False by done. apply IH; [done |].
      apply elem_of_cons in Hin as [?|?]; [congruence | done].
Qed.

Section DefinitionsFacts.
Variable recursion_limit : nat.
Variable self : SwaggerV2Generator.

Lemma convert_once_ok (kind : converter_kind) (schema : Schema)
  (st st' : pass) :
  pass_ok self st ->
  convert_once self kind schema st = Ok st' ->
  pass_ok self st' /\
  schema_id schema ∈ all_schemas st' /\
  (forall id, id ∈ all_schemas st -> id ∈ all_schemas st') /\
  (forall c, c ∈ calls st' -> c ∈ calls st \/ c = (kind, schema)).
Proof.
  intros (Hnd & Hset & Hconv) H. unfold convert_once in H. unfold pass_ok.
  destruct (decide (schema_id schema ∈ all_schemas st)) as [Hin|Hnin].
  - injection H as <-. split_and!; [done | done | done | done | done | auto].
  - inv_bind H. injection H as <-. simpl. split_and!.
    + rewrite map_app. simpl. apply NoDup_app. split_and!; [done | |].
      * intros id Hid Hid'. apply list_elem_of_singleton in Hid' as ->.
        by apply Hnin, Hset.
      * apply NoDup_singleton.
    + intros id. rewrite map_app, elem_of_app, elem_of_union, Hset.
      simpl. rewrite elem_of_singleton, list_elem_of_singleton. tauto.
    + apply Forall2_app; [done |]. by repeat constructor.
    + apply elem_of_union. left. by apply elem_of_singleton.
    + intros id Hid. apply elem_of_union. by right.
    + intros c Hc. apply elem_of_app in Hc as [?|Hc]; [by left |].
      apply list_elem_of_singleton in Hc. by right.
Qed.

Lemma convert_all_ok (todo : list (converter_kind * Schema)) (st st' : pass) :
  pass_ok self st ->
  convert_all self todo st = Ok st' ->
  pass_ok self st' /\
  (forall c, c ∈ todo -> schema_id c.2 ∈ all_schemas st') /\
  (forall id, id ∈ all_schemas st -> id ∈ all_schemas st') /\
  (forall c, c ∈ calls st' -> c ∈ calls st \/ c ∈ todo).
Proof.
  revert st. induction todo as [|[kind schema] todo IH]; intros st Hok H.
  - injection H as <-. split_and!; [done | | done | auto].
    intros c Hc. by apply elem_of_nil in Hc.
  - simpl in H. inv_bind H.
    destruct (convert_once_ok _ _ _ _ Hok E) as (Hok1 & Hin1 & Hsub1 & Hc1).
    destruct (IH _ Hok1 H) as (Hok2 & Hin2 & Hsub2 & Hc2).
    split_and!; [done | | by auto |].
    + intros c Hc. apply elem_of_cons in Hc as [->|Hc]; [|by apply Hin2].
      by apply Hsub2.
    + intros c Hc. destruct (Hc2 c Hc) as [Hc'|Hc'].
      * destruct (Hc1 c Hc') as [? | ->]; [by left |].
        right. apply elem_of_cons. by left.
      * right. apply elem_of_cons. by right.
Qed.

Lemma convert_all_returns (todo : list (converter_kind * Schema)) (st : pass) :
  (forall c, c ∈ todo -> is_ok (convert self c.1 c.2) = true) ->
  is_ok (convert_all self todo st) = true.
Proof.
  revert st. induction todo as [|[kind schema] todo IH]; intros st Hall;
    [done |].
  simpl. unfold convert_once.
  assert (forall c, c ∈ todo -> is_ok (convert self c.1 c.2) = true) as Hall'.
  { intros c Hc. apply Hall, elem_of_cons. by right. }
  destruct (decide (schema_id schema ∈ all_schemas st)); [by apply IH |].
  specialize (Hall (kind, schema)). simpl in Hall.
  destruct (convert self kind schema) as [obj|e];
    [simpl; by apply IH | apply Hall, elem_of_cons; by left].
Qed.

(** Every delta has distinct keys, and holds the title of an object root. *)
Lemma _flatten_NoDup (schema r : json) (definitions : dict) :
  _flatten recursion_limit schema = Ok (r, definitions) ->
  NoDup (dict_keys definitions).
Proof.
  intros H. unfold _flatten in H. inv_bind H.
  apply deepcopy_Ok in E as ->. inv_bind H.
  destruct (py_eq_str a sw.object_).
  - inv_bind H. destruct a0 as [[key schema'] defs]. inv_bind H.
    injection H as <- <-.
    apply (proj1 (flatten_NoDup recursion_limit) schema [] _
             (NoDup_nil_2 (A:=string)) E0).
  - destruct (py_eq_str a sw.array).
    + apply (proj2 (flatten_NoDup recursion_limit) schema [] _
               (NoDup_nil_2 (A:=string)) H).
    + injection H as <- <-. apply NoDup_nil_2.
Qed.

Lemma flatten_all_ok (converted : list json) (flattened definitions : dict) :
  NoDup (dict_keys flattened) ->
  flatten_all recursion_limit converted flattened = Ok definitions ->
  NoDup (dict_keys definitions) /\
  (forall t, t ∈ dict_keys flattened -> t ∈ dict_keys definitions) /\
  (forall obj t, obj ∈ converted ->
     getitem obj sw.type_ = Ok (JStr sw.object_) ->
     getitem obj sw.title = Ok (JStr t) ->
     t ∈ dict_keys definitions).
Proof.
  revert flattened. induction converted as [|obj converted IH];
    intros flattened Hnd H.
  - injection H as <-. split_and!; [done | done |].
    intros obj t Hin. by apply elem_of_nil in Hin.
  - simpl in H. inv_bind H. destruct a as [r d]. simpl in H.
    destruct (IH _ (dict_update_NoDup _ d Hnd) H) as (Hnd' & Hsub & Hobj).
    split_and!; [done | |].
    + intros t Ht. apply Hsub, dict_update_elem. by left.
    + intros obj' t Hin Hty Ht.
      apply elem_of_cons in Hin as [->|Hin]; [|by eapply Hobj].
      destruct (_flatten_object_root _ _ _ _ _ Hty Ht E) as (s' & _ & Hget & _).
      apply Hsub, dict_update_elem. right.
      apply dict_get_is_Some. by rewrite Hget.
Qed.

Lemma flatten_all_returns (converted : list json) (flattened : dict) :
  (forall obj, obj ∈ converted -> is_ok (_flatten recursion_limit obj) = true) ->
  is_ok (flatten_all recursion_limit converted flattened) = true.
Proof.
  revert flattened. induction converted as [|obj converted IH];
    intros flattened Hall; [done |].
  simpl. pose proof (Hall obj) as Hobj.
  destruct (_flatten recursion_limit obj) as [r|e];
    [simpl | apply Hobj, elem_of_cons; by left].
  apply IH. intros obj' Hin. apply Hall, elem_of_cons. by right.
Qed.

End DefinitionsFacts.

(** *** The table is flat and closed *)

Lemma inline_mono (keys keys' : list string) (x : json) :
  (forall k, k ∈ keys -> k ∈ keys') -> inline keys x -> inline keys' x.
Proof.
  intros Hsub. induction 1 as [k Hk|x Hx|x its Hty Hits _ IH].
  - apply inline_ref. by apply Hsub.
  - by apply inline_primitive.
  - by eapply inline_array.
Qed.

Lemma flat_object_mono (keys keys' : list string) (x : json) :
  (forall k, k ∈ keys -> k ∈ keys') -> flat_object keys x ->
  flat_object keys' x.
Proof.
  intros Hsub (Hty & props & Hp & Hall). split; [done |].
  exists props. split; [done |].
  eapply Forall_impl; [exact Hall |]. intros kv. by apply inline_mono.
Qed.

Lemma unique_keys_dict (kvs : dict) :
  unique_keys (JDict kvs) = true ->
  NoDup (dict_keys kvs) /\ Forall (fun kv => unique_keys kv.2 = true) kvs.
Proof.
  simpl. rewrite andb_true_iff, bool_decide_eq_true, forallb_forall.
  intros [Hnd Hall]. split; [done |]. apply Forall_forall.
  intros kv Hkv. by apply Hall, list_elem_of_In.
Qed.

Lemma dict_get_elem {V : Type} (k : string) (v : V) (d : list (string * V)) :
  dict_get k d = Some v -> (k, v) ∈ d.
Proof.
  induction d as [|[k' v'] d IH]; simpl; [done |].
  destruct (decide (k' = k)) as [->|Hne].
  - intros [= ->]. apply elem_of_cons. by left.
  - intros H. apply elem_of_cons. right. by apply IH.
Qed.

Lemma unique_keys_getitem (x v : json) (k : string) :
  unique_keys x = true -> getitem x k = Ok v -> unique_keys v = true.
Proof.
  destruct x as [| | | | |kvs]; try done. intros Hu H. simpl in H.
  destruct (dict_get k kvs) as [v'|] eqn:E; [|done]. injection H as ->.
  apply unique_keys_dict in Hu as [_ Hall].
  rewrite Forall_forall in Hall. apply (Hall (k, v)). by apply dict_get_elem.
Qed.

Lemma Forall_dict_set {V : Type} (P : string * V -> Prop) (k : string) (v : V)
  (d : list (string * V)) :
  Forall P d -> P (k, v) -> Forall P (dict_set k v d).
Proof.
  intros Hall Hv. induction Hall as [|[k' v'] d Hkv Hall IH]; simpl.
  - by constructor.
  - destruct (decide (k' = k)) as [->|]; constructor; done.
Qed.

Lemma getitem_set_eq (k : string) (v : json) (kvs : dict) :
  getitem (JDict (dict_set k v kvs)) k = Ok v.
Proof. unfold getitem. by rewrite dict_get_set_eq. Qed.

Lemma getitem_set_ne (k k' : string) (v : json) (kvs : dict) :
  k <> k' ->
  getitem (JDict (dict_set k v kvs)) k' = getitem (JDict kvs) k'.
Proof. intros Hne. unfold getitem. by rewrite dict_get_set_ne. Qed.

(** The loop of [_flatten_object], from any point on: the fields behind it
    are [inline] already, the fields in front of it become so. *)
Lemma fields_loop_flat fo fa (its done : dict) (definitions : dict)
  (props' definitions' : dict) :
  (forall obj defs r,
     unique_keys obj = true ->
     getitem obj sw.type_ = Ok (JStr sw.object_) ->
     Forall (fun kv => flat_object (dict_keys defs) kv.2) defs ->
     fo obj defs = Ok r ->
     (exists t, r.1.1 = JStr t /\ t ∈ dict_keys r.2) /\
     (forall k, k ∈ dict_keys defs -> k ∈ dict_keys r.2) /\
     Forall (fun kv => flat_object (dict_keys r.2) kv.2) r.2) ->
  (forall obj defs r,
     unique_keys obj = true ->
     getitem obj sw.type_ = Ok (JStr sw.array) ->
     Forall (fun kv => flat_object (dict_keys defs) kv.2) defs ->
     fa obj defs = Ok r ->
     inline (dict_keys r.2) r.1 /\
     (forall k, k ∈ dict_keys defs -> k ∈ dict_keys r.2) /\
     Forall (fun kv => flat_object (dict_keys r.2) kv.2) r.2) ->
  NoDup (dict_keys (done ++ its)) ->
  Forall (fun kv => unique_keys kv.2 = true) its ->
  Forall (fun kv => inline (dict_keys definitions) kv.2) done ->
  Forall (fun kv => flat_object (dict_keys definitions) kv.2) definitions ->
  fields_loop fo fa its (done ++ its) definitions = Ok (props', definitions') ->
  Forall (fun kv => inline (dict_keys definitions') kv.2) props' /\
  (forall k, k ∈ dict_keys definitions -> k ∈ dict_keys definitions') /\
  Forall (fun kv => flat_object (dict_keys definitions') kv.2) definitions'.
Proof.
  intros Hfo Hfa. revert done definitions.
  induction its as [|[field obj] its IH];
    intros done definitions Hnd Hu Hdone Hdefs H.
  - simpl in H. injection H as <- <-. by rewrite app_nil_r.
  - apply Forall_cons in Hu as [Hobj Hu]. simpl in Hobj.
    assert (field ∉ dict_keys done) as Hfield.
    { unfold dict_keys in *. rewrite fmap_app in Hnd.
      apply NoDup_app in Hnd as (_ & Hdisj & _). intros Hin.
      apply (Hdisj field Hin). simpl. apply elem_of_cons. by left. }
    assert (forall v, (done ++ [(field, v)]) ++ its = done ++ (field, v) :: its)
      as Happ by (intros v; by rewrite <- app_assoc).
    assert (forall v, NoDup (dict_keys ((done ++ [(field, v)]) ++ its)))
      as Hnd'.
    { intros v. rewrite Happ. unfold dict_keys in *.
      by rewrite fmap_app in *. }
    simpl in H. inv_bind H.
    destruct (py_eq_str a sw.object_) eqn:Eo.
    + apply py_eq_str_true in Eo as ->. inv_bind H.
      destruct a as [[obj_key o'] defs1]. inv_bind H.
      destruct (Hfo _ _ _ Hobj E Hdefs E0) as ((t & Hk & Ht) & Hsub & Hflat).
      simpl in Hk, Ht, Hsub, Hflat. subst obj_key.
      injection E1 as <-. rewrite dict_set_middle in H by done.
      rewrite <- Happ in H.
      assert (Forall (fun kv => inline (dict_keys defs1) kv.2)
                (done ++ [(field, ref_json t)])) as Hdone'.
      { apply Forall_app. split.
        - eapply Forall_impl; [exact Hdone |]. intros kv.
          by apply inline_mono.
        - apply Forall_singleton. by apply inline_ref. }
      destruct (IH _ _ (Hnd' (ref_json t)) Hu Hdone' Hflat H)
        as (Hp & Hsub' & Hflat').
      split_and!; [done | by auto | done].
    + destruct (py_eq_str a sw.array) eqn:Ea.
      * apply py_eq_str_true in Ea as ->. inv_bind H.
        destruct a as [obj' defs1].
        destruct (Hfa _ _ _ Hobj E Hdefs E0) as (Hin & Hsub & Hflat).
        simpl in Hin, Hsub, Hflat.
        rewrite dict_set_middle in H by done. rewrite <- Happ in H.
        assert (Forall (fun kv => inline (dict_keys defs1) kv.2)
                  (done ++ [(field, obj')])) as Hdone'.
        { apply Forall_app. split.
          - eapply Forall_impl; [exact Hdone |]. intros kv.
            by apply inline_mono.
          - by apply Forall_singleton. }
        destruct (IH _ _ (Hnd' obj') Hu Hdone' Hflat H)
          as (Hp & Hsub' & Hflat').
        split_and!; [done | by auto | done].
      * rewrite <- Happ in H.
        assert (Forall (fun kv => inline (dict_keys definitions) kv.2)
                  (done ++ [(field, obj)])) as Hdone'.
        { apply Forall_app. split; [done |]. apply Forall_singleton.
          apply inline_primitive. unfold is_primitive. simpl.
          by rewrite E, Eo, Ea. }
        by destruct (IH _ _ (Hnd' obj) Hu Hdone' Hdefs H)
          as (Hp & Hsub' & Hflat').
Qed.

Lemma flatten_flat fuel :
  (forall schema defs r,
     unique_keys schema = true ->
     getitem schema sw.type_ = Ok (JStr sw.object_) ->
     Forall (fun kv => flat_object (dict_keys defs) kv.2) defs ->
     _flatten_object fuel schema defs = Ok r ->
     (exists t, r.1.1 = JStr t /\ t ∈ dict_keys r.2) /\
     (forall k, k ∈ dict_keys defs -> k ∈ dict_keys r.2) /\
     Forall (fun kv => flat_object (dict_keys r.2) kv.2) r.2) /\
  (forall schema defs r,
     unique_keys schema = true ->
     getitem schema sw.type_ = Ok (JStr sw.array) ->
     Forall (fun kv => flat_object (dict_keys defs) kv.2) defs ->
     _flatten_array fuel schema defs = Ok r ->
     inline (dict_keys r.2) r.1 /\
     (forall k, k ∈ dict_keys defs -> k ∈ dict_keys r.2) /\
     Forall (fun kv => flat_object (dict_keys r.2) kv.2) r.2).
Proof.
  induction fuel as [|fuel [IHo IHa]]; [split; intros; done |].
  split; intros schema defs r Hu Hty Hdefs H.
  - rewrite _flatten_object_unfold in H.
    inv_bind H. inv_bind H. inv_bind H. destruct a1 as [props' defs1].
    inv_bind H. inv_bind H. inv_bind H. injection H as <-. simpl.
    pose proof (unique_keys_getitem _ _ _ Hu E) as Hup.
    destruct a as [| | | | |its]; try done. injection E0 as <-.
    apply unique_keys_dict in Hup as [Hnd Hall].
    destruct (fields_loop_flat _ _ its [] defs props' defs1 IHo IHa)
      as (Hp & Hsub & Hflat); [done | done | constructor | done | done |].
    apply register_Ok in E4 as (t & -> & ->).
    apply setitem_Ok in E2 as (kvs & -> & ->).
    assert (forall k, k ∈ dict_keys defs1 ->
                      k ∈ dict_keys (dict_set t (JDict (dict_set sw.properties
                                       (JDict props') kvs)) defs1)) as Hsub'.
    { intros k Hk. apply dict_keys_set_elem. by right. }
    split_and!.
    + exists t. split; [done |]. apply dict_keys_set_elem. by left.
    + by auto.
    + apply Forall_dict_set.
      * eapply Forall_impl; [exact Hflat |]. intros kv.
        by apply flat_object_mono.
      * simpl. split.
        -- by rewrite getitem_set_ne.
        -- exists props'. rewrite getitem_set_eq. split; [done |].
           eapply Forall_impl; [exact Hp |]. intros kv. by apply inline_mono.
  - rewrite _flatten_array_unfold in H.
    inv_bind H. inv_bind H.
    pose proof (unique_keys_getitem _ _ _ Hu E) as Hui.
    destruct (py_eq_str a0 sw.object_) eqn:Eo.
    + apply py_eq_str_true in Eo as ->. inv_bind H.
      destruct a0 as [[obj_key o'] defs1]. inv_bind H. inv_bind H.
      injection H as <-. simpl.
      destruct (IHo _ _ _ Hui E0 Hdefs E1) as ((t & Hk & Ht) & Hsub & Hflat).
      simpl in Hk, Ht, Hsub, Hflat. subst obj_key. injection E2 as <-.
      apply setitem_Ok in E3 as (kvs & -> & ->).
      split_and!; [|done | done].
      eapply inline_array.
      * by rewrite getitem_set_ne.
      * apply getitem_set_eq.
      * by apply inline_ref.
    + destruct (py_eq_str a0 sw.array) eqn:Ea.
      * apply py_eq_str_true in Ea as ->. inv_bind H.
        destruct a0 as [its' defs1]. inv_bind H. injection H as <-. simpl.
        destruct (IHa _ _ _ Hui E0 Hdefs E1) as (Hin & Hsub & Hflat).
        simpl in Hin, Hsub, Hflat.
        apply setitem_Ok in E2 as (kvs & -> & ->).
        split_and!; [|done | done].
        eapply inline_array; [| |exact Hin].
        -- by rewrite getitem_set_ne.
        -- apply getitem_set_eq.
      * injection H as <-. simpl. split_and!; [|done | done].
        eapply inline_array; [done | exact E |].
        apply inline_primitive. unfold is_primitive. by rewrite E0, Eo, Ea.
Qed.

(** X1: in what [_flatten] returns for a fragment with well-formed dicts, no
    object is left inline and no reference dangles: every entry of the delta
    is an object whose fields are references to keys of the delta, primitive
    fragments or arrays of such, and so is the returned fragment. *)
Theorem flatten_flat_and_closed (fuel : nat) (schema r : json)
  (definitions : dict) :
  unique_keys schema = true ->
  _flatten fuel schema = Ok (r, definitions) ->
  inline (dict_keys definitions) r /\
  Forall (fun kv => flat_object (dict_keys definitions) kv.2) definitions.
Proof.
  intros Hu H. unfold _flatten in H. inv_bind H.
  apply deepcopy_Ok in E as ->. inv_bind H.
  destruct (py_eq_str a sw.object_) eqn:Eo.
  - apply py_eq_str_true in Eo as ->. inv_bind H.
    destruct a as [[key s'] defs]. inv_bind H. injection H as <- <-.
    destruct (proj1 (flatten_flat fuel) _ _ _ Hu E (Forall_nil_2 _) E0)
      as ((t & Hk & Ht) & _ & Hflat).
    simpl in Hk, Ht, Hflat. subst key. injection E1 as <-.
    split; [by apply inline_ref | done].
  - destruct (py_eq_str a sw.array) eqn:Ea.
    + apply py_eq_str_true in Ea as ->.
      destruct (proj2 (flatten_flat fuel) _ _ _ Hu E (Forall_nil_2 _) H)
        as (Hin & _ & Hflat).
      done.
    + injection H as <- <-. split; [|constructor].
      apply inline_primitive. unfold is_primitive. by rewrite E, Eo, Ea.
Qed.

Lemma flatten_flat_and_closed_witness :
  exists r definitions,
    _flatten 10 test_flatten_input = Ok (r, definitions) /\
    inline (dict_keys definitions) r /\
    Forall (fun kv => flat_object (dict_keys definitions) kv.2) definitions.
Proof.
  destruct (_flatten 10 test_flatten_input) as [[r definitions]|e] eqn:E;
    [|vm_compute in E; discriminate].
  exists r, definitions. split; [done |].
  apply (flatten_flat_and_closed 10 test_flatten_input); [reflexivity | done].
Defined.

(** *** Entries are filed under their own title *)

Lemma fields_loop_titles fo fa (its props definitions props' definitions' : dict) :
  (forall obj defs r,
     filed_by_title defs -> fo obj defs = Ok r -> filed_by_title r.2) ->
  (forall obj defs r,
     filed_by_title defs -> fa obj defs = Ok r -> filed_by_title r.2) ->
  filed_by_title definitions ->
  fields_loop fo fa its props definitions = Ok (props', definitions') ->
  filed_by_title definitions'.
Proof.
  intros Hfo Hfa. revert props definitions.
  induction its as [|[field obj] its IH]; intros props definitions Hdefs H.
  - simpl in H. by injection H as <- <-.
  - simpl in H. inv_bind H.
    destruct (py_eq_str a sw.object_).
    + inv_bind H. destruct a0 as [[obj_key o'] defs1]. inv_bind H.
      eapply IH; [|exact H]. exact (Hfo _ _ _ Hdefs E0).
    + destruct (py_eq_str a sw.array).
      * inv_bind H. destruct a0 as [obj' defs1].
        eapply IH; [|exact H]. exact (Hfa _ _ _ Hdefs E0).
      * by eapply IH.
Qed.

Lemma flatten_titles fuel :
  (forall schema defs r,
     filed_by_title defs -> _flatten_object fuel schema defs = Ok r ->
     filed_by_title r.2) /\
  (forall schema defs r,
     filed_by_title defs -> _flatten_array fuel schema defs = Ok r ->
     filed_by_title r.2).
Proof.
  induction fuel as [|fuel [IHo IHa]]; [split; intros; done |].
  split; intros schema defs r Hdefs H.
  - rewrite _flatten_object_unfold in H.
    inv_bind H. inv_bind H. inv_bind H. destruct a1 as [props' defs1].
    inv_bind H. inv_bind H. inv_bind H. injection H as <-. simpl.
    pose proof (fields_loop_titles _ _ _ _ _ _ _ IHo IHa Hdefs E1) as Hdefs1.
    apply register_Ok in E4 as (t & -> & ->).
    by apply Forall_dict_set.
  - rewrite _flatten_array_unfold in H.
    inv_bind H. inv_bind H.
    destruct (py_eq_str a0 sw.object_).
    + inv_bind H. destruct a1 as [[obj_key o'] defs1]. inv_bind H. inv_bind H.
      injection H as <-. exact (IHo _ _ _ Hdefs E1).
    + destruct (py_eq_str a0 sw.array).
      * inv_bind H. destruct a1 as [its' defs1]. inv_bind H.
        injection H as <-. exact (IHa _ _ _ Hdefs E1).
      * by injection H as <-.
Qed.

(** X2: every entry of the delta that [_flatten] returns is stored under the
    title it carries: the fragment under a key [k] has [k] as its title. *)
Theorem flatten_files_by_title (fuel : nat) (schema r : json)
  (definitions : dict) :
  _flatten fuel schema = Ok (r, definitions) ->
  filed_by_title definitions.
Proof.
  intros H. unfold _flatten in H. inv_bind H. inv_bind H.
  assert (filed_by_title []) as Hnil by constructor.
  destruct (py_eq_str a0 sw.object_).
  - inv_bind H. destruct a1 as [[key s'] defs]. inv_bind H.
    injection H as <- <-.
    exact (proj1 (flatten_titles fuel) _ _ _ Hnil E1).
  - destruct (py_eq_str a0 sw.array).
    + exact (proj2 (flatten_titles fuel) _ _ _ Hnil H).
    + by injection H as <- <-.
Qed.

Lemma flatten_files_by_title_witness :
  exists r definitions,
    _flatten 10 test_flatten_input = Ok (r, definitions) /\
    filed_by_title definitions.
Proof.
  destruct (_flatten 10 test_flatten_input) as [[r definitions]|e] eqn:E;
    [|vm_compute in E; discriminate].
  exists r, definitions. split; [done |].
  by apply (flatten_files_by_title 10 test_flatten_input r).
Defined.

(** *** The fragments the flattener accepts *)

Lemma well_formed_type (x : json) :
  well_formed x -> exists ty, getitem x sw.type_ = Ok ty.
Proof.
  inversion 1 as [? Hp|? ? ? Hty|? ? Hty]; subst; eauto.
  apply is_primitive_spec in Hp as (ty & Hty & _). eauto.
Qed.

Lemma fields_loop_succeeds (n : nat) fo fa (its props definitions : dict) :
  (forall obj defs,
     well_formed obj -> depth obj <= n ->
     getitem obj sw.type_ = Ok (JStr sw.object_) ->
     exists t o d, fo obj defs = Ok (JStr t, o, d)) ->
  (forall obj defs,
     well_formed obj -> depth obj <= n ->
     getitem obj sw.type_ = Ok (JStr sw.array) ->
     exists r, fa obj defs = Ok r) ->
  Forall (fun kv => well_formed kv.2 /\ depth kv.2 <= n) its ->
  exists st, fields_loop fo fa its props definitions = Ok st.
Proof.
  intros Hfo Hfa Hall. revert props definitions.
  induction Hall as [|[field obj] its [Hwf Hd] _ IH]; intros props definitions.
  - simpl. eauto.
  - simpl in *. destruct (well_formed_type _ Hwf) as [ty Hty].
    rewrite Hty. simpl.
    destruct (py_eq_str ty sw.object_) eqn:Eo.
    + apply py_eq_str_true in Eo as ->.
      destruct (Hfo obj definitions Hwf Hd Hty) as (t & o & d & ->). simpl.
      apply IH.
    + destruct (py_eq_str ty sw.array) eqn:Ea.
      * apply py_eq_str_true in Ea as ->.
        destruct (Hfa obj definitions Hwf Hd Hty) as ([obj' d] & ->). simpl.
        apply IH.
      * apply IH.
Qed.

Lemma well_formed_object (x : json) :
  well_formed x -> getitem x sw.type_ = Ok (JStr sw.object_) ->
  exists props t,
    getitem x sw.properties = Ok (JDict props) /\
    getitem x sw.title = Ok (JStr t) /\
    Forall (fun kv => well_formed kv.2) props.
Proof.
  inversion 1 as [? Hp|? props t Hty Hprops Ht Hall|? ? Hty]; subst;
    intros Hobj.
  - apply is_primitive_spec in Hp as (ty & Hty & Ho & _). congruence.
  - eauto.
  - rewrite Hty in Hobj. done.
Qed.

Lemma well_formed_array (x : json) :
  well_formed x -> getitem x sw.type_ = Ok (JStr sw.array) ->
  exists its, getitem x sw.items = Ok its /\ well_formed its.
Proof.
  inversion 1 as [? Hp|? props t Hty Hprops Ht Hall|? its Hty Hits Hwf]; subst;
    intros Harr.
  - apply is_primitive_spec in Hp as (ty & Hty & _ & Ha). congruence.
  - rewrite Hty in Harr. done.
  - eauto.
Qed.

Lemma flatten_succeeds fuel :
  (forall schema defs,
     well_formed schema -> depth schema <= fuel ->
     getitem schema sw.type_ = Ok (JStr sw.object_) ->
     exists t o d, _flatten_object fuel schema defs = Ok (JStr t, o, d)) /\
  (forall schema defs,
     well_formed schema -> depth schema <= fuel ->
     getitem schema sw.type_ = Ok (JStr sw.array) ->
     exists r, _flatten_array fuel schema defs = Ok r).
Proof.
  induction fuel as [|fuel [IHo IHa]].
  { split; intros schema defs _ Hd; destruct schema; simpl in Hd; lia. }
  split; intros schema defs Hwf Hd Hty.
  - destruct (well_formed_object _ Hwf Hty) as (props & t & Hp & Ht & Hall).
    rewrite _flatten_object_unfold, Hp. simpl.
    destruct (fields_loop_succeeds fuel (_flatten_object fuel)
                (_flatten_array fuel) props props defs IHo IHa)
      as ([props' defs1] & ->).
    { apply Forall_forall. intros kv Hkv. split.
      - rewrite Forall_forall in Hall. by apply Hall.
      - apply depth_getitem in Hp. apply depth_value in Hkv.
        simpl in Hp. lia. }
    simpl. destruct schema as [| | | | |kvs]; try done.
    cbn [setitem bind]. unfold _get_key.
    rewrite getitem_set_ne by done. rewrite Ht. simpl. eauto.
  - destruct (well_formed_array _ Hwf Hty) as (its & Hits & Hwfi).
    rewrite _flatten_array_unfold, Hits. simpl.
    destruct (well_formed_type _ Hwfi) as [ty Hity]. rewrite Hity. simpl.
    assert (depth its <= fuel) as Hdi.
    { apply depth_getitem in Hits. lia. }
    destruct schema as [| | | | |kvs]; try done.
    destruct (py_eq_str ty sw.object_) eqn:Eo.
    + apply py_eq_str_true in Eo as ->.
      destruct (IHo its defs Hwfi Hdi Hity) as (t & o & d & ->). simpl. eauto.
    + destruct (py_eq_str ty sw.array) eqn:Ea; [|eauto].
      apply py_eq_str_true in Ea as ->.
      destruct (IHa its defs Hwfi Hdi Hity) as ([its' d] & ->). simpl. eauto.
Qed.

Lemma fields_loop_well_formed fo fa (its props definitions : dict)
  (st : dict * dict) :
  (forall obj defs r,
     getitem obj sw.type_ = Ok (JStr sw.object_) ->
     fo obj defs = Ok r -> well_formed obj) ->
  (forall obj defs r,
     getitem obj sw.type_ = Ok (JStr sw.array) ->
     fa obj defs = Ok r -> well_formed obj) ->
  fields_loop fo fa its props definitions = Ok st ->
  Forall (fun kv => well_formed kv.2) its.
Proof.
  intros Hfo Hfa. revert props definitions.
  induction its as [|[field obj] its IH]; intros props definitions H;
    [constructor |].
  simpl in H. inv_bind H.
  destruct (py_eq_str a sw.object_) eqn:Eo.
  - apply py_eq_str_true in Eo as ->. inv_bind H.
    destruct a as [[obj_key o'] defs1]. inv_bind H.
    constructor; [exact (Hfo _ _ _ E E0) | by eapply IH].
  - destruct (py_eq_str a sw.array) eqn:Ea.
    + apply py_eq_str_true in Ea as ->. inv_bind H.
      destruct a as [obj' defs1].
      constructor; [exact (Hfa _ _ _ E E0) | by eapply IH].
    + constructor; [|by eapply IH].
      apply wf_primitive. unfold is_primitive. simpl. by rewrite E, Eo, Ea.
Qed.

Lemma flatten_well_formed fuel :
  (forall schema defs r,
     getitem schema sw.type_ = Ok (JStr sw.object_) ->
     _flatten_object fuel schema defs = Ok r -> well_formed schema) /\
  (forall schema defs r,
     getitem schema sw.type_ = Ok (JStr sw.array) ->
     _flatten_array fuel schema defs = Ok r -> well_formed schema).
Proof.
  induction fuel as [|fuel [IHo IHa]]; [split; intros; done |].
  split; intros schema defs r Hty H.
  - rewrite _flatten_object_unfold in H.
    inv_bind H. inv_bind H. inv_bind H. destruct a1 as [props' defs1].
    inv_bind H. inv_bind H. inv_bind H.
    destruct a as [| | | | |its]; try done. injection E0 as <-.
    apply register_Ok in E4 as (t & -> & _).
    apply setitem_Ok in E2 as (kvs & -> & ->).
    unfold _get_key in E3. rewrite getitem_set_ne in E3 by done.
    eapply wf_object; [done | done | done |].
    by eapply fields_loop_well_formed.
  - rewrite _flatten_array_unfold in H.
    inv_bind H. inv_bind H.
    eapply wf_array; [done | exact E |].
    destruct (py_eq_str a0 sw.object_) eqn:Eo.
    + apply py_eq_str_true in Eo as ->. inv_bind H.
      exact (IHo _ _ _ E0 E1).
    + destruct (py_eq_str a0 sw.array) eqn:Ea.
      * apply py_eq_str_true in Ea as ->. inv_bind H.
        exact (IHa _ _ _ E0 E1).
      * apply wf_primitive. unfold is_primitive. by rewrite E0, Eo, Ea.
Qed.

(** X3: [_flatten] returns exactly on the well-formed fragments, the
    recursion limit allowing their depth: every object in reach has a string
    title and a dict of [properties], every array has [items], and every
    field and every [items] has a type tag.  On anything else it raises. *)
Theorem flatten_returns_iff_well_formed (fuel : nat) (schema : json) :
  depth schema <= fuel ->
  (exists r definitions, _flatten fuel schema = Ok (r, definitions)) <->
  well_formed schema.
Proof.
  intros Hd. unfold _flatten. rewrite deepcopy_ok by done. simpl. split.
  - intros (r & definitions & H). inv_bind H.
    destruct (py_eq_str a sw.object_) eqn:Eo.
    + apply py_eq_str_true in Eo as ->. inv_bind H.
      exact (proj1 (flatten_well_formed fuel) _ _ _ E E0).
    + destruct (py_eq_str a sw.array) eqn:Ea.
      * apply py_eq_str_true in Ea as ->.
        exact (proj2 (flatten_well_formed fuel) _ _ _ E H).
      * apply wf_primitive. unfold is_primitive. by rewrite E, Eo, Ea.
  - intros Hwf. destruct (well_formed_type _ Hwf) as [ty Hty].
    rewrite Hty. simpl.
    destruct (py_eq_str ty sw.object_) eqn:Eo.
    + apply py_eq_str_true in Eo as ->.
      destruct (proj1 (flatten_succeeds fuel) schema [] Hwf Hd Hty)
        as (t & o & d & ->).
      simpl. eauto.
    + destruct (py_eq_str ty sw.array) eqn:Ea; [|eauto].
      apply py_eq_str_true in Ea as ->.
      destruct (proj2 (flatten_succeeds fuel) schema [] Hwf Hd Hty)
        as ([r d] & ->).
      eauto.
Qed.

Lemma flatten_returns_iff_well_formed_witness :
  (exists r definitions, _flatten 10 test_flatten_input = Ok (r, definitions))
  <-> well_formed test_flatten_input.
Proof.
  apply (flatten_returns_iff_well_formed 10 test_flatten_input).
  vm_compute. lia.
Defined.

(** *** Parameters from a JSON-Schema object *)

Lemma py_in_list (name : string) (xs : list json) :
  existsb (fun x => py_eq_str x name) xs = true <-> JStr name ∈ xs.
Proof.
  rewrite existsb_exists. split.
  - intros (x & Hx & Heq). apply py_eq_str_true in Heq as ->.
    by apply list_elem_of_In.
  - intros Hin. exists (JStr name). split; [by apply list_elem_of_In |].
    by apply py_eq_str_true.
Qed.

Lemma mapM_Forall2 {A B : Type} (f : A -> result B) (R : A -> B -> Prop)
  (l : list A) :
  Forall (fun a => exists b, f a = Ok b /\ R a b) l ->
  exists bs, mapM f l = Ok bs /\ Forall2 R l bs.
Proof.
  induction 1 as [|a l (b & Hb & HR) _ (bs & Hbs & Hall)]; simpl.
  - exists []. by split.
  - rewrite Hb. simpl. rewrite Hbs. simpl. exists (b :: bs).
    split; [done | by constructor].
Qed.

(** X5: from an object fragment whose properties are dicts, with a
    [required] list or none, [_convert_jsonschema_to_list_of_parameters]
    returns one parameter per property, in the order of the properties; each
    is the property with [name] set to its name, [in] to the given place and
    [required] to whether the name is in the list, and with every other key
    as the property has it. *)
Theorem convert_parameters_shape (limit : nat) (kvs props : dict)
  (required : list json) (in_ : string) :
  dict_get "type" kvs = Some (JStr "object") ->
  dict_get "properties" kvs = Some (JDict props) ->
  default (JList []) (dict_get "required" kvs) = JList required ->
  Forall (fun kv => depth kv.2 <= limit /\ exists prop, kv.2 = JDict prop)
         props ->
  exists ps,
    _convert_jsonschema_to_list_of_parameters limit (JDict kvs) in_ = Ok ps /\
    Forall2 (parameter_of in_ required) props ps.
Proof.
  intros Hty Hprops Hreq Hall. unfold _convert_jsonschema_to_list_of_parameters.
  rewrite (getitem_dict _ _ _ Hty). simpl. rewrite Hprops, Hreq. simpl.
  apply mapM_Forall2. eapply Forall_impl; [exact Hall |].
  intros [name prop] [Hd (d & Hprop)]. simpl in Hd, Hprop. subst prop.
  rewrite deepcopy_ok by done. simpl. eexists. split; [reflexivity |].
  eexists d, _, _. split; [done |]. split; [reflexivity |].
  split; [apply dict_get_set_eq |].
  split; [rewrite dict_get_set_ne by done; apply dict_get_set_eq |].
  split; [rewrite !dict_get_set_ne by done; apply dict_get_set_eq |].
  split; [apply py_in_list |].
  intros k Hn Hi Hr. by rewrite !dict_get_set_ne by done.
Qed.

Lemma convert_parameters_shape_witness :
  exists ps,
    _convert_jsonschema_to_list_of_parameters 5
      (JDict [("type", JStr "object");
              ("required", JList [JStr "user_id"]);
              ("properties",
               JDict [("user_id", JDict [("type", JStr "string")]);
                      ("name", JDict [("type", JStr "string");
                                      ("name", JStr "shadowed")])])])
      "header" = Ok ps /\
    Forall2 (parameter_of "header" [JStr "user_id"])
      [("user_id", JDict [("type", JStr "string")]);
       ("name", JDict [("type", JStr "string"); ("name", JStr "shadowed")])]
      ps.
Proof.
  apply (convert_parameters_shape 5
           [("type", JStr "object");
            ("required", JList [JStr "user_id"]);
            ("properties",
             JDict [("user_id", JDict [("type", JStr "string")]);
                    ("name", JDict [("type", JStr "string");
                                    ("name", JStr "shadowed")])])]);
    [reflexivity | reflexivity | reflexivity |].
  repeat (apply Forall_cons; split;
          [split; [vm_compute; lia | eexists; reflexivity] |]).
  apply Forall_nil_2.
Defined.

(** X6: what [_convert_jsonschema_to_list_of_parameters] raises on a fragment
    it cannot take: [AssertionError] when the type tag is not [object],
    [KeyError] when the fragment has no type tag or, being an object, no
    [properties], and [TypeError] when a property is a string and not a dict:
    the parameter cannot take its [required] key. *)
Theorem convert_parameters_errors (limit : nat) (kvs : dict) (in_ : string) :
  (forall ty, dict_get "type" kvs = Some ty -> ty <> JStr "object" ->
     _convert_jsonschema_to_list_of_parameters limit (JDict kvs) in_ =
       Raise AssertionError) /\
  (dict_get "type" kvs = None ->
     _convert_jsonschema_to_list_of_parameters limit (JDict kvs) in_ =
       Raise (KeyError "type")) /\
  (dict_get "type" kvs = Some (JStr "object") ->
   dict_get "properties" kvs = None ->
     _convert_jsonschema_to_list_of_parameters limit (JDict kvs) in_ =
       Raise (KeyError "properties")) /\
  (forall name s rest,
     0 < limit ->
     dict_get "type" kvs = Some (JStr "object") ->
     dict_get "properties" kvs = Some (JDict ((name, JStr s) :: rest)) ->
     dict_get "required" kvs = None ->
     _convert_jsonschema_to_list_of_parameters limit (JDict kvs) in_ =
       Raise TypeError).
Proof.
  unfold _convert_jsonschema_to_list_of_parameters. split_and!.
  - intros ty Hty Hne. rewrite (getitem_dict _ _ _ Hty). simpl.
    apply py_eq_str_false in Hne. by rewrite Hne.
  - intros Hty. simpl. by rewrite Hty.
  - intros Hty Hp. rewrite (getitem_dict _ _ _ Hty). simpl. by rewrite Hp.
  - intros name s rest Hl Hty Hp Hr. rewrite (getitem_dict _ _ _ Hty). simpl.
    rewrite Hp, Hr. simpl. destruct limit as [|limit]; [lia | done].
Qed.

Lemma convert_parameters_errors_witness :
  _convert_jsonschema_to_list_of_parameters 5
    (JDict [("type", JStr "array"); ("items", JDict [])]) "query" =
    Raise AssertionError /\
  _convert_jsonschema_to_list_of_parameters 5
    (JDict [("title", JStr "x")]) "query" = Raise (KeyError "type") /\
  _convert_jsonschema_to_list_of_parameters 5
    (JDict [("type", JStr "object")]) "query" =
    Raise (KeyError "properties") /\
  _convert_jsonschema_to_list_of_parameters 5
    (JDict [("type", JStr "object");
            ("properties", JDict [("a", JStr "string")])]) "query" =
    Raise TypeError.
Proof.
  split_and!.
  - apply (proj1 (convert_parameters_errors 5
                    [("type", JStr "array"); ("items", JDict [])] "query")
             (JStr "array")); [reflexivity | discriminate].
  - apply (proj1 (proj2 (convert_parameters_errors 5
                           [("title", JStr "x")] "query"))).
    reflexivity.
  - apply (proj1 (proj2 (proj2 (convert_parameters_errors 5
                                  [("type", JStr "object")] "query"))));
      reflexivity.
  - apply (proj2 (proj2 (proj2 (convert_parameters_errors 5
             [("type", JStr "object");
              ("properties", JDict [("a", JStr "string")])] "query")))
             "a" "string" []); [lia | reflexivity | reflexivity | reflexivity].
Defined.

(** *** Placeholders, one at a time *)

Lemma length_app (a b : string) :
  String.length (a +:+ b) = String.length a + String.length b.
Proof. induction a as [|c a IH]; simpl; [done | by rewrite IH]. Qed.

Lemma chars_app (a b : string) : chars (a +:+ b) = chars a ++ chars b.
Proof. induction a as [|c a IH]; simpl; [done | by rewrite IH]. Qed.

Lemma string_app_assoc (a b c : string) : (a +:+ b) +:+ c = a +:+ (b +:+ c).
Proof.
  induction a as [|x a IH]; [done |].
  change (String x ((a +:+ b) +:+ c) = String x (a +:+ (b +:+ c))).
  by rewrite IH.
Qed.

Lemma substring_app (a b : string) :
  String.substring 0 (String.length a) (a +:+ b) = a.
Proof.
  induction a as [|c a IH]; simpl; [by destruct b | by rewrite IH].
Qed.

Lemma consumed_app (a b : string) : consumed (a +:+ b) b = a.
Proof.
  unfold consumed. rewrite length_app.
  replace (String.length a + String.length b - String.length b)
    with (String.length a) by lia.
  apply substring_app.
Qed.

Lemma suffixes_length (s' s : string) :
  s' ∈ suffixes s -> String.length s' <= String.length s.
Proof.
  induction s as [|c s IH]; simpl; intros H.
  - apply list_elem_of_singleton in H as ->. done.
  - apply elem_of_cons in H as [->|H]; [done |]. specialize (IH H). lia.
Qed.

Lemma run_suffixes_suffixes (s' s : string) :
  s' ∈ run_suffixes s -> s' ∈ suffixes s.
Proof.
  induction s as [|c s IH]; simpl; intros H; [done |].
  apply elem_of_cons in H as [->|H]; [apply elem_of_cons; by left |].
  apply elem_of_cons. right.
  destruct (decide (c = "010"%char)); [by apply elem_of_nil in H | by apply IH].
Qed.

(** A match ends where the continuation takes over, at a suffix. *)
Lemma rmatch_Some {R : Type} (r : regex) (s : string) (gs : groups)
  (k : string -> groups -> option R) (x : R) :
  rmatch r s gs k = Some x ->
  exists s' gs', s' ∈ suffixes s /\ k s' gs' = Some x.
Proof.
  revert s gs k. induction r as [c| |r1 IH1 r2 IH2|r1 IH1|name r1 IH1];
    intros s gs k H.
  - simpl in H. destruct s as [|c' s']; [done |].
    destruct (decide (c' = c)) as [->|]; [|done].
    exists s', gs. split; [apply suffixes_tail | done].
  - induction s as [|c s IHs]; [done |].
    rewrite rmatch_dot_plus in H.
    destruct (decide (c = "010"%char)); [done |].
    destruct (k s gs) as [y|] eqn:E.
    + injection H as ->. exists s, gs. split; [apply suffixes_tail | done].
    + destruct (IHs H) as (s' & gs' & Hs' & Hk). exists s', gs'.
      split; [|done]. eapply suffixes_trans; [exact Hs' | apply suffixes_tail].
  - simpl in H. apply IH1 in H as (s1 & gs1 & Hs1 & H).
    apply IH2 in H as (s2 & gs2 & Hs2 & H). exists s2, gs2.
    split; [by eapply suffixes_trans | done].
  - simpl in H. destruct (rmatch r1 s gs k) as [y|] eqn:E.
    + injection H as ->. exact (IH1 _ _ _ E).
    + exists s, gs. split; [apply suffixes_self | done].
  - simpl in H. apply IH1 in H as (s' & gs' & Hs' & H). eauto.
Qed.

Lemma match_here_rest (r : regex) (s rest : string) (gs : groups) :
  match_here r s = Some (gs, rest) -> rest ∈ suffixes s.
Proof.
  unfold match_here. intros H.
  apply rmatch_Some in H as (s' & gs' & Hs' & [= _ <-]). done.
Qed.

(** Fuel beyond the length of the input changes nothing. *)
Lemma pieces_fuel (r : regex) (n : nat) :
  forall (s : string) (f1 f2 : nat),
    String.length s < n -> String.length s < f1 -> String.length s < f2 ->
    pieces f1 r s = pieces f2 r s.
Proof.
  induction n as [|n IH]; intros s f1 f2 Hn H1 H2; [lia |].
  destruct f1 as [|f1]; [lia |]. destruct f2 as [|f2]; [lia |].
  cbn [pieces].
  destruct (match_here r s) as [[gs rest]|] eqn:E; destruct s as [|c s'];
    try done.
  - apply match_here_rest in E. apply suffixes_length in E.
    destruct (decide (String.length rest = String.length (String c s')))
      as [Heq|Hne].
    + do 2 f_equal. simpl in *. apply IH; lia.
    + f_equal. apply IH; lia.
  - f_equal. simpl in *. apply IH; lia.
Qed.

(** Characters in front of which nothing matches are stepped over. *)
Lemma pieces_skip (r : regex) (pre s : string) (fuel : nat) :
  (forall p, p ∈ suffixes pre -> p <> "" -> match_here r (p +:+ s) = None) ->
  String.length (pre +:+ s) < fuel ->
  pieces fuel r (pre +:+ s) =
  map Skipped (chars pre) ++ pieces (fuel - String.length pre) r s.
Proof.
  revert fuel. induction pre as [|c pre IH]; intros fuel Hm Hf.
  - simpl. by rewrite Nat.sub_0_r.
  - destruct fuel as [|fuel]; [lia |].
    pose proof (Hm (String c pre) (suffixes_self _) ltac:(done)) as Hc.
    change (String c pre +:+ s) with (String c (pre +:+ s)) in *.
    cbn [pieces]. rewrite Hc.
    cbn [chars map app String.length Nat.sub]. f_equal.
    apply IH; [|simpl in Hf; lia].
    intros p Hp Hne. apply Hm; [|done].
    eapply suffixes_trans; [exact Hp | apply suffixes_tail].
Qed.

Lemma match_here_other (c : ascii) (s : string) :
  c <> "<"%char -> match_here _PATH_REGEX (String c s) = None.
Proof.
  intros Hc. apply match_here_no_placeholder.
  destruct s; simpl; [done | by rewrite decide_False].
Qed.

Lemma rmatch_lit_other {R : Type} (c : ascii) (q rest : string) (gs : groups)
  (k : string -> groups -> option R) :
  q <> "" -> c ∉ chars q -> rmatch (Lit c) (q +:+ rest) gs k = None.
Proof.
  destruct q as [|c' q]; [done |]. intros _ Hc. simpl.
  rewrite decide_False; [done |]. intros ->. apply Hc. simpl.
  apply elem_of_cons. by left.
Qed.

Lemma rmatch_lit_absent {R : Type} (c : ascii) (s : string) (gs : groups)
  (k : string -> groups -> option R) :
  c ∉ chars s -> rmatch (Lit c) s gs k = None.
Proof.
  destruct s as [|c' s]; [done |]. intros Hc. simpl.
  rewrite decide_False; [done |]. intros ->. apply Hc. simpl.
  apply elem_of_cons. by left.
Qed.

(** [.+?] takes the shortest run after which the continuation succeeds. *)
Lemma rmatch_lazy_run {R : Type} (c : ascii) (u rest : string) (gs : groups)
  (k : string -> groups -> option R) (x : R) :
  "010"%char ∉ chars (String c u) ->
  (forall q, q ∈ suffixes u -> q <> "" -> k (q +:+ rest) gs = None) ->
  k rest gs = Some x ->
  rmatch DotPlusLazy (String c (u +:+ rest)) gs k = Some x.
Proof.
  revert c. induction u as [|c1 u IH]; intros c Hnl Hk Hx.
  - change ("" +:+ rest) with rest. rewrite rmatch_dot_plus, decide_False.
    + by rewrite Hx.
    + intros ->. apply Hnl. simpl. apply elem_of_cons. by left.
  - rewrite rmatch_dot_plus, decide_False.
    + rewrite (Hk (String c1 u)) by (apply suffixes_self || done).
      change (String c1 u +:+ rest) with (String c1 (u +:+ rest)).
      apply IH; [| |done].
      * intros Hin. apply Hnl. simpl. apply elem_of_cons. by right.
      * intros q Hq Hne. apply Hk; [|done].
        eapply suffixes_trans; [exact Hq | apply suffixes_tail].
    + intros ->. apply Hnl. simpl. apply elem_of_cons. by left.
Qed.

Lemma rmatch_cat {R : Type} (r1 r2 : regex) (s : string) (gs : groups)
  (k : string -> groups -> option R) :
  rmatch (Cat r1 r2) s gs k =
  rmatch r1 s gs (fun s' gs' => rmatch r2 s' gs' k).
Proof. reflexivity. Qed.

Lemma rmatch_group {R : Type} (name : option string) (r : regex) (s : string)
  (gs : groups) (k : string -> groups -> option R) :
  rmatch (Group name r) s gs k =
  rmatch r s gs (fun s' gs' => k s' (set_group name (consumed s s') gs')).
Proof. reflexivity. Qed.

Lemma rmatch_opt {R : Type} (r : regex) (s : string) (gs : groups)
  (k : string -> groups -> option R) :
  rmatch (Opt r) s gs k =
  match rmatch r s gs k with Some x => Some x | None => k s gs end.
Proof. reflexivity. Qed.

Lemma rmatch_lit {R : Type} (c : ascii) (s : string) (gs : groups)
  (k : string -> groups -> option R) :
  rmatch (Lit c) (String c s) gs k = k s gs.
Proof. simpl. by rewrite decide_True. Qed.

Lemma suffix_chars_absent (c : ascii) (q u : string) :
  c ∉ chars u -> q ∈ suffixes u -> c ∉ chars q.
Proof. intros Hc Hq Hin. apply Hc. by eapply suffixes_chars. Qed.

(** The name of a placeholder: up to the first [>]. *)
Lemma rmatch_name {R : Type} (nm post : string) (gs : groups)
  (k : string -> groups -> option R) (x : R) :
  nm <> "" -> ">"%char ∉ chars nm -> "010"%char ∉ chars nm ->
  k post (dict_set "name" nm gs) = Some x ->
  rmatch (Cat (Group (Some "name") DotPlusLazy) (Lit ">"))
    (nm +:+ ">" +:+ post) gs k = Some x.
Proof.
  intros Hne Hgt Hnl Hk. destruct nm as [|c u]; [done |].
  rewrite rmatch_cat, rmatch_group.
  change (String c u +:+ ">" +:+ post)
    with (String c (u +:+ ">" +:+ post)) at 1.
  apply rmatch_lazy_run; [done | |].
  - intros q Hq Hq0. apply rmatch_lit_other; [done |].
    apply (suffix_chars_absent _ _ (String c u)); [done |].
    eapply suffixes_trans; [exact Hq | apply suffixes_tail].
  - change (">" +:+ post) with (String ">" post). rewrite rmatch_lit.
    change (String ">" post) with (">" +:+ post).
    rewrite consumed_app. exact Hk.
Qed.

(** The type of a placeholder, when it has one: up to the first [:]. *)
Lemma rmatch_type {R : Type} (ty rest : string) (gs : groups)
  (k : string -> groups -> option R) (x : R) :
  ty <> "" -> ":"%char ∉ chars ty -> "010"%char ∉ chars ty ->
  k rest (dict_set "type" ty gs) = Some x ->
  rmatch (Group None (Cat (Group (Some "type") DotPlusLazy) (Lit ":")))
    (ty +:+ ":" +:+ rest) gs k = Some x.
Proof.
  intros Hne Hc Hnl Hk. destruct ty as [|c u]; [done |].
  rewrite rmatch_group, rmatch_cat, rmatch_group.
  change (String c u +:+ ":" +:+ rest)
    with (String c (u +:+ ":" +:+ rest)) at 1.
  apply rmatch_lazy_run; [done | |].
  - intros q Hq Hq0. apply rmatch_lit_other; [done |].
    apply (suffix_chars_absent _ _ (String c u)); [done |].
    eapply suffixes_trans; [exact Hq | apply suffixes_tail].
  - change (":" +:+ rest) with (String ":" rest). rewrite rmatch_lit.
    change (String ":" rest) with (":" +:+ rest).
    rewrite consumed_app. exact Hk.
Qed.

Lemma match_here_typed (ty nm post : string) :
  ty <> "" -> ":"%char ∉ chars ty -> "010"%char ∉ chars ty ->
  nm <> "" -> ">"%char ∉ chars nm -> "010"%char ∉ chars nm ->
  match_here _PATH_REGEX ("<" +:+ ty +:+ ":" +:+ nm +:+ ">" +:+ post) =
  Some ([("type", ty); ("name", nm)], post).
Proof.
  intros Hty Hc Hnlt Hnm Hgt Hnln. unfold match_here, _PATH_REGEX.
  change ("<" +:+ ?s) with (String "<" s).
  rewrite rmatch_cat, rmatch_lit, rmatch_cat, rmatch_opt.
  rewrite (rmatch_type ty _ [] _ ([("type", ty); ("name", nm)], post));
    [done | done | done | done |].
  by apply rmatch_name.
Qed.

Lemma rmatch_type_absent {R : Type} (s : string) (gs : groups)
  (k : string -> groups -> option R) :
  ":"%char ∉ chars s ->
  rmatch (Group None (Cat (Group (Some "type") DotPlusLazy) (Lit ":")))
    s gs k = None.
Proof.
  intros Hc. rewrite rmatch_group, rmatch_cat, rmatch_group.
  apply rmatch_fail; [done |]. intros s' gs' Hs'.
  apply rmatch_lit_absent. apply run_suffixes_suffixes in Hs'.
  by eapply suffix_chars_absent.
Qed.

Lemma match_here_untyped (nm post : string) :
  nm <> "" -> ">"%char ∉ chars nm -> "010"%char ∉ chars nm ->
  ":"%char ∉ chars nm -> ":"%char ∉ chars post ->
  match_here _PATH_REGEX ("<" +:+ nm +:+ ">" +:+ post) =
  Some ([("name", nm)], post).
Proof.
  intros Hnm Hgt Hnl Hc Hcp. unfold match_here, _PATH_REGEX.
  change ("<" +:+ ?s) with (String "<" s).
  rewrite rmatch_cat, rmatch_lit, rmatch_cat, rmatch_opt.
  rewrite rmatch_type_absent.
  - by apply rmatch_name.
  - rewrite !chars_app. rewrite !elem_of_app. simpl.
    rewrite elem_of_cons, elem_of_nil. intros [?|[[?|?]|?]]; done.
Qed.

Lemma sub_skipped_app (repl : groups -> string) (s out : string)
  (ps : list piece) :
  foldr (fun p out =>
           match p with
           | Matched gs => repl gs +:+ out
           | Skipped c => String c out
           end) out (map Skipped (chars s) ++ ps) =
  s +:+ foldr (fun p out =>
                 match p with
                 | Matched gs => repl gs +:+ out
                 | Skipped c => String c out
                 end) out ps.
Proof. induction s as [|c s IH]; simpl; [done | by rewrite IH]. Qed.

Lemma finditer_skipped_app (s : string) (ps : list piece) :
  omap (fun p => match p with Matched gs => Some gs | Skipped _ => None end)
       (map Skipped (chars s) ++ ps) =
  omap (fun p => match p with Matched gs => Some gs | Skipped _ => None end)
       ps.
Proof. induction s as [|c s IH]; simpl; done. Qed.

(** One match of [_PATH_REGEX] with no [<] in front of it: the pieces of
    the path are the characters in front, the match, and the pieces of what
    is behind. *)
Lemma pieces_step (pre m post : string) (gs : groups) :
  "<"%char ∉ chars pre -> m <> "" ->
  match_here _PATH_REGEX (m +:+ post) = Some (gs, post) ->
  pieces (S (String.length (pre +:+ m +:+ post))) _PATH_REGEX
         (pre +:+ m +:+ post) =
  map Skipped (chars pre) ++
  Matched gs :: pieces (S (String.length post)) _PATH_REGEX post.
Proof.
  intros Hpre Hm Hmatch. rewrite pieces_skip; [| |lia].
  - f_equal. rewrite length_app.
    replace (S (String.length pre + String.length (m +:+ post)) -
             String.length pre)
      with (S (String.length (m +:+ post))) by lia.
    destruct m as [|c m']; [done |].
    change (String c m' +:+ post) with (String c (m' +:+ post)) in *.
    set (rhs := pieces (S (String.length post)) _PATH_REGEX post).
    cbn [pieces]. rewrite Hmatch.
    rewrite decide_False by (simpl; rewrite length_app; lia).
    f_equal. subst rhs. apply (pieces_fuel _ (S (String.length post)));
      simpl; rewrite ?length_app; lia.
  - intros p Hp Hne. destruct p as [|c p']; [done |].
    apply match_here_other. intros ->. apply Hpre.
    eapply suffixes_chars; [exact Hp |]. simpl. apply elem_of_cons. by left.
Qed.

Lemma format_path_step (pre m post : string) (gs : groups) :
  "<"%char ∉ chars pre -> m <> "" ->
  match_here _PATH_REGEX (m +:+ post) = Some (gs, post) ->
  _format_path_for_swagger (pre +:+ m +:+ post) =
  (pre +:+ format_braces (group gs "name") +:+
     (_format_path_for_swagger post).1,
   {| name := group gs "name"; type := or_string (group gs "type") |} ::
     (_format_path_for_swagger post).2).
Proof.
  intros Hpre Hm Hmatch. unfold _format_path_for_swagger, finditer, sub.
  rewrite (pieces_step pre m post gs) by done. cbn [fst snd]. f_equal.
  - by rewrite sub_skipped_app.
  - by rewrite finditer_skipped_app.
Qed.

(** X7: a typed placeholder with no [<] in front of it.  Whatever follows
    the [<] up to the first colon is the type, as long as it stays on one
    line, be there a [>] or another [<] in it; the name runs up to the next
    [>]; the rest of the path is translated on its own. *)
Theorem format_path_typed_placeholder (pre ty nm post : string) :
  "<"%char ∉ chars pre ->
  ty <> "" -> ":"%char ∉ chars ty -> "010"%char ∉ chars ty ->
  nm <> "" -> ">"%char ∉ chars nm -> "010"%char ∉ chars nm ->
  _format_path_for_swagger
    (pre +:+ "<" +:+ ty +:+ ":" +:+ nm +:+ ">" +:+ post) =
  (pre +:+ "{" +:+ nm +:+ "}" +:+ (_format_path_for_swagger post).1,
   PathArgument (Some nm) ty :: (_format_path_for_swagger post).2).
Proof.
  intros Hpre Hty Hc Hnlt Hnm Hgt Hnln.
  pose proof (format_path_step pre ("<" +:+ ty +:+ ":" +:+ nm +:+ ">") post
                [("type", ty); ("name", nm)] Hpre ltac:(done)) as Hstep.
  rewrite !string_app_assoc in Hstep.
  rewrite Hstep by by apply match_here_typed.
  unfold format_braces, group. simpl. rewrite !string_app_assoc.
  destruct ty; done.
Qed.

Lemma format_path_typed_placeholder_witness :
  _format_path_for_swagger
    ("/a/" +:+ "<" +:+ "x>/b/<int" +:+ ":" +:+ "y" +:+ ">" +:+ "/c") =
  ("/a/" +:+ "{" +:+ "y" +:+ "}" +:+ (_format_path_for_swagger "/c").1,
   PathArgument (Some "y") "x>/b/<int" :: (_format_path_for_swagger "/c").2).
Proof.
  apply (format_path_typed_placeholder "/a/" "x>/b/<int" "y" "/c");
    try discriminate;
    apply (bool_decide_unpack _); vm_compute; exact I.
Defined.

(** X8: an untyped placeholder with no [<] in front of it and no colon
    behind it: the name runs up to the first [>], the type is [string], and
    the rest of the path is translated on its own. *)
Theorem format_path_untyped_placeholder (pre nm post : string) :
  "<"%char ∉ chars pre ->
  nm <> "" -> ">"%char ∉ chars nm -> "010"%char ∉ chars nm ->
  ":"%char ∉ chars nm -> ":"%char ∉ chars post ->
  _format_path_for_swagger (pre +:+ "<" +:+ nm +:+ ">" +:+ post) =
  (pre +:+ "{" +:+ nm +:+ "}" +:+ (_format_path_for_swagger post).1,
   PathArgument (Some nm) "string" :: (_format_path_for_swagger post).2).
Proof.
  intros Hpre Hnm Hgt Hnl Hc Hcp.
  pose proof (format_path_step pre ("<" +:+ nm +:+ ">") post
                [("name", nm)] Hpre ltac:(done)) as Hstep.
  rewrite !string_app_assoc in Hstep.
  rewrite Hstep by by apply match_here_untyped.
  unfold format_braces, group. simpl. by rewrite !string_app_assoc.
Qed.

Lemma format_path_untyped_placeholder_witness :
  _format_path_for_swagger ("/foos/" +:+ "<" +:+ "foo_uid" +:+ ">" +:+ "/x") =
  ("/foos/" +:+ "{" +:+ "foo_uid" +:+ "}" +:+ (_format_path_for_swagger "/x").1,
   PathArgument (Some "foo_uid") "string" :: (_format_path_for_swagger "/x").2).
Proof.
  apply (format_path_untyped_placeholder "/foos/" "foo_uid" "/x");
    try discriminate;
    apply (bool_decide_unpack _); vm_compute; exact I.
Defined.

(** *** Every argument has a name *)

Lemma rmatch_dot_Some {R : Type} (s : string) (gs : groups)
  (k : string -> groups -> option R) (x : R) :
  rmatch DotPlusLazy s gs k = Some x ->
  exists s', String.length s' < String.length s /\ k s' gs = Some x.
Proof.
  induction s as [|c s IH]; [done |]. rewrite rmatch_dot_plus.
  destruct (decide (c = "010"%char)); [done |].
  destruct (k s gs) as [y|] eqn:E.
  - intros [= ->]. exists s. split; [simpl; lia | done].
  - intros H. destruct (IH H) as (s' & Hlen & Hk). exists s'.
    split; [simpl; lia | done].
Qed.

Lemma consumed_nonempty (s q : string) :
  String.length q < String.length s -> consumed s q <> "".
Proof.
  unfold consumed. intros Hlen.
  destruct (String.length s - String.length q) as [|n] eqn:E; [lia |].
  destruct s as [|c s]; [simpl in Hlen; lia | done].
Qed.

Lemma match_here_name (s rest : string) (gs : groups) :
  match_here _PATH_REGEX s = Some (gs, rest) ->
  exists n, group gs "name" = Some n /\ n <> "".
Proof.
  unfold match_here, _PATH_REGEX. rewrite rmatch_cat. intros H.
  apply rmatch_Some in H as (s1 & gs1 & _ & H).
  rewrite rmatch_cat in H.
  apply rmatch_Some in H as (s2 & gs2 & _ & H).
  rewrite rmatch_cat, rmatch_group in H.
  apply rmatch_dot_Some in H as (q & Hlen & H).
  destruct q as [|c q]; [done |]. simpl in H.
  destruct (decide (c = ">"%char)) as [->|]; [|done].
  injection H as <- <-. exists (consumed s2 (String ">" q)).
  split; [apply dict_get_set_eq | by apply consumed_nonempty].
Qed.

Lemma pieces_named (fuel : nat) (s : string) :
  Forall (fun p => match p with
                   | Matched gs => exists n, group gs "name" = Some n /\ n <> ""
                   | Skipped _ => True
                   end) (pieces fuel _PATH_REGEX s).
Proof.
  revert s. induction fuel as [|fuel IH]; intros s; [constructor |].
  cbn [pieces].
  destruct (match_here _PATH_REGEX s) as [[gs rest]|] eqn:E;
    destruct s as [|c s']; try (by constructor).
  apply match_here_name in E.
  destruct (decide _); repeat (apply Forall_cons; split; [done |]);
      apply IH.
Qed.

Lemma or_string_nonempty (x : option string) : or_string x <> "".
Proof. by destruct x as [[|c t]|]. Qed.

(** X9: whatever the path, every argument that [_format_path_for_swagger]
    extracts has a name, which is not empty, and a type that is not empty:
    the name is never [None]. *)
Theorem format_path_arguments_named (path : string) :
  Forall (fun a => exists n, name a = Some n /\ n <> "" /\ type a <> "")
         (_format_path_for_swagger path).2.
Proof.
  unfold _format_path_for_swagger, finditer. cbn [snd].
  pose proof (pieces_named (S (String.length path)) path) as Hall.
  induction Hall as [|[c|gs] ps Hp _ IH]; simpl; [constructor | done |].
  constructor; [|done]. destruct Hp as (n & Hn & Hne). exists n. simpl.
  split; [done |]. split; [done | apply or_string_nonempty].
Qed.

(** *** Security definitions *)

Lemma distinct_elem (seen : gset nat) (xs : list Authenticator)
  (a : Authenticator) :
  a ∈ distinct seen xs -> a ∈ xs.
Proof.
  revert seen. induction xs as [|x xs IH]; intros seen; simpl; [done |].
  destruct (decide (authenticator_id x ∈ seen)).
  - intros H. apply elem_of_cons. right. by eapply IH.
  - intros H. apply elem_of_cons in H as [->|H]; apply elem_of_cons;
      [by left | right; by eapply IH].
Qed.

Lemma distinct_covers (seen : gset nat) (xs : list Authenticator)
  (a : Authenticator) :
  a ∈ xs -> authenticator_id a ∉ seen ->
  exists a', a' ∈ distinct seen xs /\
             authenticator_id a' = authenticator_id a.
Proof.
  revert seen. induction xs as [|x xs IH]; intros seen Hin Hseen;
    [by apply elem_of_nil in Hin |].
  simpl. destruct (decide (authenticator_id x ∈ seen)) as [Hx|Hx].
  - apply elem_of_cons in Hin as [->|Hin]; [done | by apply IH].
  - destruct (decide (authenticator_id x = authenticator_id a)) as [Heq|Hne].
    + exists x. split; [apply elem_of_cons; by left | done].
    + apply elem_of_cons in Hin as [->|Hin]; [done |].
      destruct (IH ({[authenticator_id x]} ∪ seen) Hin) as (a' & Ha' & Hid).
      * rewrite elem_of_union, elem_of_singleton. intros [?|?]; congruence.
      * exists a'. split; [apply elem_of_cons; by right | done].
Qed.

Lemma distinct_identified (xs : list Authenticator) (a : Authenticator) :
  identified xs -> a ∈ xs -> a ∈ distinct ∅ xs.
Proof.
  intros Hid Hin.
  destruct (distinct_covers ∅ xs a Hin) as (a' & Ha' & Heq); [set_solver |].
  by rewrite <- (Hid a' a (distinct_elem _ _ _ Ha') Hin Heq).
Qed.

Lemma security_loop_Ok (self : SwaggerV2Generator) (todo : list Authenticator)
  (acc sd : dict) :
  security_loop self todo acc = Ok sd ->
  (forall a, a ∈ todo ->
     exists k definition,
       security_definition_of self a k definition /\ k ∈ dict_keys sd) /\
  (forall k, k ∈ dict_keys acc -> k ∈ dict_keys sd) /\
  (forall k v, dict_get k sd = Some v ->
     dict_get k acc = Some v \/
     exists a, a ∈ todo /\ security_definition_of self a k v).
Proof.
  revert acc. induction todo as [|a todo IH]; intros acc H.
  - injection H as <-. split_and!; [|done | by left].
    intros a Ha. by apply elem_of_nil in Ha.
  - simpl in H.
    destruct (authenticator_converters self !! authenticator_class a)
      as [converter|] eqn:Ec; [|done].
    destruct (converter a) as [key definition] eqn:Ea.
    destruct (IH _ H) as (Hcov & Hsub & Hent).
    assert (security_definition_of self a key definition) as Hdef.
    { by exists converter. }
    split_and!.
    + intros a' Ha'. apply elem_of_cons in Ha' as [->|Ha']; [|by apply Hcov].
      exists key, definition. split; [done |].
      apply Hsub, dict_keys_set_elem. by left.
    + intros k Hk. apply Hsub, dict_keys_set_elem. by right.
    + intros k v Hget. destruct (Hent k v Hget) as [Hacc|(a' & Ha' & Hd)].
      * apply dict_get_set_inv in Hacc as [[-> ->]|[_ Hacc]]; [|by left].
        right. exists a. split; [apply elem_of_cons; by left | done].
      * right. exists a'. split; [apply elem_of_cons; by right | done].
Qed.

Lemma elem_of_concat {A : Type} (x : A) (ls : list (list A)) :
  x ∈ concat ls <-> exists l, l ∈ ls /\ x ∈ l.
Proof.
  rewrite list_elem_of_In, in_concat. split.
  - intros (l & Hl & Hx). exists l. by rewrite !list_elem_of_In.
  - intros (l & Hl & Hx). exists l. by rewrite <- !list_elem_of_In.
Qed.

(** The routes that [_iterate_path_definitions] yields. *)
Lemma iterate_elem (paths : route_table) (d : PathDefinition) :
  d ∈ _iterate_path_definitions paths <->
  exists path methods method,
    (path, methods) ∈ paths /\ (method, d) ∈ methods.
Proof.
  unfold _iterate_path_definitions. rewrite elem_of_concat. split.
  - intros (l & Hl & Hd).
    apply list_elem_of_fmap in Hl as ([path methods] & -> & Hp).
    apply list_elem_of_fmap in Hd as ([method d'] & -> & Hm).
    by exists path, methods, method.
  - intros (path & methods & method & Hp & Hm).
    exists (map snd methods). split.
    + apply list_elem_of_fmap. by exists (path, methods).
    + apply list_elem_of_fmap. by exists (method, d).
Qed.

Lemma own_in_use (paths : route_table)
  (default_authenticator : option Authenticator) (path method : string)
  (methods : list (string * PathDefinition)) (d : PathDefinition)
  (a : Authenticator) :
  (path, methods) ∈ paths -> (method, d) ∈ methods ->
  authenticator d = Own a ->
  a ∈ authenticators_in_use paths default_authenticator.
Proof.
  intros Hp Hm Ha. unfold authenticators_in_use.
  assert (a ∈ omap (fun d => match authenticator d with
                             | Own a => Some a
                             | _ => None
                             end) (_iterate_path_definitions paths)) as Hin.
  { apply list_elem_of_omap. exists d. split; [|by rewrite Ha].
    apply iterate_elem. by exists path, methods, method. }
  destruct default_authenticator; [apply elem_of_app; by left | done].
Qed.

Lemma default_in_use (paths : route_table) (a : Authenticator) :
  a ∈ authenticators_in_use paths (Some a).
Proof.
  unfold authenticators_in_use. apply elem_of_app. right.
  by apply list_elem_of_singleton.
Qed.

Section SecurityFacts.
Variable recursion_limit : nat.
Variable set_order : list Authenticator -> list Authenticator.
Variable self : SwaggerV2Generator.

Lemma _get_security_definitions_unfold (paths : route_table)
  (default_authenticator : option Authenticator) :
  _get_security_definitions set_order self paths default_authenticator =
  security_loop self
    (set_order (distinct ∅ (authenticators_in_use paths default_authenticator)))
    [].
Proof. reflexivity. Qed.

Lemma security_definitions_spec (paths : route_table)
  (default_authenticator : option Authenticator) (sd : dict) :
  (forall l, set_order l ≡ₚ l) ->
  identified (authenticators_in_use paths default_authenticator) ->
  _get_security_definitions set_order self paths default_authenticator =
    Ok sd ->
  (forall a, a ∈ authenticators_in_use paths default_authenticator ->
     exists k definition,
       security_definition_of self a k definition /\ k ∈ dict_keys sd) /\
  (forall k v, dict_get k sd = Some v ->
     exists a, a ∈ authenticators_in_use paths default_authenticator /\
               security_definition_of self a k v).
Proof.
  intros Hperm Hid H. rewrite _get_security_definitions_unfold in H.
  apply security_loop_Ok in H as (Hcov & _ & Hent). split.
  - intros a Ha. apply Hcov. rewrite Hperm. by apply distinct_identified.
  - intros k v Hget. destruct (Hent k v Hget) as [?|(a & Ha & Hd)]; [done |].
    exists a. split; [|done]. rewrite Hperm in Ha. by eapply distinct_elem.
Qed.

(** X10: when the walk over the set of authenticators visits each element
    once, and authenticators are told apart by identity,
    [_get_security_definitions] returns a table that has, for every
    authenticator of a route and for the default one, the name that the
    converter of its class gives it; and every entry of the table is the
    name and the definition that a converter gives for one of them. *)
Theorem security_definitions_cover (paths : route_table)
  (default_authenticator : option Authenticator) (sd : dict) :
  (forall l, set_order l ≡ₚ l) ->
  identified (authenticators_in_use paths default_authenticator) ->
  _get_security_definitions set_order self paths default_authenticator =
    Ok sd ->
  (forall path methods method d a,
     (path, methods) ∈ paths -> (method, d) ∈ methods ->
     authenticator d = Own a ->
     exists k definition,
       security_definition_of self a k definition /\ k ∈ dict_keys sd) /\
  (forall a, default_authenticator = Some a ->
     exists k definition,
       security_definition_of self a k definition /\ k ∈ dict_keys sd) /\
  (forall k v, dict_get k sd = Some v ->
     exists a, a ∈ authenticators_in_use paths default_authenticator /\
               security_definition_of self a k v).
Proof.
  intros Hperm Hid H.
  destruct (security_definitions_spec _ _ _ Hperm Hid H) as [Hcov Hent].
  split_and!; [| |done].
  - intros path methods method d a Hp Hm Ha. apply Hcov.
    by eapply own_in_use.
  - intros a ->. apply Hcov. apply default_in_use.
Qed.

Lemma _get_security_Ok (a : Authenticator) (security : json) :
  _get_security self a = Ok security ->
  exists converter,
    authenticator_converters self !! authenticator_class a = Some converter /\
    security = JDict [((converter a).1, JList [])].
Proof.
  unfold _get_security.
  destruct (authenticator_converters self !! authenticator_class a)
    as [converter|]; [|done].
  destruct (converter a) as [nm def] eqn:E. intros [= <-].
  exists converter. by rewrite E.
Qed.

(** The operations of the generated paths object, each built for a route. *)
Lemma _get_paths_operations (paths : route_table) (out : dict) :
  _get_paths recursion_limit self paths = Ok out ->
  forall sp pd m op,
    dict_get sp out = Some (JDict pd) -> dict_get m pd = Some (JDict op) ->
    exists path methods method d,
      (path, methods) ∈ paths /\ (method, d) ∈ methods /\
      sp = (_format_path_for_swagger path).1 /\ m = lower method /\
      operation recursion_limit self d = Ok op.
Proof.
  intros H. unfold _get_paths in H.
  eapply (_get_paths_from_entries recursion_limit self
            (fun sp v =>
               forall pd m op,
                 v = JDict pd -> dict_get m pd = Some (JDict op) ->
                 exists path methods method d,
                   (path, methods) ∈ paths /\ (method, d) ∈ methods /\
                   sp = (_format_path_for_swagger path).1 /\
                   m = lower method /\
                   operation recursion_limit self d = Ok op))
    in H as [_ Hent].
  - intros sp pd m op Hsp Hm. by eapply Hent.
  - done.
  - intros path methods pd Hin Hpd pd' m op [= <-] Hm.
    apply (path_definition_entries recursion_limit self) in Hpd as [_ Hent].
    destruct (Hent m _ Hm)
      as [[_ [ps ?]]|(method & d & op' & Hmd & -> & Hop & [= <-])]; [done |].
    by exists path, methods, method, d.
Qed.

(** X11: in a generated document every security requirement is defined: the
    top-level [security], present when the framer has a default
    authenticator, and the [security] of each operation of the paths object
    are the empty map or a map from one name to the empty list, and the name
    is a key of [securityDefinitions]. *)
Theorem generate_security_is_defined (framer : Framer) (doc : dict) :
  (forall l, set_order l ≡ₚ l) ->
  identified (authenticators_in_use (paths framer)
                (default_authenticator framer)) ->
  generate recursion_limit set_order self framer = Ok doc ->
  exists sd paths_out,
    dict_get sw.security_definitions doc = Some (JDict sd) /\
    dict_get sw.paths doc = Some (JDict paths_out) /\
    (forall a, default_authenticator framer = Some a ->
       exists k, dict_get sw.security doc = Some (JDict [(k, JList [])]) /\
                 k ∈ dict_keys sd) /\
    (default_authenticator framer = None ->
       dict_get sw.security doc = None) /\
    (forall sp pd m op security,
       dict_get sp paths_out = Some (JDict pd) ->
       dict_get m pd = Some (JDict op) ->
       dict_get sw.security op = Some security ->
       security = JDict [] \/
       exists k, security = JDict [(k, JList [])] /\ k ∈ dict_keys sd).
Proof.
  intros Hperm Hid H. unfold generate in H.
  inv_bind H. inv_bind H. inv_bind H. rename a into sd, a1 into paths_out.
  destruct (security_definitions_spec _ _ _ Hperm Hid E) as [Hcov _].
  assert (forall a security,
            a ∈ authenticators_in_use (paths framer)
                  (default_authenticator framer) ->
            _get_security self a = Ok security ->
            exists k, security = JDict [(k, JList [])] /\ k ∈ dict_keys sd)
    as Hsec.
  { intros a security Ha Hs.
    apply _get_security_Ok in Hs as (converter & Hc & ->).
    destruct (Hcov a Ha) as (k & def & (converter' & Hc' & Hk) & Hin).
    rewrite Hc in Hc'. injection Hc' as <-. rewrite Hk. by exists k. }
  assert (forall sp pd m op security,
            dict_get sp paths_out = Some (JDict pd) ->
            dict_get m pd = Some (JDict op) ->
            dict_get sw.security op = Some security ->
            security = JDict [] \/
            exists k, security = JDict [(k, JList [])] /\ k ∈ dict_keys sd)
    as Hops.
  { intros sp pd m op security Hsp Hm Hs.
    destruct (_get_paths_operations _ _ E1 sp pd m op Hsp Hm)
      as (path & methods & method & d & Hp & Hmd & _ & _ & Hop).
    pose proof (operation_security recursion_limit self d op Hop) as Hd.
    unfold security_of in Hd.
    destruct (authenticator d) as [| |a] eqn:Ea.
    - congruence.
    - left. congruence.
    - right. destruct Hd as (converter & Hc & Hget).
      rewrite Hget in Hs. injection Hs as <-.
      apply (Hsec a); [by eapply own_in_use |].
      unfold _get_security. rewrite Hc. by destruct (converter a). }
  exists sd, paths_out.
  destruct (default_authenticator framer) as [a|] eqn:Ed.
  - inv_bind H. injection H as <-.
    split_and!; [done | done | | done | done].
    intros a' [= <-].
    destruct (Hsec a a1 (default_in_use _ _) E2) as (k & -> & Hk).
    by exists k.
  - injection H as <-. split_and!; done.
Qed.

End SecurityFacts.

Lemma security_definitions_cover_witness :
  exists sd,
    _get_security_definitions (fun l => l) test_generator
      (paths test_framer) None = Ok sd /\
    exists k definition,
      security_definition_of test_generator test_authenticator k definition /\
      k ∈ dict_keys sd.
Proof.
  destruct (_get_security_definitions (fun l => l) test_generator
              (paths test_framer) None) as [sd|e] eqn:E;
    [|vm_compute in E; discriminate].
  exists sd. split; [done |].
  destruct (security_definitions_cover (fun l => l) test_generator
              (paths test_framer) None sd) as (Hroutes & _ & _).
  - done.
  - intros a b Ha Hb _. vm_compute in Ha, Hb.
    apply list_elem_of_singleton in Ha, Hb. congruence.
  - exact E.
  - apply (Hroutes "/foos/<foo_uid>"
             [("GET", test_get_foo); ("PATCH", test_update_foo)]
             "PATCH" test_update_foo test_authenticator);
      [apply elem_of_cons; by left
      |apply elem_of_cons; right; apply elem_of_cons; by left
      |reflexivity].
Defined.

Lemma generate_security_is_defined_witness :
  exists doc sd paths_out,
    generate 50 (fun l => l) test_generator test_framer = Ok doc /\
    dict_get sw.security_definitions doc = Some (JDict sd) /\
    dict_get sw.paths doc = Some (JDict paths_out) /\
    dict_get sw.security doc = None /\
    forall sp pd m op security,
      dict_get sp paths_out = Some (JDict pd) ->
      dict_get m pd = Some (JDict op) ->
      dict_get sw.security op = Some security ->
      security = JDict [] \/
      exists k, security = JDict [(k, JList [])] /\ k ∈ dict_keys sd.
Proof.
  destruct (generate 50 (fun l => l) test_generator test_framer)
    as [doc|e] eqn:E; [|vm_compute in E; discriminate].
  destruct (generate_security_is_defined 50 (fun l => l) test_generator
              test_framer doc) as (sd & paths_out & Hsd & Hp & _ & Hn & Hops).
  - done.
  - intros a b Ha Hb _. vm_compute in Ha, Hb.
    apply list_elem_of_singleton in Ha, Hb. congruence.
  - exact E.
  - exists doc, sd, paths_out.
    split_and!; [done | done | done | by apply Hn | done].
Defined.

(** *** The definitions of a document *)

Lemma Forall_dict_update {V : Type} (P : string * V -> Prop)
  (d1 d2 : list (string * V)) :
  Forall P d1 -> Forall P d2 -> Forall P (dict_update d1 d2).
Proof.
  intros H1 H2. revert d1 H1.
  induction H2 as [|[k v] d2 Hkv _ IH]; intros d1 H1; [done |].
  rewrite dict_update_cons. apply IH. by apply Forall_dict_set.
Qed.

(** What one delta is like, for the merge of the deltas. *)
Lemma _flatten_delta (fuel : nat) (schema r : json) (definitions : dict) :
  unique_keys schema = true ->
  _flatten fuel schema = Ok (r, definitions) ->
  Forall (fun kv => flat_object (dict_keys definitions) kv.2) definitions /\
  filed_by_title definitions.
Proof.
  intros Hu H. unfold _flatten in H. inv_bind H.
  apply deepcopy_Ok in E as ->. inv_bind H.
  assert (filed_by_title []) as Hnil by constructor.
  destruct (py_eq_str a sw.object_) eqn:Eo.
  - apply py_eq_str_true in Eo as ->. inv_bind H.
    destruct a as [[key s'] defs]. inv_bind H. injection H as <- <-.
    destruct (proj1 (flatten_flat fuel) _ _ _ Hu E (Forall_nil_2 _) E0)
      as (_ & _ & Hflat).
    split; [done |]. exact (proj1 (flatten_titles fuel) _ _ _ Hnil E0).
  - destruct (py_eq_str a sw.array) eqn:Ea.
    + apply py_eq_str_true in Ea as ->.
      destruct (proj2 (flatten_flat fuel) _ _ _ Hu E (Forall_nil_2 _) H)
        as (_ & _ & Hflat).
      split; [done |]. exact (proj2 (flatten_titles fuel) _ _ _ Hnil H).
    + injection H as <- <-. split; constructor.
Qed.

Section TableFacts.
Variable recursion_limit : nat.
Variable self : SwaggerV2Generator.

Lemma flatten_all_flat (converted : list json) (flattened definitions : dict) :
  Forall (fun obj => unique_keys obj = true) converted ->
  Forall (fun kv => flat_object (dict_keys flattened) kv.2) flattened ->
  filed_by_title flattened ->
  flatten_all recursion_limit converted flattened = Ok definitions ->
  Forall (fun kv => flat_object (dict_keys definitions) kv.2) definitions /\
  filed_by_title definitions.
Proof.
  intros Hu. revert flattened.
  induction Hu as [|obj converted Hobj _ IH]; intros flattened Hflat Hfiled H.
  - by injection H as <-.
  - simpl in H. inv_bind H. destruct a as [r d]. simpl in H.
    destruct (_flatten_delta _ _ _ _ Hobj E) as [Hd Hdt].
    apply (IH (dict_update flattened d)); [| |done].
    + apply Forall_dict_update.
      * eapply Forall_impl; [exact Hflat |]. intros kv.
        apply flat_object_mono. intros k Hk. apply dict_update_elem.
        by left.
      * eapply Forall_impl; [exact Hd |]. intros kv.
        apply flat_object_mono. intros k Hk. apply dict_update_elem.
        by right.
    + by apply Forall_dict_update.
Qed.

(** The state of the first loop of [_get_definitions] when it returns. *)
Lemma _get_definitions_pass_ok (paths : route_table) (st : pass) :
  _get_definitions_pass self paths = Ok st ->
  pass_ok self st /\
  (forall c, c ∈ scheduled self paths -> schema_id c.2 ∈ all_schemas st) /\
  (forall c, c ∈ calls st -> c ∈ scheduled self paths).
Proof.
  intros H. unfold _get_definitions_pass in H. inv_bind H.
  set (st0 := {| all_schemas := {[schema_id (default_response_schema self)]};
                 converted := [a];
                 calls := [(ResponseConverter, default_response_schema self)]
              |}) in H.
  assert (pass_ok self st0) as Hok0.
  { unfold pass_ok. split_and!; simpl.
    - apply NoDup_singleton.
    - intros id. by rewrite elem_of_singleton, list_elem_of_singleton.
    - by repeat constructor. }
  destruct (convert_all_ok _ _ _ _ Hok0 H) as (Hok & Hin & Hsub & Hc).
  split_and!; [done | |].
  - intros c Hcs. unfold scheduled in Hcs.
    apply elem_of_cons in Hcs as [->|Hcs]; [|by apply Hin].
    apply Hsub. simpl. by apply elem_of_singleton.
  - intros c Hcc. unfold scheduled. destruct (Hc c Hcc) as [Hc0|Hct].
    + simpl in Hc0. apply list_elem_of_singleton in Hc0 as ->.
      apply elem_of_cons. by left.
    + apply elem_of_cons. by right.
Qed.

Lemma converted_of_call (st : pass) (obj : json) :
  pass_ok self st -> obj ∈ converted st ->
  exists c, c ∈ calls st /\ convert self c.1 c.2 = Ok obj.
Proof.
  intros (_ & _ & Hconv) Hobj.
  apply list_elem_of_lookup in Hobj as [i Hi].
  destruct (Forall2_lookup_r _ _ _ _ _ Hconv Hi) as (c & Hc & Hcv).
  exists c. split; [by eapply list_elem_of_lookup_2 | done].
Qed.

Lemma call_converted (st : pass) (c : converter_kind * Schema) :
  pass_ok self st -> c ∈ calls st ->
  exists obj, obj ∈ converted st /\ convert self c.1 c.2 = Ok obj.
Proof.
  intros (_ & _ & Hconv) Hc.
  apply list_elem_of_lookup in Hc as [i Hi].
  destruct (Forall2_lookup_l _ _ _ _ _ Hconv Hi) as (obj & Hobj & Hcv).
  exists obj. split; [by eapply list_elem_of_lookup_2 | done].
Qed.

(** X12: when the converters return fragments whose dicts have each key
    once, the table that [_get_definitions] returns is flat and closed, as
    each delta is: every entry is an object, stored under its own title,
    whose fields are references to keys of the table, primitive fragments or
    arrays of such; and no key is there twice. *)
Theorem definitions_flat_and_closed (paths : route_table)
  (definitions : dict) :
  (forall kind schema obj,
     convert self kind schema = Ok obj -> unique_keys obj = true) ->
  _get_definitions recursion_limit self paths = Ok definitions ->
  Forall (fun kv => flat_object (dict_keys definitions) kv.2) definitions /\
  filed_by_title definitions /\
  NoDup (dict_keys definitions).
Proof.
  intros Hu H. unfold _get_definitions in H. inv_bind H.
  destruct (_get_definitions_pass_ok _ _ E) as (Hok & _ & _).
  destruct (flatten_all_flat (converted a) [] definitions) as [Hflat Hfiled];
    [|constructor | constructor | done |].
  - apply Forall_forall. intros obj Hobj.
    destruct (converted_of_call _ _ Hok Hobj) as (c & _ & Hc). by eapply Hu.
  - split_and!; [done | done |].
    by destruct (flatten_all_ok recursion_limit (converted a) [] definitions
                   (NoDup_nil_2 (A:=string)) H) as (Hnd & _).
Qed.

End TableFacts.

Lemma definitions_flat_and_closed_witness :
  exists definitions,
    _get_definitions 50 test_generator (paths test_framer) = Ok definitions /\
    Forall (fun kv => flat_object (dict_keys definitions) kv.2) definitions /\
    filed_by_title definitions /\
    NoDup (dict_keys definitions).
Proof.
  destruct (_get_definitions 50 test_generator (paths test_framer))
    as [definitions|e] eqn:E; [|vm_compute in E; discriminate].
  exists definitions. split; [done |].
  apply (definitions_flat_and_closed 50 test_generator (paths test_framer));
    [|done].
  intros kind schema obj H.
  assert (test_convert schema = Ok obj) as Hc by (by destruct kind).
  unfold test_convert in Hc.
  repeat (destruct (decide _) in Hc; [injection Hc as <-; reflexivity |]).
  done.
Defined.

(** *** References resolve *)

Section ReferenceFacts.
Variable recursion_limit : nat.
Variable self : SwaggerV2Generator.

Lemma scheduled_title (paths : route_table) (definitions : dict)
  (c : converter_kind * Schema) :
  (forall c obj, c ∈ scheduled self paths ->
     convert self c.1 c.2 = Ok obj ->
     getitem obj sw.type_ = Ok (JStr sw.object_) /\
     getitem obj sw.title = Ok (JStr (get_swagger_title c.2))) ->
  (forall c c', c ∈ scheduled self paths -> c' ∈ scheduled self paths ->
     schema_id c.2 = schema_id c'.2 ->
     get_swagger_title c.2 = get_swagger_title c'.2) ->
  _get_definitions recursion_limit self paths = Ok definitions ->
  c ∈ scheduled self paths ->
  get_swagger_title c.2 ∈ dict_keys definitions.
Proof.
  intros converters_title Hid H Hc. unfold _get_definitions in H. inv_bind H.
  destruct (_get_definitions_pass_ok _ _ _ E) as (Hok & Hin & Hcalls).
  pose proof Hok as (_ & Hset & _).
  pose proof (Hin c Hc) as Hc'. apply Hset, list_elem_of_fmap in Hc'.
  destruct Hc' as (c' & Heq & Hc').
  destruct (call_converted _ _ _ Hok Hc') as (obj & Hobj & Hcv).
  destruct (converters_title _ _ (Hcalls _ Hc') Hcv) as [Hty Ht].
  rewrite (Hid c c' Hc (Hcalls _ Hc') Heq).
  destruct (flatten_all_ok recursion_limit (converted a) [] definitions
              (NoDup_nil_2 (A:=string)) H) as (_ & _ & Hkeys).
  by eapply Hkeys.
Qed.

Lemma route_scheduled (paths : route_table) (path method : string)
  (methods : list (string * PathDefinition)) (d : PathDefinition)
  (c : converter_kind * Schema) :
  (path, methods) ∈ paths -> (method, d) ∈ methods -> c ∈ schemas_of d ->
  c ∈ scheduled self paths.
Proof.
  intros Hp Hm Hc. unfold scheduled. apply elem_of_cons. right.
  apply elem_of_concat. exists (schemas_of d). split; [|done].
  apply list_elem_of_fmap. exists d. split; [done |].
  apply iterate_elem. by exists path, methods, method.
Qed.

Lemma responses_definition_unfold (d : PathDefinition) :
  responses_definition self d =
  (r <- ref_to_schema (default_response_schema self) ;;
   responses_loop (marshal_schemas d) [(sw.default, JDict [(sw.schema, r)])]).
Proof. reflexivity. Qed.

Lemma ref_to_schema_Ok (schema : Schema) :
  ref_to_schema schema = Ok (ref_json (get_swagger_title schema)).
Proof. reflexivity. Qed.

Lemma responses_loop_refs (keys : list string) (its : list (Z * Schema))
  (acc : dict) :
  Forall (fun kv => get_swagger_title kv.2 ∈ keys) its ->
  Forall (fun kv => exists t, kv.2 = JDict [(sw.schema, ref_json t)] /\
                              t ∈ keys) acc ->
  exists rd,
    responses_loop its acc = Ok rd /\
    Forall (fun kv => exists t, kv.2 = JDict [(sw.schema, ref_json t)] /\
                                t ∈ keys) rd.
Proof.
  intros Hall. revert acc.
  induction Hall as [|[code schema] its Hs _ IH]; intros acc Hacc.
  - by exists acc.
  - cbn [responses_loop]. rewrite ref_to_schema_Ok. cbn [bind].
    apply IH. apply Forall_dict_set; [done |]. by eexists.
Qed.

Lemma responses_definition_refs (keys : list string) (d : PathDefinition) :
  get_swagger_title (default_response_schema self) ∈ keys ->
  Forall (fun kv => get_swagger_title kv.2 ∈ keys) (marshal_schemas d) ->
  exists rd,
    responses_definition self d = Ok rd /\
    Forall (fun kv => exists t, kv.2 = JDict [(sw.schema, ref_json t)] /\
                                t ∈ keys) rd.
Proof.
  intros Hdef Hall. rewrite responses_definition_unfold, ref_to_schema_Ok.
  cbn [bind]. apply responses_loop_refs; [done |].
  apply Forall_singleton. by eexists.
Qed.

(** X13: when the converters return, for the schemas of the routes, object
    fragments that carry the title of their schema, and schema instances are
    told apart by identity, the references that [_get_paths] makes resolve in
    the table that [_get_definitions] returns: for every route, each
    response of [responses_definition] is a reference to a key of the table,
    and so is the schema of the body parameter. *)
Theorem references_resolve (paths : route_table) (definitions : dict) :
  (forall c obj, c ∈ scheduled self paths ->
     convert self c.1 c.2 = Ok obj ->
     getitem obj sw.type_ = Ok (JStr sw.object_) /\
     getitem obj sw.title = Ok (JStr (get_swagger_title c.2))) ->
  (forall c c', c ∈ scheduled self paths -> c' ∈ scheduled self paths ->
     schema_id c.2 = schema_id c'.2 ->
     get_swagger_title c.2 = get_swagger_title c'.2) ->
  _get_definitions recursion_limit self paths = Ok definitions ->
  forall path methods method d,
    (path, methods) ∈ paths -> (method, d) ∈ methods ->
    (exists rd,
       responses_definition self d = Ok rd /\
       Forall (fun kv => exists t, kv.2 = JDict [(sw.schema, ref_json t)] /\
                                   t ∈ dict_keys definitions) rd) /\
    (forall schema ps,
       request_body_schema d = Some schema ->
       parameters_definition recursion_limit self d = Ok ps ->
       get_swagger_title schema ∈ dict_keys definitions /\
       JDict [(sw.name, JStr (schema_class schema));
              (sw.in_, JStr sw.body);
              (sw.required, JBool true);
              (sw.schema, ref_json (get_swagger_title schema))] ∈ ps).
Proof.
  intros Hconv Hid H path methods method d Hp Hm.
  pose proof (fun c => scheduled_title paths definitions c Hconv) as Ht.
  split.
  - apply responses_definition_refs.
    + apply (Ht (ResponseConverter, default_response_schema self)); [done..|].
      apply elem_of_cons. by left.
    + apply Forall_forall. intros [code schema] Hin.
      apply (Ht (ResponseConverter, schema)); [done..|].
      apply (route_scheduled paths path method methods d); [done | done |].
      unfold schemas_of. apply elem_of_app. left.
      apply list_elem_of_fmap. by exists (code, schema).
  - intros schema ps Hb Hps. split.
    + apply (Ht (RequestBodyConverter, schema)); [done..|].
      apply (route_scheduled paths path method methods d); [done | done |].
      unfold schemas_of. rewrite Hb. apply elem_of_app. right.
      by apply list_elem_of_singleton.
    + unfold parameters_definition in Hps. inv_bind Hps. rewrite Hb in Hps.
      inv_bind Hps. inv_bind E0. injection E0 as <-. injection E1 as <-.
      destruct (headers_schema d).
      * inv_bind Hps. inv_bind Hps. injection Hps as <-.
        apply elem_of_app. left. apply elem_of_app. right.
        by apply list_elem_of_singleton.
      * injection Hps as <-. apply elem_of_app. right.
        by apply list_elem_of_singleton.
Qed.

End ReferenceFacts.

Lemma references_resolve_witness :
  exists definitions rd,
    _get_definitions 50 test_generator (paths test_framer) = Ok definitions /\
    responses_definition test_generator test_update_foo = Ok rd /\
    Forall (fun kv => exists t, kv.2 = JDict [(sw.schema, ref_json t)] /\
                                t ∈ dict_keys definitions) rd /\
    "FooUpdateSchema" ∈ dict_keys definitions.
Proof.
  destruct (_get_definitions 50 test_generator (paths test_framer))
    as [definitions|e] eqn:E; [|vm_compute in E; discriminate].
  destruct (parameters_definition 50 test_generator test_update_foo)
    as [ps|e] eqn:Ep; [|vm_compute in Ep; discriminate].
  destruct (references_resolve 50 test_generator (paths test_framer)
              definitions) with (path := "/foos/<foo_uid>")
      (methods := [("GET", test_get_foo); ("PATCH", test_update_foo)])
      (method := "PATCH") (d := test_update_foo)
    as [(rd & Hrd & Hall) Hbody].
  - intros c obj Hc Hcv. vm_compute in Hc.
    repeat (apply elem_of_cons in Hc as [->|Hc];
            [vm_compute in Hcv; injection Hcv as <-; split; reflexivity |]).
    by apply elem_of_nil in Hc.
  - intros c c' Hc Hc' Heq. vm_compute in Hc, Hc'.
    repeat (apply elem_of_cons in Hc as [->|Hc];
            [repeat (apply elem_of_cons in Hc' as [->|Hc'];
                     [reflexivity || discriminate Heq |]);
             by apply elem_of_nil in Hc' |]).
    by apply elem_of_nil in Hc.
  - exact E.
  - apply elem_of_cons. by left.
  - apply elem_of_cons. right. apply elem_of_cons. by left.
  - exists definitions, rd. split_and!; [done | done | done |].
    apply (Hbody (test_schema 4 "FooUpdateSchema" "FooUpdateSchema") ps);
      [reflexivity | exact Ep].
Defined.

(** *** Two routes, one wire path *)

Section WirePathFacts.
Variable recursion_limit : nat.
Variable self : SwaggerV2Generator.

Lemma _get_paths_from_other (paths : route_table) (acc out : dict)
  (k : string) :
  (forall p ms, (p, ms) ∈ paths -> (_format_path_for_swagger p).1 <> k) ->
  _get_paths_from recursion_limit self paths acc = Ok out ->
  dict_get k out = dict_get k acc.
Proof.
  revert acc. induction paths as [|[p ms] paths IH]; intros acc Hne H.
  - by injection H as <-.
  - rewrite _get_paths_from_cons in H. inv_bind H.
    rewrite (IH _ ltac:(intros p' ms' Hin; apply (Hne p' ms');
                        apply elem_of_cons; by right) H).
    apply dict_get_set_ne. apply (Hne p ms). apply elem_of_cons. by left.
Qed.

(** X14: the entry of the paths object under a wire path is the path
    definition of the last route that translates to it.  Routes whose paths
    differ only in what the translation drops, the type of a placeholder,
    share a wire path, and all but the last of them are left out of the
    document. *)
Theorem paths_last_route_wins (pre post : route_table) (path : string)
  (methods : list (string * PathDefinition)) (out : dict) :
  (forall p ms, (p, ms) ∈ post ->
     (_format_path_for_swagger p).1 <> (_format_path_for_swagger path).1) ->
  _get_paths recursion_limit self (pre ++ (path, methods) :: post) = Ok out ->
  exists pd,
    path_definition recursion_limit self
      (_format_path_for_swagger path).2 methods = Ok pd /\
    dict_get (_format_path_for_swagger path).1 out = Some (JDict pd).
Proof.
  intros Hne H. unfold _get_paths in H. rewrite _get_paths_from_app in H.
  inv_bind H. rewrite _get_paths_from_cons in H. inv_bind H.
  exists a0. split; [done |].
  rewrite (_get_paths_from_other _ _ _ _ Hne H). apply dict_get_set_eq.
Qed.

End WirePathFacts.

Lemma paths_last_route_wins_witness :
  exists out pd,
    _get_paths 50 test_generator
      ([("/foos/<int:foo_uid>", [("GET", test_get_foo)])] ++
       ("/foos/<foo_uid>", [("PATCH", test_update_foo)]) :: []) = Ok out /\
    dict_get "/foos/{foo_uid}" out = Some (JDict pd) /\
    dict_keys out = ["/foos/{foo_uid}"] /\
    dict_get "get" pd = None.
Proof.
  destruct (_get_paths 50 test_generator
              ([("/foos/<int:foo_uid>", [("GET", test_get_foo)])] ++
               ("/foos/<foo_uid>", [("PATCH", test_update_foo)]) :: []))
    as [out|e] eqn:E; [|vm_compute in E; discriminate].
  destruct (paths_last_route_wins 50 test_generator
              [("/foos/<int:foo_uid>", [("GET", test_get_foo)])] []
              "/foos/<foo_uid>" [("PATCH", test_update_foo)] out)
    as (pd & Hpd & Hget).
  - intros p ms Hin. by apply elem_of_nil in Hin.
  - exact E.
  - exists out, pd. split; [done |]. split; [exact Hget |].
    vm_compute in E. injection E as <-.
    vm_compute in Hpd. injection Hpd as <-. split; reflexivity.
Defined.

(** *** When a document comes out *)

Lemma _flatten_returns (fuel : nat) (schema : json) :
  well_formed schema -> depth schema <= fuel ->
  is_ok (_flatten fuel schema) = true.
Proof.
  intros Hwf Hd. unfold _flatten. rewrite deepcopy_ok by done. simpl.
  destruct (well_formed_type _ Hwf) as [ty Hty]. rewrite Hty. simpl.
  destruct (py_eq_str ty sw.object_) eqn:Eo.
  - apply py_eq_str_true in Eo as ->.
    by destruct (proj1 (flatten_succeeds fuel) schema [] Hwf Hd Hty)
      as (t & o & d & ->).
  - destruct (py_eq_str ty sw.array) eqn:Ea; [|done].
    apply py_eq_str_true in Ea as ->.
    by destruct (proj2 (flatten_succeeds fuel) schema [] Hwf Hd Hty)
      as ([r d] & ->).
Qed.

Lemma is_ok_true {A : Type} (r : result A) :
  is_ok r = true -> exists a, r = Ok a.
Proof. destruct r; [eauto | done]. Qed.

Lemma security_loop_returns (self : SwaggerV2Generator)
  (todo : list Authenticator) (acc : dict) :
  (forall a, a ∈ todo ->
     is_Some (authenticator_converters self !! authenticator_class a)) ->
  exists sd, security_loop self todo acc = Ok sd.
Proof.
  revert acc. induction todo as [|a todo IH]; intros acc Hall; [by eexists |].
  simpl. destruct (Hall a) as [converter ->]; [apply elem_of_cons; by left |].
  destruct (converter a) as [key definition]. apply IH.
  intros a' Ha'. apply Hall, elem_of_cons. by right.
Qed.

Lemma convert_parameters_returns (limit : nat) (obj : json) (in_ : string) :
  parameters_source limit obj ->
  exists ps, _convert_jsonschema_to_list_of_parameters limit obj in_ = Ok ps.
Proof.
  intros (kvs & props & required & -> & Hty & Hprops & Hreq & Hall).
  unfold _convert_jsonschema_to_list_of_parameters.
  rewrite (getitem_dict _ _ _ Hty). simpl. rewrite Hprops, Hreq. simpl.
  clear Hprops.
  induction Hall as [|[name prop] props Hkv _ IH]; [by eexists |].
  destruct Hkv as [Hd [d Hp]]. destruct IH as [ps IH].
  simpl in Hd, Hp. subst prop. simpl. rewrite deepcopy_ok by done. simpl.
  rewrite IH. simpl. by eexists.
Qed.

Section ReturnFacts.
Variable recursion_limit : nat.
Variable set_order : list Authenticator -> list Authenticator.
Variable self : SwaggerV2Generator.

Lemma path_parameters_returns (path_args : list _PathArgument) :
  (forall a, a ∈ path_args ->
     is_Some (flask_converters_to_swagger_types self !! type a)) ->
  exists ps, path_parameters self path_args = Ok ps.
Proof.
  unfold path_parameters.
  induction path_args as [|a path_args IH]; intros Hall; [by eexists |].
  simpl. destruct (Hall a) as [ty ->]; [apply elem_of_cons; by left |].
  simpl. destruct IH as [ps ->]; [|simpl; by eexists].
  intros a' Ha'. apply Hall, elem_of_cons. by right.
Qed.

Lemma responses_definition_returns (d : PathDefinition) :
  exists rd, responses_definition self d = Ok rd.
Proof.
  rewrite responses_definition_unfold, ref_to_schema_Ok. cbn [bind].
  generalize [(sw.default,
               JDict [(sw.schema,
                       ref_json (get_swagger_title
                                   (default_response_schema self)))])].
  induction (marshal_schemas d) as [|[code schema] its IH]; intros acc;
    [by eexists |].
  cbn [responses_loop]. rewrite ref_to_schema_Ok. cbn [bind]. apply IH.
Qed.

Lemma parameters_definition_returns (d : PathDefinition) :
  route_ready recursion_limit self d ->
  exists ps, parameters_definition recursion_limit self d = Ok ps.
Proof.
  intros [Hq Hh]. unfold parameters_definition.
  assert (exists ps0,
            match query_string_schema d with
            | Some schema =>
                obj <- _query_string_converter self schema ;;
                ps <- _convert_jsonschema_to_list_of_parameters
                        recursion_limit obj sw.query ;;
                Ok ([] ++ ps)
            | None => Ok []
            end = Ok ps0) as [ps0 ->].
  { destruct (query_string_schema d) as [schema|]; [|by eexists].
    destruct (Hq schema eq_refl) as (obj & -> & Hsrc). simpl.
    destruct (convert_parameters_returns _ _ sw.query Hsrc) as [ps ->].
    by eexists. }
  cbn [bind].
  assert (exists ps1,
            match request_body_schema d with
            | Some schema =>
                r <- ref_to_schema schema ;;
                Ok (ps0 ++
                      [JDict [(sw.name, JStr (schema_class schema));
                              (sw.in_, JStr sw.body);
                              (sw.required, JBool true);
                              (sw.schema, r)]])
            | None => Ok ps0
            end = Ok ps1) as [ps1 ->].
  { destruct (request_body_schema d) as [schema|]; by eexists. }
  cbn [bind].
  destruct (headers_schema d) as [schema|]; [|by eexists].
  destruct (Hh schema eq_refl) as (obj & -> & Hsrc). simpl.
  destruct (convert_parameters_returns _ _ sw.header Hsrc) as [ps ->].
  by eexists.
Qed.

Lemma operation_returns (d : PathDefinition) :
  route_ready recursion_limit self d ->
  (forall a, authenticator d = Own a ->
     is_Some (authenticator_converters self !! authenticator_class a)) ->
  exists op, operation recursion_limit self d = Ok op.
Proof.
  intros Hready Hown. unfold operation.
  destruct (responses_definition_returns d) as [rd ->].
  destruct (parameters_definition_returns d Hready) as [ps ->]. cbn [bind].
  destruct (authenticator d) as [| |a]; [by eexists | by eexists |].
  unfold _get_security. destruct (Hown a eq_refl) as [converter ->].
  destruct (converter a). by eexists.
Qed.

Lemma methods_loop_returns (methods : list (string * PathDefinition))
  (acc : dict) :
  (forall method d, (method, d) ∈ methods ->
     exists op, operation recursion_limit self d = Ok op) ->
  exists pd, methods_loop (operation recursion_limit self) methods acc = Ok pd.
Proof.
  revert acc. induction methods as [|[method d] methods IH]; intros acc Hall;
    [by eexists |].
  simpl. destruct (Hall method d) as [op ->]; [apply elem_of_cons; by left |].
  simpl. apply IH. intros method' d' Hin. apply (Hall method' d').
  apply elem_of_cons. by right.
Qed.

Lemma _get_paths_from_returns (paths : route_table) (acc : dict) :
  (forall path methods, (path, methods) ∈ paths ->
     exists pd, path_definition recursion_limit self
                  (_format_path_for_swagger path).2 methods = Ok pd) ->
  exists out, _get_paths_from recursion_limit self paths acc = Ok out.
Proof.
  revert acc. induction paths as [|[path methods] paths IH]; intros acc Hall;
    [by eexists |].
  rewrite _get_paths_from_cons.
  destruct (Hall path methods) as [pd ->]; [apply elem_of_cons; by left |].
  cbn [bind]. apply IH. intros path' methods' Hin. apply Hall.
  apply elem_of_cons. by right.
Qed.

(** X15: [generate] returns a document when the generator is set up for the
    framer: the converter of every authenticator's class is registered, the
    type tag of every placeholder is in the map of Flask converters, the
    response and request body schemas are converted to well-formed fragments
    within the recursion limit, and the query string and headers schemas to
    objects that make parameters. *)
Theorem generate_returns (framer : Framer) :
  (forall l a, a ∈ set_order l -> a ∈ l) ->
  (forall a,
     a ∈ authenticators_in_use (paths framer)
           (default_authenticator framer) ->
     is_Some (authenticator_converters self !! authenticator_class a)) ->
  (forall path methods a,
     (path, methods) ∈ paths framer ->
     a ∈ (_format_path_for_swagger path).2 ->
     is_Some (flask_converters_to_swagger_types self !! type a)) ->
  (forall c, c ∈ scheduled self (paths framer) ->
     exists obj, convert self c.1 c.2 = Ok obj /\
                 well_formed obj /\ depth obj <= recursion_limit) ->
  (forall path methods method d,
     (path, methods) ∈ paths framer -> (method, d) ∈ methods ->
     route_ready recursion_limit self d) ->
  exists doc, generate recursion_limit set_order self framer = Ok doc.
Proof.
  intros Hset Hauth Htypes Hconv Hready. unfold generate.
  rewrite _get_security_definitions_unfold.
  destruct (security_loop_returns self
              (set_order (distinct ∅ (authenticators_in_use (paths framer)
                                        (default_authenticator framer)))) [])
    as [sd ->].
  { intros a Ha. apply Hauth. eapply distinct_elem. by apply Hset. }
  cbn [bind].
  assert (exists definitions,
            _get_definitions recursion_limit self (paths framer) =
              Ok definitions) as [definitions ->].
  { unfold _get_definitions.
    destruct (is_ok_true (_get_definitions_pass self (paths framer)))
      as [st Hst].
    { unfold _get_definitions_pass.
      destruct (Hconv (ResponseConverter, default_response_schema self))
        as (obj & Hobj & _); [apply elem_of_cons; by left |].
      simpl in Hobj. rewrite Hobj. simpl. apply convert_all_returns.
      intros c Hc. destruct (Hconv c) as (obj' & -> & _); [|done].
      apply elem_of_cons. by right. }
    rewrite Hst. cbn [bind]. apply is_ok_true, flatten_all_returns.
    destruct (_get_definitions_pass_ok self _ _ Hst) as (Hok & _ & Hcalls).
    intros obj Hobj.
    destruct (converted_of_call self _ _ Hok Hobj) as (c & Hc & Hcv).
    destruct (Hconv c (Hcalls c Hc)) as (obj' & Hcv' & Hwf & Hd).
    rewrite Hcv in Hcv'. injection Hcv' as <-. by apply _flatten_returns. }
  cbn [bind].
  assert (exists paths_out,
            _get_paths recursion_limit self (paths framer) = Ok paths_out)
    as [paths_out ->].
  { apply _get_paths_from_returns. intros path methods Hp.
    rewrite path_definition_unfold.
    assert (exists pd0,
              match (_format_path_for_swagger path).2 with
              | [] => Ok []
              | _ :: _ =>
                  ps <- path_parameters self (_format_path_for_swagger path).2 ;;
                  Ok [(sw.parameters, JList ps)]
              end = Ok pd0) as [pd0 Hpd0].
    { destruct (path_parameters_returns (_format_path_for_swagger path).2)
        as [ps Hps]; [intros a Ha; by eapply Htypes |].
      destruct (_format_path_for_swagger path).2; [by eexists |].
      rewrite Hps. by eexists. }
    destruct (_format_path_for_swagger path).2 as [|b args] eqn:Eargs;
      rewrite Hpd0; cbn [bind]; apply methods_loop_returns;
      intros method d Hm; apply operation_returns;
      try (by eapply Hready);
      intros a Ha; apply Hauth; by eapply own_in_use. }
  cbn [bind].
  destruct (default_authenticator framer) as [a|] eqn:Ed; [|by eexists].
  unfold _get_security.
  destruct (Hauth a) as [converter ->]; [apply default_in_use |].
  destruct (converter a). by eexists.
Qed.

End ReturnFacts.

Ltac well_formed_fixture :=
  repeat first
    [ apply Forall_nil_2
    | apply Forall_cons; split; [cbn [snd] |]
    | apply wf_primitive; reflexivity
    | eapply wf_object; [reflexivity | reflexivity | reflexivity |]
    | eapply wf_array; [reflexivity | reflexivity |] ].

Ltac parameters_source_fixture :=
  eexists _, _, _;
  split_and!; [reflexivity | reflexivity | reflexivity | reflexivity |];
  repeat (apply Forall_cons; split;
          [split; [vm_compute; lia | eexists; reflexivity] |]);
  apply Forall_nil_2.

Lemma generate_returns_witness :
  exists doc, generate 50 (fun l => l) test_generator test_framer = Ok doc.
Proof.
  apply (generate_returns 50 (fun l => l) test_generator test_framer).
  - done.
  - intros a Ha. vm_compute in Ha. apply list_elem_of_singleton in Ha as ->.
    eexists. vm_compute. reflexivity.
  - intros path methods a Hp Ha. vm_compute in Hp.
    repeat (apply elem_of_cons in Hp as [[= -> ->]|Hp];
            [vm_compute in Ha;
             repeat (apply elem_of_cons in Ha as [->|Ha];
                     [eexists; vm_compute; reflexivity |]);
             by apply elem_of_nil in Ha |]).
    by apply elem_of_nil in Hp.
  - intros c Hc. vm_compute in Hc.
    repeat (apply elem_of_cons in Hc as [->|Hc];
            [eexists; split; [vm_compute; reflexivity |];
             split; [well_formed_fixture | vm_compute; lia] |]).
    by apply elem_of_nil in Hc.
  - intros path methods method d Hp Hm. vm_compute in Hp.
    repeat (apply elem_of_cons in Hp as [[= -> ->]|Hp];
            [repeat (apply elem_of_cons in Hm as [[= -> ->]|Hm];
                     [split; intros schema Hs; vm_compute in Hs;
                      try discriminate Hs; injection Hs as <-;
                      (eexists; split; [vm_compute; reflexivity |]);
                      parameters_source_fixture |]);
             by apply elem_of_nil in Hm |]).
    by apply elem_of_nil in Hp.
Defined.

(** *** An authenticator without a converter *)

Lemma security_loop_unregistered (self : SwaggerV2Generator)
  (todo : list Authenticator) (acc : dict) (a : Authenticator) :
  a ∈ todo ->
  authenticator_converters self !! authenticator_class a = None ->
  exists a', a' ∈ todo /\
    authenticator_converters self !! authenticator_class a' = None /\
    security_loop self todo acc = Raise (KeyError (authenticator_class a')).
Proof.
  revert acc. induction todo as [|b todo IH]; intros acc Hin Hnone;
    [by apply elem_of_nil in Hin |].
  simpl.
  destruct (authenticator_converters self !! authenticator_class b)
    as [converter|] eqn:Eb.
  - apply elem_of_cons in Hin as [->|Hin]; [congruence |].
    destruct (converter b) as [key definition].
    destruct (IH (dict_set key definition acc) Hin Hnone)
      as (a' & Hin' & Hnone' & Hraise).
    exists a'. split_and!; [apply elem_of_cons; by right | done | done].
  - exists b. split_and!; [apply elem_of_cons; by left | done | done].
Qed.

Section UnregisteredFacts.
Variable recursion_limit : nat.
Variable set_order : list Authenticator -> list Authenticator.
Variable self : SwaggerV2Generator.

(** X16: an authenticator whose class has no converter registered, on a
    route or as the default, stops [generate] before anything else is built:
    [generate] raises the [KeyError] of the class of such an authenticator,
    the first one that the walk over the set comes to. *)
Theorem generate_unregistered_authenticator (framer : Framer)
  (a : Authenticator) :
  (forall l, set_order l ≡ₚ l) ->
  identified (authenticators_in_use (paths framer)
                (default_authenticator framer)) ->
  a ∈ authenticators_in_use (paths framer) (default_authenticator framer) ->
  authenticator_converters self !! authenticator_class a = None ->
  exists a',
    a' ∈ authenticators_in_use (paths framer)
           (default_authenticator framer) /\
    authenticator_converters self !! authenticator_class a' = None /\
    generate recursion_limit set_order self framer =
      Raise (KeyError (authenticator_class a')).
Proof.
  intros Hperm Hid Ha Hnone. unfold generate.
  rewrite _get_security_definitions_unfold.
  destruct (security_loop_unregistered self
              (set_order (distinct ∅ (authenticators_in_use (paths framer)
                                        (default_authenticator framer))))
              [] a) as (a' & Ha' & Hnone' & ->); [| done |].
  - rewrite Hperm. by apply distinct_identified.
  - exists a'. split_and!; [|done | done].
    rewrite Hperm in Ha'. by eapply distinct_elem.
Qed.

End UnregisteredFacts.

Lemma generate_unregistered_authenticator_witness :
  exists a',
    a' ∈ authenticators_in_use (paths test_token_framer)
           (default_authenticator test_token_framer) /\
    authenticator_converters test_generator !! authenticator_class a' = None /\
    generate 50 (fun l => l) test_generator test_token_framer =
      Raise (KeyError (authenticator_class a')).
Proof.
  apply (generate_unregistered_authenticator 50 (fun l => l) test_generator
           test_token_framer test_token_authenticator).
  - done.
  - intros a b Ha Hb Heq. vm_compute in Ha, Hb.
    repeat (apply elem_of_cons in Ha as [->|Ha];
            [repeat (apply elem_of_cons in Hb as [->|Hb];
                     [reflexivity || discriminate Heq |]);
             by apply elem_of_nil in Hb |]).
    by apply elem_of_nil in Ha.
  - apply default_in_use.
  - vm_compute. reflexivity.
Defined.

(** *** Registered converters of authenticators *)

(** X17: what [_get_security] does for a generator fresh from [__init__]
    with one converter registered on top: an authenticator of the registered
    class is named by the registered converter, also when the class is
    [HeaderApiKeyAuthenticator]; any other [HeaderApiKeyAuthenticator] is
    named by its [name]; an authenticator of any other class raises the
    [KeyError] of its class. *)
Theorem get_security_after_registration
  (host : string) (schemes consumes produces : list string)
  (query_string_converter request_body_converter headers_converter
     response_converter : Schema -> result json)
  (default_response_schema : Schema) (klass : string)
  (converter : Authenticator -> string * json) (a : Authenticator) :
  _get_security
    (register_authenticator_converter
       (__init__ host schemes consumes produces query_string_converter
          request_body_converter headers_converter response_converter
          default_response_schema) klass converter) a =
  if decide (authenticator_class a = klass)
  then Ok (JDict [((converter a).1, JList [])])
  else if decide (authenticator_class a = "HeaderApiKeyAuthenticator")
       then Ok (JDict [(authenticator_name a, JList [])])
       else Raise (KeyError (authenticator_class a)).
Proof.
  unfold _get_security, register_authenticator_converter, __init__.
  cbn [authenticator_converters]. rewrite !lookup_insert, lookup_empty.
  destruct (decide (authenticator_class a = klass)) as [<-|Hk].
  - rewrite decide_True by done. by destruct (converter a).
  - rewrite decide_False by congruence.
    destruct (decide (authenticator_class a = "HeaderApiKeyAuthenticator"))
      as [Hh|Hh].
    + by rewrite decide_True.
    + by rewrite decide_False.
Qed.

(** *** Responses by status code *)

Lemma pretty_N_go_suffix (x : N) :
  forall s, exists p, pretty.pretty_N_go x s = p +:+ s.
Proof.
  induction (N.lt_wf_0 x) as [x _ IH]. intros s.
  destruct (decide (x = 0%N)) as [->|Hx].
  - exists "". by rewrite pretty.pretty_N_go_0.
  - rewrite pretty.pretty_N_go_step by lia.
    destruct (IH (x `div` 10)%N) with
      (s := String (pretty.pretty_N_char (x `mod` 10)) s) as [p Hp].
    { apply N.div_lt; lia. }
    exists (p +:+ String (pretty.pretty_N_char (x `mod` 10)) "").
    by rewrite Hp, string_app_assoc.
Qed.

Lemma pretty_N_char_not_t (x : N) : pretty.pretty_N_char x <> "t"%char.
Proof. unfold pretty.pretty_N_char. repeat case_match; done. Qed.

Lemma pretty_positive_last (x : positive) :
  exists p d, pretty.pretty (Npos x) = p +:+ String d "" /\ d <> "t"%char.
Proof.
  unfold pretty.pretty, pretty.pretty_N. rewrite decide_False by done.
  rewrite pretty.pretty_N_go_step by lia.
  destruct (pretty_N_go_suffix (N.pos x `div` 10)
              (String (pretty.pretty_N_char (N.pos x `mod` 10)) ""))
    as [p ->].
  exists p, (pretty.pretty_N_char (N.pos x `mod` 10)).
  split; [done | apply pretty_N_char_not_t].
Qed.

Lemma chars_inj (s1 s2 : string) : chars s1 = chars s2 -> s1 = s2.
Proof.
  revert s2. induction s1 as [|c s1 IH]; intros [|c' s2]; simpl; try done.
  intros [= -> H]. by rewrite (IH _ H).
Qed.

(** [str] of an integer is never the word [default]. *)
Lemma str_of_int_not_default (n : Z) : str_of_int n <> sw.default.
Proof.
  unfold str_of_int, pretty.pretty, pretty.pretty_Z.
  destruct n as [|x|x]; [done | |].
  - destruct (pretty_positive_last x) as (p & d & Hp & Hd).
    change (pretty.pretty x) with (pretty.pretty (N.pos x)). rewrite Hp. intros H.
    apply (f_equal chars) in H. rewrite chars_app in H.
    change (chars (String d "")) with [d] in H.
    apply (f_equal last) in H. rewrite last_snoc in H. simpl in H.
    congruence.
  - destruct (pretty_positive_last x) as (p & d & Hp & Hd).
    change (pretty.pretty x) with (pretty.pretty (N.pos x)). rewrite Hp. intros H.
    apply (f_equal chars) in H. rewrite !chars_app in H.
    change (chars (String d "")) with [d] in H.
    apply (f_equal last) in H. rewrite app_assoc, last_snoc in H.
    simpl in H. congruence.
Qed.

Lemma dict_set_absent {V : Type} (k : string) (v : V)
  (d : list (string * V)) :
  k ∉ dict_keys d -> dict_set k v d = d ++ [(k, v)].
Proof.
  induction d as [|[k' v'] d IH]; simpl; [done |].
  intros Hk. apply not_elem_of_cons in Hk as [Hne Hk].
  rewrite decide_False by done. by rewrite IH.
Qed.

Lemma responses_loop_distinct (its : list (Z * Schema)) (acc : dict) :
  NoDup its.*1 ->
  (forall kv, kv ∈ its -> str_of_int kv.1 ∉ dict_keys acc) ->
  responses_loop its acc =
  Ok (acc ++
      map (fun kv => (str_of_int kv.1,
                      JDict [(sw.schema, ref_json (get_swagger_title kv.2))]))
          its).
Proof.
  revert acc. induction its as [|[code schema] its IH]; intros acc Hnd Hacc.
  - simpl. by rewrite app_nil_r.
  - cbn [responses_loop]. rewrite ref_to_schema_Ok. cbn [bind].
    simpl in Hnd. apply NoDup_cons in Hnd as [Hcode Hnd].
    rewrite dict_set_absent by (apply (Hacc (code, schema)), elem_of_cons;
                                by left).
    rewrite IH; [by rewrite <- app_assoc | done |].
    intros kv Hkv. unfold dict_keys. rewrite fmap_app, elem_of_app.
    intros [Hin|Hin].
    + apply (Hacc kv); [apply elem_of_cons; by right | done].
    + simpl in Hin. apply list_elem_of_singleton in Hin.
      apply (inj pretty.pretty) in Hin. apply Hcode. rewrite <- Hin.
      apply list_elem_of_fmap. by exists kv.
Qed.

(** X18: the responses object of a route whose status codes are distinct is
    the default response, a reference to the default response schema, and
    then one response per status code, in the order of [marshal_schemas],
    under the decimal string of the code: no status code takes the place of
    the default response or of another code. *)
Theorem responses_by_status_code (self : SwaggerV2Generator)
  (d : PathDefinition) :
  NoDup (marshal_schemas d).*1 ->
  responses_definition self d = Ok (responses_of self d).
Proof.
  intros Hnd. rewrite responses_definition_unfold, ref_to_schema_Ok.
  cbn [bind]. rewrite responses_loop_distinct; [done | done |].
  intros kv _ Hin. simpl in Hin. apply list_elem_of_singleton in Hin.
  by apply str_of_int_not_default in Hin.
Qed.

Lemma responses_by_status_code_witness :
  responses_definition test_generator test_get_foo =
  Ok [("default",
       JDict [("schema", JDict [("$ref", JStr "#/definitions/Error")])]);
      ("200",
       JDict [("schema", JDict [("$ref", JStr "#/definitions/Foo")])])].
Proof.
  apply (responses_by_status_code test_generator test_get_foo).
  vm_compute. apply NoDup_singleton.
Defined.

(** *** What becomes of the fields *)

Lemma flatten_array_flattened fuel :
  forall schema defs r,
    getitem schema sw.type_ = Ok (JStr sw.array) ->
    _flatten_array fuel schema defs = Ok r ->
    flattened schema r.1.
Proof.
  induction fuel as [|fuel IH]; intros schema defs r Hty H; [done |].
  rewrite _flatten_array_unfold in H. inv_bind H. inv_bind H.
  destruct schema as [| | | | |kvs]; try done.
  assert (dict_get sw.type_ kvs = Some (JStr sw.array)) as Hty'.
  { simpl in Hty.
    by destruct (dict_get sw.type_ kvs) as [v|]; [injection Hty as -> |]. }
  assert (dict_get sw.items kvs = Some a) as Hits.
  { simpl in E.
    by destruct (dict_get sw.items kvs) as [v|]; [injection E as -> |]. }
  destruct (py_eq_str a0 sw.object_) eqn:Eo.
  - apply py_eq_str_true in Eo as ->. inv_bind H.
    destruct a0 as [[obj_key o'] defs1]. inv_bind H. inv_bind H.
    injection H as <-. simpl.
    apply _flatten_object_Ok in E1 as (t & -> & Ht & _).
    injection E2 as <-. injection E3 as <-.
    eapply flattened_array; [done | exact Hits |]. by apply flattened_object.
  - destruct (py_eq_str a0 sw.array) eqn:Ea.
    + apply py_eq_str_true in Ea as ->. inv_bind H.
      destruct a0 as [its' defs1]. inv_bind H. injection H as <-. simpl.
      injection E2 as <-.
      eapply flattened_array; [done | exact Hits |]. exact (IH _ _ _ E0 E1).
    + injection H as <-. simpl.
      rewrite <- (dict_set_same sw.items a kvs Hits) at 2.
      eapply flattened_array; [done | exact Hits |].
      apply flattened_primitive. unfold is_primitive. by rewrite E0, Eo, Ea.
Qed.

Lemma fields_loop_flattened fuel (its done : dict) (definitions : dict)
  (props' definitions' : dict) :
  NoDup (dict_keys (done ++ its)) ->
  fields_loop (_flatten_object fuel) (_flatten_array fuel)
    its (done ++ its) definitions = Ok (props', definitions') ->
  exists its', props' = done ++ its' /\ fields_flattened its its'.
Proof.
  revert done definitions props' definitions'.
  induction its as [|[field obj] its IH];
    intros done definitions props' definitions' Hnd H.
  - simpl in H. injection H as <- <-. exists []. split; [done | constructor].
  - assert (field ∉ dict_keys done) as Hfield.
    { unfold dict_keys in *. rewrite fmap_app in Hnd.
      apply NoDup_app in Hnd as (_ & Hdisj & _). intros Hin.
      apply (Hdisj field Hin). simpl. apply elem_of_cons. by left. }
    assert (forall v, (done ++ [(field, v)]) ++ its = done ++ (field, v) :: its)
      as Happ by (intros v; by rewrite <- app_assoc).
    assert (forall v, NoDup (dict_keys ((done ++ [(field, v)]) ++ its)))
      as Hnd'.
    { intros v. rewrite Happ. unfold dict_keys in *.
      by rewrite fmap_app in *. }
    assert (forall v props' defs defs',
              flattened obj v ->
              fields_loop (_flatten_object fuel) (_flatten_array fuel) its
                ((done ++ [(field, v)]) ++ its) defs = Ok (props', defs') ->
              exists its', props' = done ++ its' /\
                fields_flattened ((field, obj) :: its) its') as Hstep.
    { intros v p defs defs' Hv Hloop.
      destruct (IH _ _ _ _ (Hnd' v) Hloop) as (its' & -> & Hall).
      exists ((field, v) :: its'). split; [by rewrite <- app_assoc |].
      by constructor. }
    simpl in H. inv_bind H.
    destruct (py_eq_str a sw.object_) eqn:Eo.
    + apply py_eq_str_true in Eo as ->. inv_bind H.
      destruct a as [[obj_key o'] defs1]. inv_bind H.
      apply _flatten_object_Ok in E0 as (t & -> & Ht & _).
      injection E1 as <-. rewrite dict_set_middle in H by done.
      rewrite <- Happ in H. eapply Hstep; [|exact H].
      by apply flattened_object.
    + destruct (py_eq_str a sw.array) eqn:Ea.
      * apply py_eq_str_true in Ea as ->. inv_bind H.
        destruct a as [obj' defs1].
        rewrite dict_set_middle in H by done. rewrite <- Happ in H.
        eapply Hstep; [|exact H].
        exact (flatten_array_flattened fuel _ _ _ E E0).
      * rewrite <- Happ in H. eapply Hstep; [|exact H].
        apply flattened_primitive. unfold is_primitive. by rewrite E, Eo, Ea.
Qed.

(** X19: what [_flatten] makes of a fragment, at any depth.  The fragment
    it returns is the input with objects replaced by references: a primitive
    root as it is, an object root as the reference to its title, an array
    root with its [items] treated likewise.  The entry of an object root is
    the root with nothing changed but [properties], where each field keeps
    its name and its place and holds what the flattener makes of it. *)
Theorem flatten_rewrites_fields (fuel : nat) (schema r : json)
  (definitions : dict) :
  unique_keys schema = true ->
  _flatten fuel schema = Ok (r, definitions) ->
  flattened schema r /\
  (getitem schema sw.type_ = Ok (JStr sw.object_) ->
   exists kvs t props props',
     schema = JDict kvs /\
     dict_get sw.title kvs = Some (JStr t) /\
     dict_get sw.properties kvs = Some (JDict props) /\
     dict_get t definitions =
       Some (JDict (dict_set sw.properties (JDict props') kvs)) /\
     fields_flattened props props').
Proof.
  intros Hu H. unfold _flatten in H. inv_bind H.
  apply deepcopy_Ok in E as ->. inv_bind H.
  destruct (py_eq_str a sw.object_) eqn:Eo.
  - apply py_eq_str_true in Eo as ->. inv_bind H.
    destruct a as [[key s'] defs]. inv_bind H. injection H as <- <-.
    pose proof (_flatten_object_Ok _ _ _ _ _ _ E0) as (t & -> & Ht & Hget).
    injection E1 as <-. split; [by apply flattened_object |]. intros _.
    destruct fuel as [|fuel]; [done |].
    rewrite _flatten_object_unfold in E0.
    inv_bind E0. inv_bind E0. inv_bind E0. destruct a1 as [props' defs1].
    inv_bind E0. inv_bind E0. inv_bind E0. injection E0 as _ <- <-.
    pose proof (unique_keys_getitem _ _ _ Hu E1) as Hup.
    destruct a as [| | | | |props]; try done. injection E2 as <-.
    apply unique_keys_dict in Hup as [Hnd _].
    destruct (fields_loop_flattened fuel props [] [] props' defs1 Hnd E3)
      as (its' & -> & Hall).
    apply setitem_Ok in E4 as (kvs & -> & ->).
    exists kvs, t, props, its'. split_and!; [done | | | done | done].
    + simpl in Ht. by destruct (dict_get sw.title kvs) as [v|];
        [injection Ht as -> |].
    + simpl in E1. by destruct (dict_get sw.properties kvs) as [v|];
        [injection E1 as -> |].
  - destruct (py_eq_str a sw.array) eqn:Ea.
    + apply py_eq_str_true in Ea as ->.
      split; [|intros Hobj; rewrite Hobj in E; discriminate E].
      exact (flatten_array_flattened fuel _ _ _ E H).
    + injection H as <- <-. split.
      * apply flattened_primitive. unfold is_primitive. by rewrite E, Eo, Ea.
      * intros Hobj. rewrite Hobj in E. injection E as <-. done.
Qed.

Lemma flatten_rewrites_fields_witness :
  exists r definitions,
    _flatten 10 test_flatten_input = Ok (r, definitions) /\
    flattened test_flatten_input r /\
    exists kvs t props props',
      test_flatten_input = JDict kvs /\
      dict_get sw.title kvs = Some (JStr t) /\
      dict_get sw.properties kvs = Some (JDict props) /\
      dict_get t definitions =
        Some (JDict (dict_set sw.properties (JDict props') kvs)) /\
      fields_flattened props props'.
Proof.
  destruct (_flatten 10 test_flatten_input) as [[r definitions]|e] eqn:E;
    [|vm_compute in E; discriminate].
  destruct (flatten_rewrites_fields 10 test_flatten_input r definitions)
    as [Hr Hentry]; [reflexivity | done |].
  exists r, definitions. split; [done |]. split; [done |].
  by apply Hentry.
Defined.

(** *** The entries of an operation *)

Section OperationFacts.
Variable recursion_limit : nat.
Variable self : SwaggerV2Generator.

(** X20: the operation object of a route, apart from [security]: it has the
    handler's title as [operationId] and the responses object as
    [responses]; it has a [description] exactly when the handler has a
    docstring that is not empty, and a [parameters] list exactly when the
    route has a parameter: no empty description and no empty list is put in
    the document. *)
Theorem operation_entries (d : PathDefinition) (op : dict) :
  operation recursion_limit self d = Ok op ->
  exists rd ps,
    responses_definition self d = Ok rd /\
    parameters_definition recursion_limit self d = Ok ps /\
    dict_get sw.operation_id op = Some (JStr (handler_title (func d))) /\
    dict_get sw.responses op = Some (JDict rd) /\
    dict_get sw.description op =
      match handler_doc (func d) with
      | Some "" | None => None
      | Some doc => Some (JStr doc)
      end /\
    dict_get sw.parameters op =
      match ps with
      | [] => None
      | _ => Some (JList ps)
      end.
Proof.
  unfold operation. intros H. inv_bind H. inv_bind H.
  exists a, a0. split; [done |]. split; [done |].
  set (op0 := [(sw.operation_id, JStr (handler_title (func d)));
               (sw.responses, JDict a)]) in H.
  set (op1 := match handler_doc (func d) with
              | Some "" | None => op0
              | Some doc => dict_set sw.description (JStr doc) op0
              end) in H.
  set (op2 := match a0 with
              | [] => op1
              | _ => dict_set sw.parameters (JList a0) op1
              end) in H.
  assert (dict_get sw.operation_id op1 =
            Some (JStr (handler_title (func d))) /\
          dict_get sw.responses op1 = Some (JDict a) /\
          dict_get sw.description op1 =
            match handler_doc (func d) with
            | Some "" | None => None
            | Some doc => Some (JStr doc)
            end /\
          dict_get sw.parameters op1 = None) as (H1 & H2 & H3 & H4).
  { subst op1. by destruct (handler_doc (func d)) as [[|c doc]|]. }
  assert (dict_get sw.operation_id op2 =
            Some (JStr (handler_title (func d))) /\
          dict_get sw.responses op2 = Some (JDict a) /\
          dict_get sw.description op2 =
            match handler_doc (func d) with
            | Some "" | None => None
            | Some doc => Some (JStr doc)
            end /\
          dict_get sw.parameters op2 =
            match a0 with
            | [] => None
            | _ => Some (JList a0)
            end) as (H1' & H2' & H3' & H4').
  { subst op2. destruct a0 as [|p ps]; [done |].
    rewrite !dict_get_set_ne by done. split_and!; try done.
    apply dict_get_set_eq. }
  destruct (authenticator d) as [| |au].
  - by injection H as <-.
  - injection H as <-. by rewrite !dict_get_set_ne by done.
  - inv_bind H. injection H as <-. by rewrite !dict_get_set_ne by done.
Qed.

End OperationFacts.

Lemma operation_entries_witness :
  exists op rd ps,
    operation 50 test_generator test_update_foo = Ok op /\
    responses_definition test_generator test_update_foo = Ok rd /\
    parameters_definition 50 test_generator test_update_foo = Ok ps /\
    dict_get sw.operation_id op = Some (JStr "update_foo") /\
    dict_get sw.responses op = Some (JDict rd) /\
    dict_get sw.description op = None /\
    dict_get sw.parameters op = Some (JList ps).
Proof.
  destruct (operation 50 test_generator test_update_foo) as [op|e] eqn:E;
    [|vm_compute in E; discriminate].
  destruct (operation_entries 50 test_generator test_update_foo op E)
    as (rd & ps & Hrd & Hps & H1 & H2 & H3 & H4).
  exists op, rd, ps. split_and!; try done.
  rewrite H4. vm_compute in Hps. by injection Hps as <-.
Defined.

(** *** Nested objects, in general *)

Lemma object_free_well_formed (x : json) : object_free x -> well_formed x.
Proof.
  induction 1 as [x Hp|x its Hty Hits _ IH];
    [by apply wf_primitive | by eapply wf_array].
Qed.

Lemma object_free_registers (x : json) (t : string) (o : json) :
  object_free x -> ~ registers x t o.
Proof.
  induction 1 as [x Hp|x its Hty Hits _ IH]; intros Hr.
  - apply is_primitive_spec in Hp as (ty & Hty & Ho & Ha).
    inversion Hr as [? ? Hty'|? ? ? ? ? Hty'|? ? ? ? Hty']; subst;
      rewrite Hty in Hty'; by injection Hty'.
  - inversion Hr as [? ? Hty'|? ? ? ? ? Hty'|? its' ? ? Hty' Hits' Hr']; subst.
    + rewrite Hty in Hty'. discriminate Hty'.
    + rewrite Hty in Hty'. discriminate Hty'.
    + rewrite Hits in Hits'. injection Hits' as <-. by apply IH.
Qed.

Lemma flattened_object_free (x x' : json) :
  object_free x -> flattened x x' -> x' = x.
Proof.
  intros Hf Hx.
  induction Hx as [x|x t Hty Ht|kvs its its' Hty Hits Hfl IH]; [done | |].
  - inversion Hf as [? Hp|? its Hty' _ _]; subst.
    + apply is_primitive_spec in Hp as (ty & Hty' & Ho & _).
      rewrite Hty in Hty'. by injection Hty' as <-.
    + rewrite Hty in Hty'. discriminate Hty'.
  - inversion Hf as [? Hp|? its0 Hty0 Hits0 Hf0]; subst.
    + apply is_primitive_spec in Hp as (ty & Hty' & _ & Ha).
      rewrite (getitem_dict _ _ _ Hty) in Hty'. by injection Hty' as <-.
    + rewrite (getitem_dict _ _ _ Hits) in Hits0. injection Hits0 as <-.
      rewrite (IH Hf0). f_equal. by apply dict_set_same.
Qed.

Lemma fields_flattened_object_free (props props' : dict) :
  Forall (fun kv => object_free kv.2) props ->
  fields_flattened props props' -> props' = props.
Proof.
  intros Hfree Hall. induction Hall as [|[k v] [k' v'] l l' [Hk Hv] _ IH];
    [done |].
  apply Forall_cons in Hfree as [Hf Hfree]. simpl in *. subst k'.
  by rewrite (flattened_object_free _ _ Hf Hv), (IH Hfree).
Qed.

(** What [_flatten_object] makes of an object: the loop over its fields,
    then the entry under its title. *)
Lemma _flatten_object_entry fuel (kvs props defs : dict) (key schema' : json)
  (defs' : dict) :
  dict_get sw.properties kvs = Some (JDict props) ->
  NoDup (dict_keys props) ->
  _flatten_object fuel (JDict kvs) defs = Ok (key, schema', defs') ->
  exists n props' defs1 t,
    fuel = S n /\ key = JStr t /\
    dict_get sw.title kvs = Some (JStr t) /\
    fields_loop (_flatten_object n) (_flatten_array n) props props defs =
      Ok (props', defs1) /\
    fields_flattened props props' /\
    schema' = JDict (dict_set sw.properties (JDict props') kvs) /\
    defs' = dict_set t schema' defs1.
Proof.
  intros Hp Hnd H. destruct fuel as [|n]; [done |].
  rewrite _flatten_object_unfold, (getitem_dict _ _ _ Hp) in H.
  cbn [bind dict_items] in H.
  inv_bind H. destruct a as [props' defs1].
  inv_bind H. inv_bind H. inv_bind H. injection H as <- <- <-.
  apply register_Ok in E2 as (t & -> & ->). injection E0 as <-.
  unfold _get_key in E1. rewrite getitem_set_ne in E1 by done.
  destruct (fields_loop_flattened n props [] defs props' defs1 Hnd E)
    as (its' & -> & Hall).
  exists n, its', defs1, t. split_and!; try done.
  simpl in E1. by destruct (dict_get sw.title kvs) as [v|]; [injection E1 as -> |].
Qed.

(** A call of the flattener adds keys only for the titles of the objects
    that its fragment registers. *)
Lemma fields_loop_registers fo fa
  (its props definitions props' definitions' : dict) :
  (forall obj defs r,
     getitem obj sw.type_ = Ok (JStr sw.object_) -> fo obj defs = Ok r ->
     forall k, k ∈ dict_keys r.2 ->
               k ∈ dict_keys defs \/ exists o, registers obj k o) ->
  (forall obj defs r,
     getitem obj sw.type_ = Ok (JStr sw.array) -> fa obj defs = Ok r ->
     forall k, k ∈ dict_keys r.2 ->
               k ∈ dict_keys defs \/ exists o, registers obj k o) ->
  fields_loop fo fa its props definitions = Ok (props', definitions') ->
  forall k, k ∈ dict_keys definitions' ->
            k ∈ dict_keys definitions \/
            exists kv o, kv ∈ its /\ registers kv.2 k o.
Proof.
  intros Hfo Hfa. revert props definitions.
  induction its as [|[field obj] its IH]; intros props definitions H.
  - simpl in H. injection H as <- <-. auto.
  - assert (forall props1 defs1,
              (forall k, k ∈ dict_keys defs1 ->
                         k ∈ dict_keys definitions \/
                         exists o, registers obj k o) ->
              fields_loop fo fa its props1 defs1 = Ok (props', definitions') ->
              forall k, k ∈ dict_keys definitions' ->
                        k ∈ dict_keys definitions \/
                        exists kv o, kv ∈ (field, obj) :: its /\
                                     registers kv.2 k o) as Hstep.
    { intros props1 defs1 Hkeys Hloop k Hk.
      destruct (IH _ _ Hloop k Hk) as [Hin|(kv & o & Hkv & Hr)].
      - destruct (Hkeys k Hin) as [?|[o Hr]]; [by left |].
        right. exists (field, obj), o. split; [|done].
        apply elem_of_cons. by left.
      - right. exists kv, o. split; [|done]. apply elem_of_cons. by right. }
    simpl in H. inv_bind H.
    destruct (py_eq_str a sw.object_) eqn:Eo.
    + apply py_eq_str_true in Eo as ->. inv_bind H.
      destruct a as [[obj_key o'] defs1]. inv_bind H.
      eapply Hstep; [|exact H]. exact (Hfo _ _ _ E E0).
    + destruct (py_eq_str a sw.array) eqn:Ea.
      * apply py_eq_str_true in Ea as ->. inv_bind H.
        destruct a as [obj' defs1].
        eapply Hstep; [|exact H]. exact (Hfa _ _ _ E E0).
      * eapply Hstep; [|exact H]. auto.
Qed.

Lemma flatten_registers fuel :
  (forall schema defs r,
     getitem schema sw.type_ = Ok (JStr sw.object_) ->
     _flatten_object fuel schema defs = Ok r ->
     forall k, k ∈ dict_keys r.2 ->
               k ∈ dict_keys defs \/ exists o, registers schema k o) /\
  (forall schema defs r,
     getitem schema sw.type_ = Ok (JStr sw.array) ->
     _flatten_array fuel schema defs = Ok r ->
     forall k, k ∈ dict_keys r.2 ->
               k ∈ dict_keys defs \/ exists o, registers schema k o).
Proof.
  induction fuel as [|fuel [IHo IHa]]; [split; intros; done |].
  split; intros schema defs r Hty H.
  - rewrite _flatten_object_unfold in H.
    inv_bind H. inv_bind H. inv_bind H. destruct a1 as [props' defs1].
    inv_bind H. inv_bind H. inv_bind H. injection H as <-. simpl.
    apply register_Ok in E4 as (t0 & -> & ->).
    apply setitem_Ok in E2 as (kvs & -> & ->).
    assert (getitem (JDict kvs) sw.title = Ok (JStr t0)) as Ht0.
    { unfold _get_key in E3. by rewrite getitem_set_ne in E3. }
    destruct a as [| | | | |its]; try done. injection E0 as <-.
    intros k Hk. apply dict_keys_set_elem in Hk as [->|Hk].
    + right. eexists. by apply registers_self.
    + destruct (fields_loop_registers _ _ _ _ _ _ _ IHo IHa E1 k Hk)
        as [?|(kv & o & Hkv & Hr)]; [by left |].
      right. exists o. by eapply registers_field.
  - rewrite _flatten_array_unfold in H. inv_bind H. inv_bind H.
    destruct (py_eq_str a0 sw.object_) eqn:Eo.
    + apply py_eq_str_true in Eo as ->. inv_bind H.
      destruct a0 as [[obj_key o'] defs1]. inv_bind H. inv_bind H.
      injection H as <-. simpl. intros k Hk.
      destruct (IHo _ _ _ E0 E1 k Hk) as [?|[o Hr]]; [by left |].
      right. exists o. by eapply registers_items.
    + destruct (py_eq_str a0 sw.array) eqn:Ea.
      * apply py_eq_str_true in Ea as ->. inv_bind H.
        destruct a0 as [its' defs1]. inv_bind H. injection H as <-. simpl.
        intros k Hk.
        destruct (IHa _ _ _ E0 E1 k Hk) as [?|[o Hr]]; [by left |].
        right. exists o. by eapply registers_items.
      * injection H as <-. simpl. auto.
Qed.

(** An entry stays when every object that is registered under its title
    afterwards is that entry and has no object in its fields. *)
Lemma fields_loop_registers_same fo fa (t : string) (v : json)
  (its props definitions props' definitions' : dict) :
  (forall obj defs r,
     getitem obj sw.type_ = Ok (JStr sw.object_) -> fo obj defs = Ok r ->
     (forall o, registers obj t o -> o = v) ->
     dict_get t defs = Some v -> dict_get t r.2 = Some v) ->
  (forall obj defs r,
     getitem obj sw.type_ = Ok (JStr sw.array) -> fa obj defs = Ok r ->
     (forall o, registers obj t o -> o = v) ->
     dict_get t defs = Some v -> dict_get t r.2 = Some v) ->
  fields_loop fo fa its props definitions = Ok (props', definitions') ->
  (forall kv o, kv ∈ its -> registers kv.2 t o -> o = v) ->
  dict_get t definitions = Some v ->
  dict_get t definitions' = Some v.
Proof.
  intros Hfo Hfa. revert props definitions.
  induction its as [|[field obj] its IH]; intros props definitions H Hall Hget.
  - simpl in H. by injection H as <- <-.
  - assert (forall o, registers obj t o -> o = v) as Hobj.
    { intros o. apply (Hall (field, obj)). apply elem_of_cons. by left. }
    assert (forall kv o, kv ∈ its -> registers kv.2 t o -> o = v) as Hrest.
    { intros kv o Hkv. apply Hall. apply elem_of_cons. by right. }
    simpl in H. inv_bind H.
    destruct (py_eq_str a sw.object_) eqn:Eo.
    + apply py_eq_str_true in Eo as ->. inv_bind H.
      destruct a as [[obj_key o'] defs1]. inv_bind H.
      eapply IH; [exact H | exact Hrest |]. exact (Hfo _ _ _ E E0 Hobj Hget).
    + destruct (py_eq_str a sw.array) eqn:Ea.
      * apply py_eq_str_true in Ea as ->. inv_bind H.
        destruct a as [obj' defs1].
        eapply IH; [exact H | exact Hrest |]. exact (Hfa _ _ _ E E0 Hobj Hget).
      * by eapply IH.
Qed.

Lemma flatten_registers_same fuel (t : string) (gkvs gprops : dict) :
  dict_get sw.properties gkvs = Some (JDict gprops) ->
  NoDup (dict_keys gprops) ->
  Forall (fun kv => object_free kv.2) gprops ->
  (forall schema defs r,
     getitem schema sw.type_ = Ok (JStr sw.object_) ->
     _flatten_object fuel schema defs = Ok r ->
     (forall o, registers schema t o -> o = JDict gkvs) ->
     dict_get t defs = Some (JDict gkvs) ->
     dict_get t r.2 = Some (JDict gkvs)) /\
  (forall schema defs r,
     getitem schema sw.type_ = Ok (JStr sw.array) ->
     _flatten_array fuel schema defs = Ok r ->
     (forall o, registers schema t o -> o = JDict gkvs) ->
     dict_get t defs = Some (JDict gkvs) ->
     dict_get t r.2 = Some (JDict gkvs)).
Proof.
  intros Hgp Hgnd Hgfree.
  induction fuel as [|fuel [IHo IHa]]; [split; intros; done |].
  split; intros schema defs r Hty H Hall Hget.
  - destruct r as [[key schema'] defs'].
    pose proof H as H'. rewrite _flatten_object_unfold in H'.
    inv_bind H'. inv_bind H'. inv_bind H'. destruct a1 as [props' defs1].
    inv_bind H'. inv_bind H'. inv_bind H'. injection H' as <- <- <-. simpl.
    apply register_Ok in E4 as (t0 & -> & ->).
    apply setitem_Ok in E2 as (kvs & -> & ->).
    assert (getitem (JDict kvs) sw.title = Ok (JStr t0)) as Ht0.
    { unfold _get_key in E3. by rewrite getitem_set_ne in E3. }
    destruct a as [| | | | |its]; try done. injection E0 as <-.
    destruct (decide (t0 = t)) as [->|Hne].
    + rewrite dict_get_set_eq.
      assert (JDict kvs = JDict gkvs) as [= ->].
      { apply Hall. by apply registers_self. }
      simpl in E. rewrite Hgp in E. injection E as <-.
      destruct (fields_loop_flattened fuel gprops [] defs props' defs1 Hgnd E1)
        as (its' & -> & Hfl). simpl.
      rewrite (fields_flattened_object_free _ _ Hgfree Hfl).
      by rewrite (dict_set_same _ _ _ Hgp).
    + rewrite dict_get_set_ne by done.
      eapply (fields_loop_registers_same _ _ _ _ _ _ _ _ _ IHo IHa E1);
        [|done].
      intros kv o Hkv Hr. apply Hall. by eapply registers_field.
  - rewrite _flatten_array_unfold in H. inv_bind H. inv_bind H.
    destruct (py_eq_str a0 sw.object_) eqn:Eo.
    + apply py_eq_str_true in Eo as ->. inv_bind H.
      destruct a0 as [[obj_key o'] defs1]. inv_bind H. inv_bind H.
      injection H as <-. simpl. apply (IHo _ _ _ E0 E1); [|done].
      intros o Hr. apply Hall. by eapply registers_items.
    + destruct (py_eq_str a0 sw.array) eqn:Ea.
      * apply py_eq_str_true in Ea as ->. inv_bind H.
        destruct a0 as [its' defs1]. inv_bind H. injection H as <-. simpl.
        apply (IHa _ _ _ E0 E1); [|done].
        intros o Hr. apply Hall. by eapply registers_items.
      * by injection H as <-.
Qed.

(** Every entry of the table is an object. *)
Lemma fields_loop_objects fo fa
  (its props definitions props' definitions' : dict) :
  (forall obj defs r,
     getitem obj sw.type_ = Ok (JStr sw.object_) -> fo obj defs = Ok r ->
     Forall (fun kv => getitem kv.2 sw.type_ = Ok (JStr sw.object_)) defs ->
     Forall (fun kv => getitem kv.2 sw.type_ = Ok (JStr sw.object_)) r.2) ->
  (forall obj defs r,
     getitem obj sw.type_ = Ok (JStr sw.array) -> fa obj defs = Ok r ->
     Forall (fun kv => getitem kv.2 sw.type_ = Ok (JStr sw.object_)) defs ->
     Forall (fun kv => getitem kv.2 sw.type_ = Ok (JStr sw.object_)) r.2) ->
  fields_loop fo fa its props definitions = Ok (props', definitions') ->
  Forall (fun kv => getitem kv.2 sw.type_ = Ok (JStr sw.object_))
    definitions ->
  Forall (fun kv => getitem kv.2 sw.type_ = Ok (JStr sw.object_))
    definitions'.
Proof.
  intros Hfo Hfa. revert props definitions.
  induction its as [|[field obj] its IH]; intros props definitions H Hdefs.
  - simpl in H. by injection H as <- <-.
  - simpl in H. inv_bind H.
    destruct (py_eq_str a sw.object_) eqn:Eo.
    + apply py_eq_str_true in Eo as ->. inv_bind H.
      destruct a as [[obj_key o'] defs1]. inv_bind H.
      eapply IH; [exact H |]. exact (Hfo _ _ _ E E0 Hdefs).
    + destruct (py_eq_str a sw.array) eqn:Ea.
      * apply py_eq_str_true in Ea as ->. inv_bind H.
        destruct a as [obj' defs1].
        eapply IH; [exact H |]. exact (Hfa _ _ _ E E0 Hdefs).
      * by eapply IH.
Qed.

Lemma flatten_objects fuel :
  (forall schema defs r,
     getitem schema sw.type_ = Ok (JStr sw.object_) ->
     _flatten_object fuel schema defs = Ok r ->
     Forall (fun kv => getitem kv.2 sw.type_ = Ok (JStr sw.object_)) defs ->
     Forall (fun kv => getitem kv.2 sw.type_ = Ok (JStr sw.object_)) r.2) /\
  (forall schema defs r,
     getitem schema sw.type_ = Ok (JStr sw.array) ->
     _flatten_array fuel schema defs = Ok r ->
     Forall (fun kv => getitem kv.2 sw.type_ = Ok (JStr sw.object_)) defs ->
     Forall (fun kv => getitem kv.2 sw.type_ = Ok (JStr sw.object_)) r.2).
Proof.
  induction fuel as [|fuel [IHo IHa]]; [split; intros; done |].
  split; intros schema defs r Hty H Hdefs.
  - rewrite _flatten_object_unfold in H.
    inv_bind H. inv_bind H. inv_bind H. destruct a1 as [props' defs1].
    inv_bind H. inv_bind H. inv_bind H. injection H as <-. simpl.
    apply register_Ok in E4 as (t0 & -> & ->).
    apply setitem_Ok in E2 as (kvs & -> & ->).
    apply Forall_dict_set.
    + exact (fields_loop_objects _ _ _ _ _ _ _ IHo IHa E1 Hdefs).
    + simpl snd. by rewrite getitem_set_ne.
  - rewrite _flatten_array_unfold in H. inv_bind H. inv_bind H.
    destruct (py_eq_str a0 sw.object_) eqn:Eo.
    + apply py_eq_str_true in Eo as ->. inv_bind H.
      destruct a0 as [[obj_key o'] defs1]. inv_bind H. inv_bind H.
      injection H as <-. exact (IHo _ _ _ E0 E1 Hdefs).
    + destruct (py_eq_str a0 sw.array) eqn:Ea.
      * apply py_eq_str_true in Ea as ->. inv_bind H.
        destruct a0 as [its' defs1]. inv_bind H. injection H as <-.
        exact (IHa _ _ _ E0 E1 Hdefs).
      * by injection H as <-.
Qed.

Lemma flattened_object_ref (kvs : dict) (t : string) (v : json) :
  dict_get sw.type_ kvs = Some (JStr sw.object_) ->
  dict_get sw.title kvs = Some (JStr t) ->
  flattened (JDict kvs) v -> v = ref_json t.
Proof.
  intros Hty Ht Hv.
  inversion Hv as [? Hp|? t' Hty' Ht'|? its its' Hty' _ _]; subst.
  - apply is_primitive_spec in Hp as (ty & Hty' & Ho & _).
    rewrite (getitem_dict _ _ _ Hty) in Hty'. by injection Hty' as <-.
  - rewrite (getitem_dict _ _ _ Ht) in Ht'. by injection Ht' as <-.
  - rewrite Hty in Hty'. discriminate Hty'.
Qed.

(** Distinct keys that are all among [ks], a list of distinct keys that are
    all present: as many as [ks] has. *)
Lemma keys_length (l ks : list string) :
  NoDup l -> NoDup ks -> (forall k, k ∈ l -> k ∈ ks) ->
  (forall k, k ∈ ks -> k ∈ l) -> length l = length ks.
Proof.
  intros Hl Hks H1 H2. apply Nat.le_antisymm.
  - apply submseteq_length. by apply NoDup_submseteq.
  - apply submseteq_length. by apply NoDup_submseteq.
Qed.

(** What an object without objects in its fields registers: itself. *)
Lemma registers_object_free (gkvs gprops : dict) (g k : string) (o : json) :
  dict_get sw.type_ gkvs = Some (JStr sw.object_) ->
  dict_get sw.title gkvs = Some (JStr g) ->
  dict_get sw.properties gkvs = Some (JDict gprops) ->
  Forall (fun kv => object_free kv.2) gprops ->
  registers (JDict gkvs) k o -> k = g /\ o = JDict gkvs.
Proof.
  intros Hgty Hgt Hgp Hgfree Hr.
  inversion Hr as [? ? _ Ht|? props kv ? ? _ Hp Hkv Hr'|? its ? ? Hty _ _];
    subst.
  - rewrite (getitem_dict _ _ _ Hgt) in Ht. by injection Ht as <-.
  - rewrite (getitem_dict _ _ _ Hgp) in Hp. injection Hp as <-.
    rewrite Forall_forall in Hgfree.
    by destruct (object_free_registers _ _ _ (Hgfree _ Hkv) Hr').
  - rewrite (getitem_dict _ _ _ Hgty) in Hty. discriminate Hty.
Qed.

(** C1, amended: take an object titled [f] whose fields are well formed,
    with a field [a] that holds an object titled [g], [g <> f], no field of
    which has an object in it; and let every object that a later field of
    [f] registers under the title [g] be that same object.  Given a
    recursion budget that covers the depth of the fragment, [_flatten]
    returns the reference to [f] and a delta in which [g] is the nested
    object verbatim and [f] is the outer object with nothing changed but
    [properties]: field [a] holds the reference to [g], every other field
    keeps its name and its place and holds what the flattener makes of it.
    The keys of the delta are distinct, and each is [f], [g] or the title of
    an object inside another field: the delta has two entries when those
    fields register no other title, and when they have no object at all (as
    in the fixture) they are unchanged and the delta is the two entries and
    nothing else. *)
Theorem flatten_two_levels (fuel : nat) (f g a : string)
  (kvs pre post gkvs gprops : dict) :
  depth (JDict kvs) <= fuel ->
  dict_get sw.type_ kvs = Some (JStr sw.object_) ->
  dict_get sw.title kvs = Some (JStr f) ->
  dict_get sw.properties kvs = Some (JDict (pre ++ (a, JDict gkvs) :: post)) ->
  NoDup (dict_keys (pre ++ (a, JDict gkvs) :: post)) ->
  Forall (fun kv => well_formed kv.2) (pre ++ post) ->
  (forall kv o, kv ∈ post -> registers kv.2 g o -> o = JDict gkvs) ->
  dict_get sw.type_ gkvs = Some (JStr sw.object_) ->
  dict_get sw.title gkvs = Some (JStr g) ->
  dict_get sw.properties gkvs = Some (JDict gprops) ->
  NoDup (dict_keys gprops) ->
  Forall (fun kv => object_free kv.2) gprops ->
  f <> g ->
  exists (definitions pre' post' : dict),
    _flatten fuel (JDict kvs) =
      Ok (JDict [(sw.ref, JStr ("#/definitions/" +:+ f))], definitions) /\
    dict_get g definitions = Some (JDict gkvs) /\
    dict_get f definitions =
      Some (JDict (dict_set sw.properties
                     (JDict (pre' ++
                             (a, JDict [(sw.ref,
                                         JStr ("#/definitions/" +:+ g))])
                             :: post')) kvs)) /\
    fields_flattened pre pre' /\ fields_flattened post post' /\
    NoDup (dict_keys definitions) /\
    (forall k, k ∈ dict_keys definitions ->
               k = f \/ k = g \/
               exists kv o, kv ∈ pre ++ post /\ registers kv.2 k o) /\
    ((forall kv k o, kv ∈ pre ++ post -> registers kv.2 k o ->
                     k = f \/ k = g) ->
     length definitions = 2) /\
    (Forall (fun kv => object_free kv.2) (pre ++ post) ->
     pre' = pre /\ post' = post /\
     definitions =
       [(g, JDict gkvs);
        (f, JDict (dict_set sw.properties
                     (JDict (pre ++
                             (a, JDict [(sw.ref,
                                         JStr ("#/definitions/" +:+ g))])
                             :: post)) kvs))]).
Proof.
  intros Hd Hty Ht Hp Hnd Hwf Hpostg Hgty Hgt Hgp Hgnd Hgfree Hfg.
  apply Forall_app in Hwf as [Hwpre Hwpost].
  assert (well_formed (JDict gkvs)) as Hwg.
  { eapply wf_object; [by apply getitem_dict.. |].
    eapply Forall_impl; [exact Hgfree |].
    intros kv. apply object_free_well_formed. }
  assert (well_formed (JDict kvs)) as Hroot.
  { eapply wf_object; [by apply getitem_dict.. |].
    apply Forall_app. split; [done |]. by apply Forall_cons. }
  destruct (proj1 (flatten_succeeds fuel) (JDict kvs) [] Hroot Hd
              (getitem_dict _ _ _ Hty)) as (t & o & defs & Hflat).
  pose proof (proj1 (flatten_NoDup fuel) (JDict kvs) [] _
                (NoDup_nil_2 : NoDup (dict_keys ([] : dict))) Hflat)
    as Hnodup.
  pose proof (proj1 (flatten_registers fuel) _ _ _
                (getitem_dict _ _ _ Hty) Hflat) as Hkeys.
  simpl in Hnodup, Hkeys.
  destruct (_flatten_object_entry _ _ _ _ _ _ _ Hp Hnd Hflat)
    as (n & props' & defs1 & t' & -> & [= <-] & Ht' & Hloop & Hall & -> & Hdefs).
  rewrite Ht in Ht'. injection Ht' as <-.
  apply Forall2_app_inv_l in Hall as (pre' & rest' & Hpre & Hrest & ->).
  apply Forall2_cons_inv_l in Hrest
    as ([a' v'] & post' & [Ha' Hv'] & Hpost & ->).
  simpl in Ha', Hv'. subst a'.
  apply (flattened_object_ref _ g) in Hv'; [|done..]. subst v'.
  assert (_flatten (S n) (JDict kvs) = Ok (ref_json f, defs)) as Hres.
  { unfold _flatten. rewrite deepcopy_ok by done. cbn [bind].
    rewrite (getitem_dict _ _ _ Hty). cbn [bind py_eq_str].
    replace (bool_decide (sw.object_ = sw.object_)) with true by done.
    rewrite Hflat. done. }
  (* the entry of g *)
  rewrite fields_loop_app in Hloop. inv_bind Hloop. destruct a0 as [P1 d1].
  cbn [fields_loop fst snd] in Hloop.
  rewrite (getitem_dict _ _ _ Hgty) in Hloop. cbn [bind py_eq_str] in Hloop.
  replace (bool_decide (sw.object_ = sw.object_)) with true in Hloop by done.
  inv_bind Hloop. destruct a0 as [[gkey g'] d2]. inv_bind Hloop.
  assert (exists m, n = S m /\ depth (JDict gkvs) <= m) as (m & -> & Hdg).
  { assert ((a, JDict gkvs) ∈ pre ++ (a, JDict gkvs) :: post) as Hin.
    { apply elem_of_app. right. apply elem_of_cons. by left. }
    pose proof (depth_getitem _ _ _ (getitem_dict _ _ _ Hp)) as H1.
    pose proof (depth_getitem _ _ _ (getitem_dict _ _ _ Hgp)) as H2.
    apply depth_value in Hin.
    assert (depth (JDict gkvs) < depth (JDict (pre ++ (a, JDict gkvs) :: post)))
      as H3 by (simpl in *; lia).
    destruct n as [|m]; [lia |]. exists m. split; [done | lia]. }
  rewrite (_flatten_object_object_free m gkvs gprops d1 g) in E0; try done.
  2:{ pose proof (depth_getitem _ _ _ (getitem_dict _ _ _ Hgp)) as H1.
      apply Forall_forall. intros kv Hkv. split.
      - rewrite Forall_forall in Hgfree. by apply Hgfree.
      - apply depth_value in Hkv. simpl in *. lia. }
  injection E0 as <- <- <-.
  pose proof (fields_loop_registers_same _ _ g (JDict gkvs) _ _ _ _ _
                (proj1 (flatten_registers_same (S m) g gkvs gprops
                          Hgp Hgnd Hgfree))
                (proj2 (flatten_registers_same (S m) g gkvs gprops
                          Hgp Hgnd Hgfree))
                Hloop Hpostg (dict_get_set_eq _ _ _)) as Hg.
  assert (dict_get g defs = Some (JDict gkvs)) as Hg'.
  { rewrite Hdefs. by rewrite dict_get_set_ne. }
  assert (forall k, k ∈ dict_keys defs ->
                    k = f \/ k = g \/
                    exists kv o, kv ∈ pre ++ post /\ registers kv.2 k o)
    as Hbound.
  { intros k Hk. destruct (Hkeys k Hk) as [Hnil|[o' Hr]].
    { by apply elem_of_nil in Hnil. }
    inversion Hr as [? ? _ Ht'|? props kv ? ? _ Hp' Hkv Hr'|? its ? ? Hty' _ _];
      subst.
    - left. rewrite (getitem_dict _ _ _ Ht) in Ht'. by injection Ht' as <-.
    - rewrite (getitem_dict _ _ _ Hp) in Hp'. injection Hp' as <-.
      apply elem_of_app in Hkv as [Hkv|Hkv].
      + right. right. exists kv, o'. split; [|done].
        apply elem_of_app. by left.
      + apply elem_of_cons in Hkv as [->|Hkv].
        * right. left.
          by destruct (registers_object_free _ _ _ _ _ Hgty Hgt Hgp Hgfree Hr').
        * right. right. exists kv, o'. split; [|done].
          apply elem_of_app. by right.
    - rewrite (getitem_dict _ _ _ Hty) in Hty'. discriminate Hty'. }
  exists defs, pre', post'. split; [exact Hres |]. split_and!.
  - done.
  - rewrite Hdefs. apply dict_get_set_eq.
  - done.
  - done.
  - done.
  - done.
  - intros Honly.
    rewrite <- (length_fmap fst defs).
    apply (keys_length (dict_keys defs) [g; f]); [done | | |].
    + apply NoDup_cons. split; [|apply NoDup_singleton].
      intros Hin. apply list_elem_of_singleton in Hin. congruence.
    + intros k Hk. destruct (Hbound k Hk) as [->|[->|(kv & o' & Hkv & Hr)]].
      * apply elem_of_cons. right. by apply list_elem_of_singleton.
      * apply elem_of_cons. by left.
      * destruct (Honly _ _ _ Hkv Hr) as [->| ->].
        -- apply elem_of_cons. right. by apply list_elem_of_singleton.
        -- apply elem_of_cons. by left.
    + intros k Hk. apply dict_get_is_Some.
      apply elem_of_cons in Hk as [->|Hk]; [by rewrite Hg' |].
      apply list_elem_of_singleton in Hk as ->.
      rewrite Hdefs, dict_get_set_eq. done.
  - intros Hfree.
    pose proof (flatten_two_levels_exact (S (S m)) f g a kvs pre post gkvs
                  gprops Hd Hty Ht Hp Hnd Hfree Hgty Hgt Hgp Hgnd Hgfree Hfg)
      as Hexact.
    rewrite Hres in Hexact. injection Hexact as Hexact.
    apply Forall_app in Hfree as [Hfpre Hfpost].
    split_and!; [by apply fields_flattened_object_free ..|done].
Qed.

Ltac object_free_fixture :=
  repeat first
    [ apply Forall_nil_2
    | apply Forall_cons; split; [cbn [snd] |]
    | apply object_free_primitive; reflexivity
    | eapply object_free_array; [reflexivity | reflexivity |] ].

Lemma flatten_two_levels_witness :
  _flatten 10 test_flatten_input =
  Ok (JDict [("$ref", JStr "#/definitions/x")],
      [("y", JDict [("type", JStr "object"); ("title", JStr "y");
                    ("properties", JDict [
                       ("b", JDict [("type", JStr "integer")])])]);
       ("x", JDict [("type", JStr "object"); ("title", JStr "x");
                    ("properties", JDict [
                       ("a", JDict [("$ref", JStr "#/definitions/y")]);
                       ("b", JDict [("type", JStr "string")])])])]) /\
  exists definitions,
    _flatten 10 test_flatten_shared =
      Ok (JDict [("$ref", JStr "#/definitions/x")], definitions) /\
    dict_get "y" definitions =
      Some (JDict [("type", JStr "object"); ("title", JStr "y");
                   ("properties", JDict [
                      ("b", JDict [("type", JStr "integer")])])]) /\
    length definitions = 2.
Proof.
  split.
  - destruct (flatten_two_levels 10 "x" "y" "a"
             [("type", JStr "object"); ("title", JStr "x");
              ("properties", JDict [
                 ("a", JDict [("type", JStr "object"); ("title", JStr "y");
                              ("properties", JDict [
                                 ("b", JDict [("type", JStr "integer")])])]);
                 ("b", JDict [("type", JStr "string")])])]
             []
             [("b", JDict [("type", JStr "string")])]
             [("type", JStr "object"); ("title", JStr "y");
              ("properties", JDict [("b", JDict [("type", JStr "integer")])])]
             [("b", JDict [("type", JStr "integer")])])
      as (defs & pre' & post' & Hres & _ & _ & _ & _ & _ & _ & _ & Hexact);
      [vm_compute; lia | reflexivity | reflexivity | reflexivity
      | by apply (bool_decide_unpack _)
      | well_formed_fixture
      |
      | reflexivity | reflexivity | reflexivity
      | by apply (bool_decide_unpack _)
      | object_free_fixture
      | discriminate |].
    + intros kv o Hkv Hr. apply list_elem_of_singleton in Hkv as ->.
      exfalso. revert Hr. apply object_free_registers. object_free_fixture.
    + destruct Hexact as (_ & _ & ->); [object_free_fixture |]. exact Hres.
  - destruct (flatten_two_levels 10 "x" "y" "a"
             [("type", JStr "object"); ("title", JStr "x");
              ("properties", JDict [
                 ("tags", JDict [("type", JStr "array");
                                 ("items", JDict [("type", JStr "string")])]);
                 ("a", JDict [("type", JStr "object"); ("title", JStr "y");
                              ("properties", JDict [
                                 ("b", JDict [("type", JStr "integer")])])]);
                 ("b", JDict [("type", JStr "string")]);
                 ("c", JDict [("type", JStr "object"); ("title", JStr "y");
                              ("properties", JDict [
                                 ("b", JDict [("type", JStr "integer")])])])])]
             [("tags", JDict [("type", JStr "array");
                              ("items", JDict [("type", JStr "string")])])]
             [("b", JDict [("type", JStr "string")]);
              ("c", JDict [("type", JStr "object"); ("title", JStr "y");
                           ("properties", JDict [
                              ("b", JDict [("type", JStr "integer")])])])]
             [("type", JStr "object"); ("title", JStr "y");
              ("properties", JDict [("b", JDict [("type", JStr "integer")])])]
             [("b", JDict [("type", JStr "integer")])])
      as (defs & pre' & post' & Hres & Hg & _ & _ & _ & _ & _ & Hlen & _);
      [vm_compute; lia | reflexivity | reflexivity | reflexivity
      | by apply (bool_decide_unpack _)
      | well_formed_fixture
      |
      | reflexivity | reflexivity | reflexivity
      | by apply (bool_decide_unpack _)
      | object_free_fixture
      | discriminate |].
    + intros kv o Hkv Hr. apply elem_of_cons in Hkv as [->|Hkv].
      * exfalso. revert Hr. apply object_free_registers. object_free_fixture.
      * apply list_elem_of_singleton in Hkv as ->.
        eapply registers_object_free in Hr as [_ ->];
          [reflexivity | reflexivity | reflexivity | reflexivity |].
        object_free_fixture.
    + exists defs. split_and!; [exact Hres | exact Hg |]. apply Hlen.
      intros kv k o Hkv Hr.
      apply elem_of_cons in Hkv as [->|Hkv];
        [exfalso; revert Hr; apply object_free_registers;
         object_free_fixture |].
      apply elem_of_cons in Hkv as [->|Hkv];
        [exfalso; revert Hr; apply object_free_registers;
         object_free_fixture |].
      apply list_elem_of_singleton in Hkv as ->. right.
      eapply registers_object_free in Hr as [-> _];
        [reflexivity | reflexivity | reflexivity | reflexivity |].
      object_free_fixture.
Defined.

(** C4, amended: take an array whose items are an array whose items are an
    object titled [z] with well-formed fields.  Given a recursion budget
    that covers the depth of the fragment, [_flatten] returns the two arrays
    in place, nothing changed but the inner [items], which is the reference
    to [z]; in the delta [z] is the object with nothing changed but
    [properties], where every field keeps its name and its place and holds
    what the flattener makes of it.  The keys of the delta are distinct,
    each is [z] or the title of an object inside a field of the object, and
    every entry is of type object, so neither array is an entry.  The delta
    has one entry when the fields register no other title; when they have
    no object at all (as in the fixture) the delta is [z] alone, mapped to
    the object verbatim. *)
Theorem flatten_array_of_arrays (fuel : nat) (z : string)
  (kvs ikvs okvs oprops : dict) :
  depth (JDict kvs) <= fuel ->
  dict_get sw.type_ kvs = Some (JStr sw.array) ->
  dict_get sw.items kvs = Some (JDict ikvs) ->
  dict_get sw.type_ ikvs = Some (JStr sw.array) ->
  dict_get sw.items ikvs = Some (JDict okvs) ->
  dict_get sw.type_ okvs = Some (JStr sw.object_) ->
  dict_get sw.title okvs = Some (JStr z) ->
  dict_get sw.properties okvs = Some (JDict oprops) ->
  NoDup (dict_keys oprops) ->
  Forall (fun kv => well_formed kv.2) oprops ->
  exists (definitions oprops' : dict),
    _flatten fuel (JDict kvs) =
      Ok (JDict (dict_set sw.items
                   (JDict (dict_set sw.items
                             (JDict [(sw.ref, JStr ("#/definitions/" +:+ z))])
                             ikvs)) kvs),
          definitions) /\
    dict_get z definitions =
      Some (JDict (dict_set sw.properties (JDict oprops') okvs)) /\
    fields_flattened oprops oprops' /\
    NoDup (dict_keys definitions) /\
    (forall k, k ∈ dict_keys definitions ->
               k = z \/ exists kv o, kv ∈ oprops /\ registers kv.2 k o) /\
    Forall (fun kv => getitem kv.2 sw.type_ = Ok (JStr sw.object_))
      definitions /\
    ((forall kv k o, kv ∈ oprops -> registers kv.2 k o -> k = z) ->
     length definitions = 1) /\
    (Forall (fun kv => object_free kv.2) oprops ->
     oprops' = oprops /\ definitions = [(z, JDict okvs)]).
Proof.
  intros Hd Hty Hit Hity Hiit Hoty Hot Hop Hnd Hwf.
  pose proof (depth_getitem _ _ _ (getitem_dict _ _ _ Hit)) as H1.
  pose proof (depth_getitem _ _ _ (getitem_dict _ _ _ Hiit)) as H2.
  pose proof (depth_getitem _ _ _ (getitem_dict _ _ _ Hop)) as H3.
  assert (exists n, fuel = S (S n)) as [n Hfuel].
  { destruct fuel as [|[|n]]; [lia | lia | eauto]. }
  assert (depth (JDict okvs) <= n) as Hdo by lia.
  assert (well_formed (JDict okvs)) as Hwo.
  { eapply wf_object; [by apply getitem_dict.. | done]. }
  destruct (proj1 (flatten_succeeds n) (JDict okvs) [] Hwo Hdo
              (getitem_dict _ _ _ Hoty)) as (t & o & defs & Hflat).
  pose proof (proj1 (flatten_NoDup n) (JDict okvs) [] _
                (NoDup_nil_2 : NoDup (dict_keys ([] : dict))) Hflat)
    as Hnodup.
  pose proof (proj1 (flatten_registers n) _ _ _
                (getitem_dict _ _ _ Hoty) Hflat) as Hkeys.
  pose proof (proj1 (flatten_objects n) _ _ _
                (getitem_dict _ _ _ Hoty) Hflat (Forall_nil_2 _)) as Hobjs.
  simpl in Hnodup, Hkeys, Hobjs.
  destruct (_flatten_object_entry _ _ _ _ _ _ _ Hop Hnd Hflat)
    as (m & props' & defs1 & t' & Hn & [= <-] & Ht' & Hloop & Hall & -> & Hdefs).
  rewrite Hot in Ht'. injection Ht' as <-.
  assert (_flatten fuel (JDict kvs) =
          Ok (JDict (dict_set sw.items
                       (JDict (dict_set sw.items (ref_json z) ikvs)) kvs),
              defs)) as Hres.
  { rewrite Hfuel. unfold _flatten. rewrite deepcopy_ok by lia. simpl.
    rewrite Hty. simpl. rewrite ?array_is_not_object, ?array_is_array.
    rewrite _flatten_array_unfold. simpl. rewrite Hit. simpl.
    rewrite Hity. simpl. rewrite ?array_is_not_object, ?array_is_array.
    destruct n as [|n']; [done |].
    rewrite _flatten_array_unfold. simpl. rewrite Hiit. simpl.
    rewrite Hoty. simpl. rewrite ?object_is_object.
    injection Hn as ->. by rewrite Hflat. }
  assert (dict_get z defs =
          Some (JDict (dict_set sw.properties (JDict props') okvs))) as Hz.
  { rewrite Hdefs. apply dict_get_set_eq. }
  assert (forall k, k ∈ dict_keys defs ->
                    k = z \/ exists kv o, kv ∈ oprops /\ registers kv.2 k o)
    as Hbound.
  { intros k Hk. destruct (Hkeys k Hk) as [Hnil|[o' Hr]].
    { by apply elem_of_nil in Hnil. }
    inversion Hr as [? ? _ Ht'|? props kv ? ? _ Hp' Hkv Hr'|? its ? ? Hty' _ _];
      subst.
    - left. rewrite (getitem_dict _ _ _ Hot) in Ht'. by injection Ht' as <-.
    - rewrite (getitem_dict _ _ _ Hop) in Hp'. injection Hp' as <-.
      right. by exists kv, o'.
    - rewrite (getitem_dict _ _ _ Hoty) in Hty'. discriminate Hty'. }
  exists defs, props'. split; [exact Hres |]. split_and!; try done.
  - intros Honly. rewrite <- (length_fmap fst defs).
    apply (keys_length (dict_keys defs) [z]); [done | apply NoDup_singleton | |].
    + intros k Hk. apply list_elem_of_singleton.
      destruct (Hbound k Hk) as [->|(kv & o' & Hkv & Hr)]; [done |].
      exact (Honly _ _ _ Hkv Hr).
    + intros k Hk. apply list_elem_of_singleton in Hk as ->.
      apply dict_get_is_Some. by rewrite Hz.
  - intros Hfree.
    pose proof (flatten_array_of_arrays_exact fuel z kvs ikvs okvs oprops
                  Hd Hty Hit Hity Hiit Hoty Hot Hop Hnd Hfree) as Hexact.
    rewrite Hres in Hexact. injection Hexact as Hexact.
    split; [by apply fields_flattened_object_free | done].
Qed.

Lemma flatten_array_of_arrays_witness :
  _flatten 10 test_flatten_array_input =
  Ok (JDict [("type", JStr "array"); ("title", JStr "x");
             ("items", JDict [
                ("type", JStr "array"); ("title", JStr "y");
                ("items", JDict [("$ref", JStr "#/definitions/z")])])],
      [("z", JDict [("type", JStr "object"); ("title", JStr "z");
                    ("properties", JDict [
                       ("a", JDict [("type", JStr "integer")])])])]) /\
  exists definitions,
    _flatten 10 test_flatten_array_nested =
      Ok (JDict [("type", JStr "array");
                 ("items", JDict [
                    ("type", JStr "array");
                    ("items", JDict [("$ref", JStr "#/definitions/z")])])],
          definitions) /\
    (forall k, k ∈ dict_keys definitions -> k = "z" \/ k = "w") /\
    Forall (fun kv => getitem kv.2 sw.type_ = Ok (JStr sw.object_))
      definitions.
Proof.
  split.
  - destruct (flatten_array_of_arrays 10 "z"
             [("type", JStr "array"); ("title", JStr "x");
              ("items", JDict [
                 ("type", JStr "array"); ("title", JStr "y");
                 ("items", JDict [
                    ("type", JStr "object"); ("title", JStr "z");
                    ("properties", JDict [
                       ("a", JDict [("type", JStr "integer")])])])])]
             [("type", JStr "array"); ("title", JStr "y");
              ("items", JDict [
                 ("type", JStr "object"); ("title", JStr "z");
                 ("properties", JDict [
                    ("a", JDict [("type", JStr "integer")])])])]
             [("type", JStr "object"); ("title", JStr "z");
              ("properties", JDict [("a", JDict [("type", JStr "integer")])])]
             [("a", JDict [("type", JStr "integer")])])
      as (defs & oprops' & Hres & _ & _ & _ & _ & _ & _ & Hexact);
      [vm_compute; lia | reflexivity | reflexivity | reflexivity | reflexivity
      | reflexivity | reflexivity | reflexivity
      | by apply (bool_decide_unpack _)
      | well_formed_fixture |].
    destruct Hexact as (_ & ->); [object_free_fixture |]. exact Hres.
  - destruct (flatten_array_of_arrays 10 "z"
             [("type", JStr "array");
              ("items", JDict [
                 ("type", JStr "array");
                 ("items", JDict [
                    ("type", JStr "object"); ("title", JStr "z");
                    ("properties", JDict [
                       ("tags", JDict [("type", JStr "array");
                                       ("items",
                                        JDict [("type", JStr "string")])]);
                       ("w", JDict [("type", JStr "object");
                                    ("title", JStr "w");
                                    ("properties", JDict [
                                       ("a", JDict [("type", JStr "integer")])
                                    ])])])])])]
             [("type", JStr "array");
              ("items", JDict [
                 ("type", JStr "object"); ("title", JStr "z");
                 ("properties", JDict [
                    ("tags", JDict [("type", JStr "array");
                                    ("items",
                                     JDict [("type", JStr "string")])]);
                    ("w", JDict [("type", JStr "object"); ("title", JStr "w");
                                 ("properties", JDict [
                                    ("a", JDict [("type", JStr "integer")])
                                 ])])])])]
             [("type", JStr "object"); ("title", JStr "z");
              ("properties", JDict [
                 ("tags", JDict [("type", JStr "array");
                                 ("items", JDict [("type", JStr "string")])]);
                 ("w", JDict [("type", JStr "object"); ("title", JStr "w");
                              ("properties", JDict [
                                 ("a", JDict [("type", JStr "integer")])])])])]
             [("tags", JDict [("type", JStr "array");
                              ("items", JDict [("type", JStr "string")])]);
              ("w", JDict [("type", JStr "object"); ("title", JStr "w");
                           ("properties", JDict [
                              ("a", JDict [("type", JStr "integer")])])])])
      as (defs & oprops' & Hres & _ & _ & _ & Hbound & Hobjs & _ & _);
      [vm_compute; lia | reflexivity | reflexivity | reflexivity | reflexivity
      | reflexivity | reflexivity | reflexivity
      | by apply (bool_decide_unpack _)
      | well_formed_fixture |].
    exists defs. split_and!; [exact Hres | | exact Hobjs].
    intros k Hk. destruct (Hbound k Hk) as [->|(kv & o & Hkv & Hr)];
      [by left |].
    apply elem_of_cons in Hkv as [->|Hkv];
      [exfalso; revert Hr; apply object_free_registers;
       object_free_fixture |].
    apply list_elem_of_singleton in Hkv as ->. right.
    eapply registers_object_free in Hr as [-> _];
      [reflexivity | reflexivity | reflexivity | reflexivity |].
    object_free_fixture.
Defined.

(** *** What the paths object holds for a route *)

Lemma methods_loop_app (operation : PathDefinition -> result dict)
  (m1 m2 : list (string * PathDefinition)) (acc : dict) :
  methods_loop operation (m1 ++ m2) acc =
  (acc' <- methods_loop operation m1 acc ;; methods_loop operation m2 acc').
Proof.
  revert acc. induction m1 as [|[method d] m1 IH]; intros acc; [done |].
  simpl. destruct (operation d) as [op|e]; [simpl | done]. apply IH.
Qed.

Lemma methods_loop_other (operation : PathDefinition -> result dict)
  (methods : list (string * PathDefinition)) (acc pd : dict) (k : string) :
  (forall m d, (m, d) ∈ methods -> lower m <> k) ->
  methods_loop operation methods acc = Ok pd ->
  dict_get k pd = dict_get k acc.
Proof.
  revert acc. induction methods as [|[method d] methods IH]; intros acc Hne H.
  - by injection H as <-.
  - simpl in H. inv_bind H.
    rewrite (IH _ ltac:(intros m' d' Hin; apply (Hne m' d');
                        apply elem_of_cons; by right) H).
    apply dict_get_set_ne. apply (Hne method d). apply elem_of_cons. by left.
Qed.

Section RouteFacts.
Variable recursion_limit : nat.
Variable self : SwaggerV2Generator.

(** The entry of a route: the path definition of the last route that
    translates to its wire path. *)
Lemma _get_paths_route (pre post : route_table) (path : string)
  (methods : list (string * PathDefinition)) (out : dict) :
  (forall p ms, (p, ms) ∈ post ->
     (_format_path_for_swagger p).1 <> (_format_path_for_swagger path).1) ->
  _get_paths recursion_limit self (pre ++ (path, methods) :: post) = Ok out ->
  exists pd,
    path_definition recursion_limit self
      (_format_path_for_swagger path).2 methods = Ok pd /\
    dict_get (_format_path_for_swagger path).1 out = Some (JDict pd).
Proof.
  intros Hne H. unfold _get_paths in H. rewrite _get_paths_from_app in H.
  inv_bind H. rewrite _get_paths_from_cons in H. inv_bind H.
  exists a0. split; [done |].
  rewrite (_get_paths_from_other _ _ _ _ _ _ Hne H). apply dict_get_set_eq.
Qed.

(** The entry of a method: the operation of the last method of the route
    with that name in lower case. *)
Lemma path_definition_method (path_args : list _PathArgument)
  (mpre mpost : list (string * PathDefinition)) (method : string)
  (d : PathDefinition) (pd : dict) :
  (forall m' d', (m', d') ∈ mpost -> lower m' <> lower method) ->
  path_definition recursion_limit self path_args
    (mpre ++ (method, d) :: mpost) = Ok pd ->
  exists op, operation recursion_limit self d = Ok op /\
             dict_get (lower method) pd = Some (JDict op).
Proof.
  intros Hne H. rewrite path_definition_unfold in H. inv_bind H.
  rewrite methods_loop_app in H. inv_bind H. simpl in H. inv_bind H.
  exists a1. split; [done |].
  rewrite (methods_loop_other _ _ _ _ _ Hne H). apply dict_get_set_eq.
Qed.

(** The [parameters] of a path definition, unless a method is named so. *)
Lemma path_definition_parameters (path_args : list _PathArgument)
  (methods : list (string * PathDefinition)) (pd : dict) :
  (forall m d, (m, d) ∈ methods -> lower m <> sw.parameters) ->
  path_definition recursion_limit self path_args methods = Ok pd ->
  (path_args = [] -> dict_get sw.parameters pd = None) /\
  (path_args <> [] ->
   exists ps, path_parameters self path_args = Ok ps /\
              dict_get sw.parameters pd = Some (JList ps)).
Proof.
  intros Hne H. rewrite path_definition_unfold in H. inv_bind H.
  rewrite (methods_loop_other _ _ _ _ _ Hne H).
  destruct path_args as [|arg path_args].
  - injection E as <-. split; [done |]. by intros [].
  - inv_bind E. injection E as <-. split; [done |]. intros _.
    exists a0. split; [done |]. done.
Qed.

(** C3: in the paths object that [_get_paths] returns, a route has its
    operation under its wire path and its method in lower case, unless a
    later route or method takes that place; and the operation has no
    [security] key when the route's authenticator is [USE_DEFAULT], has
    [security] equal to the empty map when it is [None], and has as
    [security] the map from the name that the authenticator's converter
    gives to the empty list when the route has an authenticator of its
    own.  Conversely every operation of the paths object is that of a route
    of the table, with the [security] of that route. *)
Theorem route_security (pre post : route_table) (path method : string)
  (mpre mpost : list (string * PathDefinition)) (d : PathDefinition)
  (out : dict) :
  _get_paths recursion_limit self
    (pre ++ (path, mpre ++ (method, d) :: mpost) :: post) = Ok out ->
  ((forall p ms, (p, ms) ∈ post ->
      (_format_path_for_swagger p).1 <> (_format_path_for_swagger path).1) ->
   (forall m' d', (m', d') ∈ mpost -> lower m' <> lower method) ->
   exists pd op,
     dict_get (_format_path_for_swagger path).1 out = Some (JDict pd) /\
     dict_get (lower method) pd = Some (JDict op) /\
     match authenticator d with
     | USE_DEFAULT => dict_get sw.security op = None
     | NoAuthenticator => dict_get sw.security op = Some (JDict [])
     | Own a =>
         exists converter,
           authenticator_converters self !! authenticator_class a =
             Some converter /\
           dict_get sw.security op =
             Some (JDict [((converter a).1, JList [])])
     end) /\
  (forall swagger_path v,
     dict_get swagger_path out = Some v ->
     exists pd, v = JDict pd /\
       forall m x, dict_get m pd = Some x ->
         (m = sw.parameters /\ exists ps, x = JList ps) \/
         exists path' methods' method' d' op,
           (path', methods') ∈
             pre ++ (path, mpre ++ (method, d) :: mpost) :: post /\
           (method', d') ∈ methods' /\
           swagger_path = (_format_path_for_swagger path').1 /\
           m = lower method' /\ x = JDict op /\
           security_of self d' op).
Proof.
  intros H. split.
  - intros Hpost Hmpost.
    destruct (_get_paths_route _ _ _ _ _ Hpost H) as (pd & Hpd & Hget).
    destruct (path_definition_method _ _ _ _ _ _ Hmpost Hpd)
      as (op & Hop & Hgetop).
    exists pd, op. split_and!; [done | done |].
    exact (operation_security recursion_limit self d op Hop).
  - unfold _get_paths in H.
    eapply _get_paths_from_entries in H as [_ Hent]; [exact Hent | done |].
    intros path' methods' pd Hin Hpd. exists pd. split; [done |].
    apply (path_definition_entries recursion_limit self) in Hpd as [_ Hent].
    intros m x Hget.
    destruct (Hent m x Hget) as [?|(method' & d' & op & Hm & -> & Hop & ->)];
      [by left |].
    right. exists path', methods', method', d', op.
    split_and!; try done. by apply (operation_security recursion_limit self).
Qed.

End RouteFacts.

Lemma route_security_witness :
  exists out pd get patch delete,
    _get_paths 50 test_generator test_security_paths = Ok out /\
    dict_get "/foos/{foo_uid}" out = Some (JDict pd) /\
    dict_get "get" pd = Some (JDict get) /\
    dict_get "security" get = None /\
    dict_get "patch" pd = Some (JDict patch) /\
    dict_get "security" patch = Some (JDict [("sharedSecret", JList [])]) /\
    dict_get "delete" pd = Some (JDict delete) /\
    dict_get "security" delete = Some (JDict []).
Proof.
  destruct (_get_paths 50 test_generator test_security_paths) as [out|e] eqn:E;
    [|vm_compute in E; discriminate].
  assert (forall p ms,
            (p, ms) ∈ [("/foos", [("GET", test_list_foos)])] ->
            (_format_path_for_swagger p).1 <>
            (_format_path_for_swagger "/foos/<foo_uid>").1) as Hpost.
  { intros p ms Hin. apply list_elem_of_singleton in Hin.
    injection Hin as -> ->. vm_compute. discriminate. }
  destruct (proj1 (route_security 50 test_generator []
                     [("/foos", [("GET", test_list_foos)])]
                     "/foos/<foo_uid>" "GET" []
                     [("PATCH", test_update_foo); ("DELETE", test_delete_foo)]
                     test_get_foo out E) Hpost)
    as (pd & get & Hpd & Hget & Hsec).
  { intros m' d' Hin.
    apply elem_of_cons in Hin as [[= -> ->]|Hin]; [vm_compute; discriminate |].
    apply list_elem_of_singleton in Hin. injection Hin as -> ->.
    vm_compute. discriminate. }
  destruct (proj1 (route_security 50 test_generator []
                     [("/foos", [("GET", test_list_foos)])]
                     "/foos/<foo_uid>" "PATCH" [("GET", test_get_foo)]
                     [("DELETE", test_delete_foo)]
                     test_update_foo out E) Hpost)
    as (pd' & patch & Hpd' & Hpatch & converter & Hc & Hsec').
  { intros m' d' Hin. apply list_elem_of_singleton in Hin.
    injection Hin as -> ->. vm_compute. discriminate. }
  destruct (proj1 (route_security 50 test_generator []
                     [("/foos", [("GET", test_list_foos)])]
                     "/foos/<foo_uid>" "DELETE"
                     [("GET", test_get_foo); ("PATCH", test_update_foo)] []
                     test_delete_foo out E) Hpost)
    as (pd'' & delete & Hpd'' & Hdelete & Hsec'').
  { intros m' d' Hin. by apply elem_of_nil in Hin. }
  rewrite Hpd in Hpd', Hpd''. injection Hpd' as <-. injection Hpd'' as <-.
  vm_compute in Hc. injection Hc as <-.
  exists out, pd, get, patch, delete.
  split_and!; [done | exact Hpd | exact Hget | exact Hsec | exact Hpatch
              | exact Hsec' | exact Hdelete | exact Hsec''].
Defined.

(** *** Path arguments in the paths object *)

Section PathParameters.
Variable recursion_limit : nat.
Variable set_order : list Authenticator -> list Authenticator.
Variable self : SwaggerV2Generator.

(** C10: in the paths object that [_get_paths] returns, the entry of a
    path has a [parameters] list exactly when the path has arguments, and
    the list has one parameter per argument, in order, with the argument's
    name, [in] equal to [path], [required] true and the type that the
    generator's map gives for the argument's type tag; the map starts with
    [uuid], [string], [int] and [float], and a registration adds or
    replaces one tag.  A tag that is not in the map is not read as
    [string]: [generate] returns no document, and what it raises, once the
    steps before the path have passed, is the [KeyError] of the tag. *)
Theorem path_arguments_as_parameters :
  (forall host schemes consumes produces qs rb hd rs default_schema,
     let types :=
       flask_converters_to_swagger_types
         (__init__ host schemes consumes produces qs rb hd rs default_schema)
     in
     types !! "uuid" = Some sw.string /\
     types !! "string" = Some sw.string /\
     types !! "int" = Some sw.integer /\
     types !! "float" = Some sw.number /\
     forall tag, tag ∉ ["uuid"; "string"; "int"; "float"] ->
                 types !! tag = None) /\
  (forall flask_converter swagger_type tag,
     flask_converters_to_swagger_types
       (register_flask_converter_to_swagger_type self flask_converter
          swagger_type) !! tag =
     if decide (flask_converter = tag) then Some swagger_type
     else flask_converters_to_swagger_types self !! tag) /\
  (forall pre path methods post out,
     _get_paths recursion_limit self (pre ++ (path, methods) :: post) =
       Ok out ->
     (forall p ms, (p, ms) ∈ post ->
        (_format_path_for_swagger p).1 <>
        (_format_path_for_swagger path).1) ->
     (forall m d, (m, d) ∈ methods -> lower m <> sw.parameters) ->
     exists pd,
       dict_get (_format_path_for_swagger path).1 out = Some (JDict pd) /\
       ((_format_path_for_swagger path).2 = [] ->
        dict_get sw.parameters pd = None) /\
       ((_format_path_for_swagger path).2 <> [] ->
        exists ps,
          dict_get sw.parameters pd = Some (JList ps) /\
          Forall2 (fun path_arg p =>
                     exists swagger_type,
                       flask_converters_to_swagger_types self
                         !! type path_arg = Some swagger_type /\
                       p = JDict [(sw.name, py_opt_str (name path_arg));
                                  (sw.required, JBool true);
                                  (sw.in_, JStr sw.path);
                                  (sw.type_, JStr swagger_type)])
                  (_format_path_for_swagger path).2 ps)) /\
  (forall framer pre path methods post a,
     paths framer = pre ++ (path, methods) :: post ->
     a ∈ (_format_path_for_swagger path).2 ->
     flask_converters_to_swagger_types self !! type a = None ->
     (forall doc, generate recursion_limit set_order self framer <> Ok doc) /\
     (is_ok (_get_security_definitions set_order self (paths framer)
               (default_authenticator framer)) = true ->
      is_ok (_get_definitions recursion_limit self (paths framer)) = true ->
      is_ok (_get_paths recursion_limit self pre) = true ->
      exists a', a' ∈ (_format_path_for_swagger path).2 /\
        flask_converters_to_swagger_types self !! type a' = None /\
        generate recursion_limit set_order self framer =
          Raise (KeyError (type a')))).
Proof.
  split_and!.
  - intros. subst types. simpl. split_and!; try reflexivity.
    intros tag Hnot.
    rewrite !not_elem_of_cons in Hnot. destruct Hnot as (? & ? & ? & ? & _).
    by rewrite !lookup_insert_ne, lookup_empty by done.
  - intros flask_converter swagger_type tag. simpl.
    apply lookup_insert.
  - intros pre path methods post out H Hpost Hmethods.
    destruct (_get_paths_route _ _ _ _ _ _ _ Hpost H) as (pd & Hpd & Hget).
    destruct (path_definition_parameters _ _ _ _ _ Hmethods Hpd)
      as [Hnone Hsome].
    exists pd. split_and!; [done | done |].
    intros Hargs. destruct (Hsome Hargs) as (ps & Hps & Hgetps).
    exists ps. split; [done |]. by apply path_parameters_Ok.
  - intros framer pre path methods post a Hpaths Hin Hnone.
    pose proof (_get_paths_unregistered recursion_limit self pre post path
                  methods a Hin Hnone) as Hp.
    rewrite <- Hpaths in Hp. unfold generate. split.
    + intros doc Hdoc. inv_bind Hdoc. inv_bind Hdoc. inv_bind Hdoc.
      destruct (_get_paths recursion_limit self pre) as [acc|e];
        [destruct Hp as (a' & _ & _ & Hp) |]; congruence.
    + intros Hsec Hdefs Hpre.
      destruct (_get_paths recursion_limit self pre) as [acc|e]; [|done].
      destruct Hp as (a' & Hin' & Hnone' & Hp).
      exists a'. split_and!; [done | done |].
      destruct (_get_security_definitions _ _ _ _); [simpl | done].
      destruct (_get_definitions _ _ _); [simpl | done].
      by rewrite Hp.
Qed.

End PathParameters.

Lemma path_arguments_as_parameters_witness :
  generate 50 (fun authenticators => authenticators) test_generator
    {| paths := [("/files/<path:name>", [("GET", test_list_foos)])];
       default_authenticator := None |} = Raise (KeyError "path") /\
  exists out pd,
    _get_paths 50 test_generator (paths test_framer) = Ok out /\
    dict_get "/foos/{foo_uid}" out = Some (JDict pd) /\
    dict_get "parameters" pd =
      Some (JList [JDict [("name", JStr "foo_uid"); ("required", JBool true);
                          ("in", JStr "path"); ("type", JStr "string")]]).
Proof.
  split.
  - destruct (proj2 (proj2 (proj2
                (path_arguments_as_parameters 50
                   (fun authenticators => authenticators) test_generator)))
                {| paths := [("/files/<path:name>", [("GET", test_list_foos)])];
                   default_authenticator := None |}
                [] "/files/<path:name>" [("GET", test_list_foos)] []
                (PathArgument (Some "name") "path"))
      as [_ H].
    + reflexivity.
    + vm_compute. apply elem_of_cons. by left.
    + reflexivity.
    + destruct H as (a' & Hin & _ & H);
        [reflexivity | reflexivity | reflexivity |].
      vm_compute in Hin. apply list_elem_of_singleton in Hin. subst a'.
      exact H.
  - destruct (_get_paths 50 test_generator (paths test_framer))
      as [out|e] eqn:E; [|vm_compute in E; discriminate].
    destruct (proj1 (proj2 (proj2
                (path_arguments_as_parameters 50
                   (fun authenticators => authenticators) test_generator)))
                [] "/foos/<foo_uid>"
                [("GET", test_get_foo); ("PATCH", test_update_foo)]
                [("/foos", [("GET", test_list_foos)])] out E)
      as (pd & Hpd & _ & Hps).
    + intros p ms Hin. apply list_elem_of_singleton in Hin.
      injection Hin as -> ->. vm_compute. discriminate.
    + intros m d Hin.
      apply elem_of_cons in Hin as [[= -> ->]|Hin];
        [vm_compute; discriminate |].
      apply list_elem_of_singleton in Hin. injection Hin as -> ->.
      vm_compute. discriminate.
    + destruct Hps as (ps & Hget & Hall); [vm_compute; discriminate |].
      exists out, pd. split_and!; [done | exact Hpd |].
      assert ((_format_path_for_swagger "/foos/<foo_uid>").2 =
              [PathArgument (Some "foo_uid") "string"]) as Hargs
        by (vm_compute; reflexivity).
      rewrite Hargs in Hall.
      apply Forall2_cons_inv_l in Hall as (p & ps' & (ty & Hty & ->) & Hnil & ->).
      apply Forall2_nil_inv_l in Hnil as ->.
      vm_compute in Hty. injection Hty as <-. exact Hget.
Defined.

(** *** One conversion per schema instance, route by route *)

(** The schemas of a route, by role. *)
Lemma schemas_of_elem (d : PathDefinition) (kind : converter_kind)
  (schema : Schema) :
  (kind, schema) ∈ schemas_of d <->
  (kind = ResponseConverter /\
   exists status_code, (status_code, schema) ∈ marshal_schemas d) \/
  (kind = RequestBodyConverter /\ request_body_schema d = Some schema).
Proof.
  unfold schemas_of. rewrite elem_of_app. split.
  - intros [Hin|Hin].
    + apply list_elem_of_fmap in Hin as ([code s] & [= -> ->] & Hin).
      left. split; [done |]. by exists code.
    + right. destruct (request_body_schema d) as [s|];
        [|by apply elem_of_nil in Hin].
      apply list_elem_of_singleton in Hin. by injection Hin as -> ->.
  - intros [[-> [code Hin]]|[-> Hrb]].
    + left. apply list_elem_of_fmap. by exists (code, schema).
    + right. rewrite Hrb. by apply list_elem_of_singleton.
Qed.

Lemma Forall2_elem_l {A B : Type} (P : A -> B -> Prop) (l : list A)
  (k : list B) (x : A) :
  Forall2 P l k -> x ∈ l -> exists y, y ∈ k /\ P x y.
Proof.
  induction 1 as [|a b l k Hab _ IH]; intros Hin;
    [by apply elem_of_nil in Hin |].
  apply elem_of_cons in Hin as [->|Hin].
  - exists b. split; [apply elem_of_cons; by left | done].
  - destruct (IH Hin) as (y & Hy & HP). exists y.
    split; [apply elem_of_cons; by right | done].
Qed.

Lemma length_one {A : Type} (l : list A) :
  length l = 1 -> exists x, l = [x].
Proof. destruct l as [|x [|y l]]; try done. by exists x. Qed.

Section InstanceFacts.
Variable recursion_limit : nat.
Variable self : SwaggerV2Generator.

(** What [_get_definitions] meets: the default response schema, and the
    schemas of the routes by role. *)
Lemma scheduled_elem (paths : route_table) (kind : converter_kind)
  (schema : Schema) :
  (kind, schema) ∈ scheduled self paths <->
  (kind = ResponseConverter /\ schema = default_response_schema self) \/
  exists path methods method d,
    (path, methods) ∈ paths /\ (method, d) ∈ methods /\
    ((kind = ResponseConverter /\
      exists status_code, (status_code, schema) ∈ marshal_schemas d) \/
     (kind = RequestBodyConverter /\ request_body_schema d = Some schema)).
Proof.
  unfold scheduled. rewrite elem_of_cons, elem_of_concat. split.
  - intros [[= -> ->]|(l & Hl & Hin)]; [by left |].
    apply list_elem_of_fmap in Hl as (d & -> & Hd).
    apply iterate_elem in Hd as (path & methods & method & Hp & Hm).
    right. exists path, methods, method, d. split_and!; [done | done |].
    by apply schemas_of_elem.
  - intros [[-> ->]|(path & methods & method & d & Hp & Hm & Hs)];
      [by left |].
    right. exists (schemas_of d). split; [|by apply schemas_of_elem].
    apply list_elem_of_fmap. exists d. split; [done |].
    apply iterate_elem. by exists path, methods, method.
Qed.

(** C2: take a schema instance that a route of the table carries, as a
    response schema or as its request body schema, on however many routes.
    In the state that the first loop of [_get_definitions] returns there is
    exactly one invocation of a converter on the instance, its fragment is
    in [converted], and when the fragment is an object the table that
    [_get_definitions] returns has one entry under its title.  No instance
    has two invocations, and every invocation is on the default response
    schema or on a schema of a route, with the converter of the role in
    which the route carries it.  The pass returns when these conversions
    do.  The keys of the table are distinct and each converted object
    fragment has one entry, under its title: so instances with different
    titles have an entry each. *)
Theorem definitions_once_per_instance (paths : route_table) :
  (is_ok (_response_converter self (default_response_schema self)) = true ->
   (forall path methods method d,
      (path, methods) ∈ paths -> (method, d) ∈ methods ->
      (forall status_code schema,
         (status_code, schema) ∈ marshal_schemas d ->
         is_ok (_response_converter self schema) = true) /\
      (forall schema,
         request_body_schema d = Some schema ->
         is_ok (_request_body_converter self schema) = true)) ->
   is_ok (_get_definitions_pass self paths) = true) /\
  (forall st,
     _get_definitions_pass self paths = Ok st ->
     (forall path methods method d schema,
        (path, methods) ∈ paths -> (method, d) ∈ methods ->
        (exists status_code, (status_code, schema) ∈ marshal_schemas d) \/
        request_body_schema d = Some schema ->
        exists kind schema' obj,
          calls_on schema (calls st) = [(kind, schema')] /\
          convert self kind schema' = Ok obj /\
          obj ∈ converted st /\
          forall definitions t,
            _get_definitions recursion_limit self paths = Ok definitions ->
            getitem obj sw.type_ = Ok (JStr sw.object_) ->
            getitem obj sw.title = Ok (JStr t) ->
            exists entry, entries_under t definitions = [(t, entry)]) /\
     (forall kind schema,
        (kind, schema) ∈ calls st ->
        (kind = ResponseConverter /\ schema = default_response_schema self) \/
        exists path methods method d,
          (path, methods) ∈ paths /\ (method, d) ∈ methods /\
          ((kind = ResponseConverter /\
            exists status_code, (status_code, schema) ∈ marshal_schemas d) \/
           (kind = RequestBodyConverter /\
            request_body_schema d = Some schema))) /\
     NoDup (map (fun c => schema_id c.2) (calls st)) /\
     Forall2 (fun c obj => convert self c.1 c.2 = Ok obj)
             (calls st) (converted st) /\
     ((forall obj, obj ∈ converted st ->
         is_ok (_flatten recursion_limit obj) = true) ->
      is_ok (_get_definitions recursion_limit self paths) = true) /\
     (forall definitions,
        _get_definitions recursion_limit self paths = Ok definitions ->
        NoDup (dict_keys definitions) /\
        forall obj t,
          obj ∈ converted st ->
          getitem obj sw.type_ = Ok (JStr sw.object_) ->
          getitem obj sw.title = Ok (JStr t) ->
          exists schema', entries_under t definitions = [(t, schema')])).
Proof.
  split.
  - intros Hdefault Hroutes.
    assert (forall c, c ∈ scheduled self paths ->
                      is_ok (convert self c.1 c.2) = true) as Hall.
    { intros [kind schema] Hc.
      apply scheduled_elem in Hc
        as [[-> ->]|(path & methods & method & d & Hp & Hm & Hs)];
        [done |].
      destruct (Hroutes path methods method d Hp Hm) as [Hrs Hrb].
      destruct Hs as [[-> [code Hin]]|[-> Hs]];
        [by eapply Hrs | by apply Hrb]. }
    unfold _get_definitions_pass.
    destruct (_response_converter self (default_response_schema self))
      as [obj|e]; [simpl | done].
    apply convert_all_returns. intros c Hc. apply Hall.
    unfold scheduled. apply elem_of_cons. by right.
  - intros st Hpass.
    destruct (_get_definitions_pass_ok self paths st Hpass)
      as ((Hnd & Hset & Hconv) & Hin & Hcalls).
    assert (forall definitions,
              _get_definitions recursion_limit self paths = Ok definitions ->
              NoDup (dict_keys definitions) /\
              forall obj t,
                obj ∈ converted st ->
                getitem obj sw.type_ = Ok (JStr sw.object_) ->
                getitem obj sw.title = Ok (JStr t) ->
                exists schema', entries_under t definitions = [(t, schema')])
      as Htable.
    { intros definitions Hdefs. unfold _get_definitions in Hdefs.
      rewrite Hpass in Hdefs. simpl in Hdefs.
      destruct (flatten_all_ok recursion_limit (converted st) [] definitions
                  (NoDup_nil_2 (A:=string)) Hdefs)
        as (Hnd' & _ & Hkeys).
      split; [done |]. intros obj t Hobj Hty Ht.
      specialize (Hkeys obj t Hobj Hty Ht).
      apply dict_get_is_Some in Hkeys as [schema' Hget].
      exists schema'. by apply entries_under_NoDup. }
    split_and!.
    + intros path methods method d schema Hp Hm Hs.
      assert (exists kind, (kind, schema) ∈ scheduled self paths) as [kind Hk].
      { destruct Hs as [Hs|Hs].
        - exists ResponseConverter. apply scheduled_elem. right.
          exists path, methods, method, d. split_and!; [done | done |].
          by left.
        - exists RequestBodyConverter. apply scheduled_elem. right.
          exists path, methods, method, d. split_and!; [done | done |].
          by right. }
      assert (length (calls_on schema (calls st)) = 1) as Hone.
      { apply calls_on_once; [done |]. apply Hset. exact (Hin _ Hk). }
      apply length_one in Hone as [[kind' schema'] Hone].
      assert ((kind', schema') ∈ calls st) as Hc.
      { assert ((kind', schema') ∈ calls_on schema (calls st)) as Hc'.
        { rewrite Hone. by apply list_elem_of_singleton. }
        unfold calls_on in Hc'. by apply list_elem_of_filter in Hc' as [_ ?]. }
      destruct (Forall2_elem_l _ _ _ _ Hconv Hc) as (obj & Hobj & Hcv).
      exists kind', schema', obj. split_and!; [done | done | done |].
      intros definitions t Hdefs. by apply (proj2 (Htable definitions Hdefs)).
    + intros kind schema Hc. apply scheduled_elem. by apply Hcalls.
    + done.
    + done.
    + intros Hall. unfold _get_definitions. rewrite Hpass. simpl.
      by apply flatten_all_returns.
    + exact Htable.
Qed.

End InstanceFacts.

Lemma definitions_once_per_instance_witness :
  exists st definitions,
    _get_definitions_pass test_generator test_shared_routes = Ok st /\
    _get_definitions 50 test_generator test_shared_routes = Ok definitions /\
    length (calls st) = 4 /\
    (exists kind schema' obj entry,
       calls_on (test_schema 2 "FooSchema" "Foo") (calls st) =
         [(kind, schema')] /\
       convert test_generator kind schema' = Ok obj /\
       obj ∈ converted st /\
       entries_under "Foo" definitions = [("Foo", entry)]) /\
    (exists kind schema' obj entry,
       calls_on (test_schema 4 "FooUpdateSchema" "FooUpdateSchema")
         (calls st) = [(kind, schema')] /\
       convert test_generator kind schema' = Ok obj /\
       obj ∈ converted st /\
       entries_under "FooUpdateSchema" definitions =
         [("FooUpdateSchema", entry)]).
Proof.
  destruct (_get_definitions_pass test_generator test_shared_routes)
    as [st|e] eqn:E; [|vm_compute in E; discriminate].
  destruct (_get_definitions 50 test_generator test_shared_routes)
    as [definitions|e] eqn:Ed; [|vm_compute in Ed; discriminate].
  destruct (proj2 (definitions_once_per_instance 50 test_generator
                     test_shared_routes) st E)
    as (Honce & _ & _ & _ & _ & _).
  exists st, definitions. split_and!; [done | done | | |].
  - vm_compute in E. by injection E as <-.
  - destruct (Honce "/bars/<bar_uid>"
                [("GET", test_get_foo); ("PUT", test_update_foo)]
                "GET" test_get_foo (test_schema 2 "FooSchema" "Foo"))
      as (kind & schema' & obj & Hcalls & Hconv & Hobj & Hentry).
    + apply elem_of_cons. right. apply elem_of_cons. by left.
    + apply elem_of_cons. by left.
    + left. exists 200%Z. apply elem_of_cons. by left.
    + destruct (Hentry definitions "Foo" Ed) as [entry Hfoo].
      * assert (kind = ResponseConverter /\
                schema' = test_schema 2 "FooSchema" "Foo") as [-> ->].
        { vm_compute in E. injection E as <-. vm_compute in Hcalls.
          by injection Hcalls as <- <-. }
        vm_compute in Hconv. by injection Hconv as <-.
      * assert (kind = ResponseConverter /\
                schema' = test_schema 2 "FooSchema" "Foo") as [-> ->].
        { vm_compute in E. injection E as <-. vm_compute in Hcalls.
          by injection Hcalls as <- <-. }
        vm_compute in Hconv. by injection Hconv as <-.
      * by exists kind, schema', obj, entry.
  - destruct (Honce "/bars/<bar_uid>"
                [("GET", test_get_foo); ("PUT", test_update_foo)]
                "PUT" test_update_foo
                (test_schema 4 "FooUpdateSchema" "FooUpdateSchema"))
      as (kind & schema' & obj & Hcalls & Hconv & Hobj & Hentry).
    + apply elem_of_cons. right. apply elem_of_cons. by left.
    + apply elem_of_cons. right. apply elem_of_cons. by left.
    + by right.
    + destruct (Hentry definitions "FooUpdateSchema" Ed) as [entry Hupd].
      * assert (kind = RequestBodyConverter /\
                schema' = test_schema 4 "FooUpdateSchema" "FooUpdateSchema")
          as [-> ->].
        { vm_compute in E. injection E as <-. vm_compute in Hcalls.
          by injection Hcalls as <- <-. }
        vm_compute in Hconv. by injection Hconv as <-.
      * assert (kind = RequestBodyConverter /\
                schema' = test_schema 4 "FooUpdateSchema" "FooUpdateSchema")
          as [-> ->].
        { vm_compute in E. injection E as <-. vm_compute in Hcalls.
          by injection Hcalls as <- <-. }
        vm_compute in Hconv. by injection Hconv as <-.
      * by exists kind, schema', obj, entry.
Defined.
